(** * A shallow embedding of the canvas component of ShapeShifter

    Source: [src/app/canvas/canvas.component.ts].

    Numbers are rationals ([Q]).  JavaScript's strict comparison [===]
    on numbers is [Qeq_bool], so that two representations of the same
    number are the same number.  Where the component computes the sizes
    and the scale of the canvas and the coordinates of a mouse event,
    each arithmetic operation is the exact one followed by
    [roundDouble], the rounding to the nearest IEEE 754 double, a tie
    going to the even significand ([jsAdd], [jsSub], [jsMul], [jsDiv]).
    The arguments of the calls on a drawing context (the paint of a path
    layer, the radii, line widths and positions of the overlay) and the
    ranges of the hit test are given by the exact expression of their
    operands, which the component evaluates up to the rounding of each
    operation; the properties of these name the expression and do not
    compute with it.  Infinities, [NaN] and the negative zero are not
    numbers of the model: a quotient by zero is the one of [Q], which is
    0, and no result overflows; the properties that depend on the value
    of a quotient assume a positive divisor.

    The classes the component imports from [../scripts/common],
    [../scripts/paths] and [../scripts/layers] are not part of the file:
    their data is given by records that hold the fields and the results
    of the methods the component reads, and their algorithms (matrix
    algebra, projection, hit testing) are the methods of the interface
    [Scripts], over which every definition is parametric. *)

From Stdlib Require Import List String DecimalString Bool Arith Lia ZArith
  QArith Qround Qminmax Qpower Lqa Permutation.
Import ListNotations.

Set Implicit Arguments.

(** ** Results of JavaScript calls

    A call returns a value or throws; the only exception the component can
    raise by itself is the [TypeError] of a property read or a method call
    on [undefined]. *)

Inductive JsError : Type :=
| TypeError.

Inductive Outcome (A : Type) : Type :=
| Ok (a : A)
| Throw (e : JsError).

Arguments Ok {A} a.
Arguments Throw {A} e.

Definition bindO {A B} (o : Outcome A) (k : A -> Outcome B) : Outcome B :=
  match o with
  | Ok a => k a
  | Throw e => Throw e
  end.

(** [deref o] is the read of a property of [o], which throws on
    [undefined]. *)
Definition deref {A} (o : option A) : Outcome A :=
  match o with
  | Some a => Ok a
  | None => Throw TypeError
  end.

(** ** Comparisons of numbers: [a !== b], [a > b], [a < b] *)

Definition Qneq_bool (a b : Q) : bool := negb (Qeq_bool a b).
Definition Qgt_bool (a b : Q) : bool := negb (Qle_bool a b).
Definition Qlt_bool (a b : Q) : bool := negb (Qle_bool b a).

(** ** Double precision

    [binade q] is the exponent [e] with [2 ^ e <= q < 2 ^ (e + 1)], for a
    positive [q]: the difference of the binary logarithms of numerator
    and denominator, or one less. *)
Definition binade (q : Q) : Z :=
  let e := (Z.log2 (Qnum q) - Z.log2 (Zpos (Qden q)))%Z in
  if Qle_bool (2 ^ e) q then e else (e - 1)%Z.

(** [x] rounded to the nearest integer, a tie to the even one. *)
Definition roundHalfEven (x : Q) : Z :=
  let f := Qfloor x in
  let r := x - inject_Z f in
  if Qlt_bool r (1 # 2) then f
  else if Qlt_bool (1 # 2) r then (f + 1)%Z
  else if Z.even f then f else (f + 1)%Z.

(** The distance of the doubles around a positive [q]: 52 binary digits
    below the binade of [q], and below [2 ^ -1022] for the subnormal
    numbers. *)
Definition ulpExp (q : Q) : Z := Z.max (binade q) (-1022).

Definition ulp (q : Q) : Q := 2 ^ (ulpExp q - 52).

(** [q] rounded to a multiple of [u]. *)
Definition roundTo (u q : Q) : Q := inject_Z (roundHalfEven (q / u)) * u.

Definition roundPositive (q : Q) : Q := roundTo (ulp q) q.

(** The double nearest to [q], as a reduced fraction. *)
Definition roundDouble (q : Q) : Q :=
  match Qnum q with
  | Z0 => 0
  | Zpos _ => Qred (roundPositive q)
  | Zneg _ => Qred (- roundPositive (- q))
  end.

(** The arithmetic of JavaScript on numbers. *)
Definition jsAdd (x y : Q) : Q := roundDouble (x + y).
Definition jsSub (x y : Q) : Q := roundDouble (x - y).
Definition jsMul (x y : Q) : Q := roundDouble (x * y).
Definition jsDiv (x y : Q) : Q := roundDouble (x / y).

(** ** Geometry and the path command model *)

Record Point : Type := mkPoint { px : Q; py : Q }.

(** [Point.equals]: exact numeric comparison of both coordinates.  The
    argument may be [undefined] ([executeCommands] passes the still
    unassigned [previousEndPoint] for the first command, and its comment
    relies on the comparison being false there). *)
Definition Point_equals (p : Point) (q : option Point) : bool :=
  match q with
  | Some q => Qeq_bool (px p) (px q) && Qeq_bool (py p) (py q)
  | None => false
  end.

(** A command with the points [getPoints()] returns for its kind; the
    first one is the start point (absent for the first [MoveTo] of a
    path), the last one the end point. *)
Inductive Segment : Type :=
| MoveTo (start : option Point) (p1 : Point)
| LineTo (start p1 : Point)
| QuadraticCurveTo (start p1 p2 : Point)
| CubicCurveTo (start p1 p2 p3 : Point)
| ClosePath (start p1 : Point).

Record Command : Type := mkCommand {
  segment : Segment;
  isSplit : bool;
  isSubPathSplitSegment : bool
}.

Inductive SvgChar : Type := M | L | Q_ | C | Z.

Definition getSvgChar (cmd : Command) : SvgChar :=
  match segment cmd with
  | MoveTo _ _ => M
  | LineTo _ _ => L
  | QuadraticCurveTo _ _ _ => Q_
  | CubicCurveTo _ _ _ _ => C
  | ClosePath _ _ => Z
  end.

Definition getStart (cmd : Command) : option Point :=
  match segment cmd with
  | MoveTo s _ => s
  | LineTo s _ | QuadraticCurveTo s _ _ | CubicCurveTo s _ _ _
  | ClosePath s _ => Some s
  end.

Definition getEnd (cmd : Command) : Point :=
  match segment cmd with
  | MoveTo _ e | LineTo _ e | QuadraticCurveTo _ _ e
  | CubicCurveTo _ _ _ e | ClosePath _ e => e
  end.

Record SubPath : Type := mkSubPath {
  subPathCommands : list Command;
  isCollapsing : bool
}.

Record Path : Type := mkPath {
  getSubPaths : list SubPath;
  getPathLength : Q
}.

(** [path.getCommands()]: the commands of all subpaths, in order. *)
Definition getCommands (p : Path) : list Command :=
  flat_map subPathCommands (getSubPaths p).

(** Modelled from the spec: [getSubPath(subIdx)] and
    [getCommand(subIdx, cmdIdx)] of [../scripts/paths] are pure accessors
    by index; an index out of range is taken to give [undefined], as the
    read of an array does. *)
Definition getSubPath (p : Path) (subIdx : nat) : option SubPath :=
  nth_error (getSubPaths p) subIdx.

Definition getCommand (p : Path) (subIdx cmdIdx : nat) : option Command :=
  match getSubPath p subIdx with
  | Some subPath => nth_error (subPathCommands subPath) cmdIdx
  | None => None
  end.

(** ** Layers *)

Record GroupProps : Type := mkGroupProps {
  pivotX : Q; pivotY : Q;
  rotation : Q;
  scaleX : Q; scaleY : Q;
  translateX : Q; translateY : Q
}.

Record PathProps : Type := mkPathProps {
  pathData : Path;
  strokeColor : string; strokeAlpha : Q; strokeWidth : Q;
  fillColor : string; fillAlpha : Q;
  strokeLinecap : string; strokeLinejoin : string; strokeMiterLimit : Q;
  trimPathStart : Q; trimPathEnd : Q; trimPathOffset : Q;
  fillType : string;
  (* the results of the methods isStroked() and isFilled() *)
  isStroked : bool;
  isFilled : bool
}.

#[warnings="-register-all"]
Inductive Layer : Type :=
| VectorLayer (id : string) (children : list Layer) (width height alpha : Q)
| GroupLayer (id : string) (children : list Layer) (g : GroupProps)
| PathLayer (id : string) (p : PathProps)
| ClipPathLayer (id : string) (clip : Path).

Definition layerId (l : Layer) : string :=
  match l with
  | VectorLayer i _ _ _ _ | GroupLayer i _ _ | PathLayer i _
  | ClipPathLayer i _ => i
  end.

(** [layer.children], which only container layers define. *)
Definition layerChildren (l : Layer) : option (list Layer) :=
  match l with
  | VectorLayer _ cs _ _ _ | GroupLayer _ cs _ => Some cs
  | PathLayer _ _ | ClipPathLayer _ _ => None
  end.

(** The induction principle of the tree, with the hypothesis on every
    child. *)
Section LayerInduction.
Variable P : Layer -> Prop.
Hypothesis HVector : forall i cs w h a,
  Forall P cs -> P (VectorLayer i cs w h a).
Hypothesis HGroup : forall i cs g, Forall P cs -> P (GroupLayer i cs g).
Hypothesis HPath : forall i p, P (PathLayer i p).
Hypothesis HClip : forall i c, P (ClipPathLayer i c).

Fixpoint Layer_tree_ind (l : Layer) : P l :=
  let children_ind :=
    fix go (cs : list Layer) : Forall P cs :=
      match cs with
      | [] => Forall_nil P
      | c :: cs' => Forall_cons c (Layer_tree_ind c) (go cs')
      end in
  match l with
  | VectorLayer i cs w h a => HVector i w h a (children_ind cs)
  | GroupLayer i cs g => HGroup i g (children_ind cs)
  | PathLayer i p => HPath i p
  | ClipPathLayer i c => HClip i c
  end.
End LayerInduction.

(** The ids of a tree, in the order of a depth-first traversal. *)
Fixpoint layerIds (l : Layer) : list string :=
  layerId l ::
  match l with
  | VectorLayer _ cs _ _ _ | GroupLayer _ cs _ => flat_map layerIds cs
  | PathLayer _ _ | ClipPathLayer _ _ => []
  end.

(** [firstDefined f xs]: the loop [for (const x of xs) { const r = f(x);
    if (r) { return r; } } return undefined;]. *)
Definition firstDefined {A B} (f : A -> option B) : list A -> option B :=
  fix go (xs : list A) : option B :=
    match xs with
    | [] => None
    | x :: xs' =>
        match f x with
        | Some r => Some r
        | None => go xs'
        end
    end.

(** The layers of a tree, a layer before its children. *)
Fixpoint layersOf (l : Layer) : list Layer :=
  l ::
  match l with
  | VectorLayer _ cs _ _ _ | GroupLayer _ cs _ => flat_map layersOf cs
  | PathLayer _ _ | ClipPathLayer _ _ => []
  end.

(** [ancestorsOf target root anc]: going down from [root] through the
    layers [anc], each a child of the one before, ends in a layer whose
    id is [target]; [anc] lists the ancestors of that layer from the
    outermost to the innermost. *)
Inductive ancestorsOf (target : string) : Layer -> list Layer -> Prop :=
| ancestors_here (l : Layer) :
    layerId l = target -> ancestorsOf target l []
| ancestors_below (l c : Layer) (cs anc : list Layer) :
    layerChildren l = Some cs -> In c cs ->
    ancestorsOf target c anc -> ancestorsOf target l (l :: anc).

(** ** The component and the services it reads

    [VectorLayerRoot] is the type [VectorLayer] of the root of a tree;
    [rootLayer] is the same layer as a [Layer]. *)

Record VectorLayerRoot : Type := mkVectorLayerRoot {
  rootId : string;
  rootChildren : list Layer;
  vlWidth : Q;
  vlHeight : Q;
  alpha : Q
}.

Definition rootLayer (v : VectorLayerRoot) : Layer :=
  VectorLayer (rootId v) (rootChildren v) (vlWidth v) (vlHeight v) (alpha v).

Inductive CanvasType : Type := Start | Preview | End_.

Inductive AppMode : Type := SelectPoints | AddPoints | SplitSubPaths.

Inductive MorphabilityStatus : Type := NoStatus | Unmorphable | Morphable.

Inductive SelectionType : Type :=
| SubPathSelection | SegmentSelection | PointSelection.

Inductive HoverType : Type :=
| HoverSplit | HoverUnsplit | HoverReverse | HoverShiftForward
| HoverShiftBack | HoverPoint.

Record Selection : Type := mkSelection {
  subIdx : nat;
  cmdIdx : option nat;
  source : CanvasType;
  selectionType : SelectionType
}.

Record Hover : Type := mkHover {
  hoverType : HoverType;
  hoverSubIdx : nat;
  hoverCmdIdx : option nat;
  hoverSource : CanvasType
}.

(** A projection onto the path, and what a controller answers when it is
    asked for one: the indices of the command and the projection, which
    the component tests before it reads it in some places and reads
    untested in others. *)
Record Projection : Type := mkProjection {
  proj_x : Q; proj_y : Q; proj_d : Q; proj_t : Q
}.

Record ControllerProjection : Type := mkControllerProjection {
  cp_subIdx : nat;
  cp_cmdIdx : nat;
  cp_projection : option Projection
}.

(** The three controllers of [./PathSelector], [./SegmentSplitter] and
    [./ShapeSplitter], as what the component reads from them: the
    argument of the constructor it has passed and the answers of the
    methods it calls when it draws the overlay. *)
Record PathSelector : Type := mkPathSelector {
  ps_isDragTriggered : bool;
  (* subIdx and cmdIdx *)
  ps_getDraggableSplitIndex : option (nat * nat);
  ps_getProjectionOntoPath : option ControllerProjection;
  ps_getLastKnownMouseLocation : option Point
}.

Record SegmentSplitter : Type := mkSegmentSplitter {
  restrictToSubIdx : option nat;
  ss_getProjectionOntoPath : option ControllerProjection;
  ss_getLastKnownMouseLocation : option Point
}.

Record ShapeSplitter : Type := mkShapeSplitter {
  sh_getInitialProjectionOntoPath : option ControllerProjection;
  sh_getFinalProjectionOntoPath : option ControllerProjection;
  sh_getCurrentProjectionOntoPath : option ControllerProjection;
  sh_getLastKnownMouseLocation : option Point;
  sh_willFinalProjectionOntoPathCreateSplitPoint : bool
}.

(** Modelled from the spec: the classes of the controllers are not part
    of the file.  A controller is a state machine driven by the pointer
    events it is handed; one that has just been instantiated is in its
    first state (idle, before the first click), with no projection, no
    mouse location and no drag. *)
Definition newPathSelector : PathSelector :=
  mkPathSelector false None None None.

Definition newSegmentSplitter (restrictTo : option nat) : SegmentSplitter :=
  mkSegmentSplitter restrictTo None None.

Definition newShapeSplitter : ShapeSplitter :=
  mkShapeSplitter None None None None false.

Record Size : Type := mkSize { width : Q; height : Q }.

Record Offset : Type := mkOffset { left : Q; top : Q }.

Record MouseEvent : Type := mkMouseEvent {
  pageX : Q; pageY : Q; shiftKey : bool; metaKey : bool
}.

(** The options of [performHitTest]; an absent flag is [false]. *)
Record HitTestOpts : Type := mkHitTestOpts {
  noPoints : bool;
  noSegments : bool;
  noShapes : bool;
  opt_restrictToSubIdx : option (list nat)
}.

Record Canvas : Type := mkCanvas {
  (* the component's own fields *)
  canvasType : CanvasType;
  isViewInit : bool;
  cssContainerWidth : Q;
  cssContainerHeight : Q;
  vlSize : Size;
  cssScale : Q;
  attrScale : Q;
  currentHoverPreviewPath : option Path;
  pathSelector : option PathSelector;
  segmentSplitter : option SegmentSplitter;
  shapeSplitter : option ShapeSplitter;
  disabledSubPathIndices : list nat;
  (* the size given to the five canvases, and the cursor of the container *)
  canvasCssSize : Size;
  canvasAttrSize : Size;
  cursor : string;
  (* the window and the position of the container in the page *)
  devicePixelRatio : Q;
  canvasOffset : Offset;
  (* what the state service answers for this canvas *)
  getVectorLayer : option VectorLayerRoot;
  getActivePathId : option string;
  getActivePathLayer : option PathProps;
  getMorphabilityStatus : MorphabilityStatus;
  (* the app-mode, selection, hover and settings services *)
  getAppMode : AppMode;
  getSelections : list Selection;
  getHover : option Hover;
  shouldLabelPointsSetting : bool
}.

Definition set_cssContainerWidth (v : Q) (c : Canvas) : Canvas :=
  mkCanvas (canvasType c) (isViewInit c) v (cssContainerHeight c)
    (vlSize c) (cssScale c) (attrScale c) (currentHoverPreviewPath c)
    (pathSelector c) (segmentSplitter c) (shapeSplitter c)
    (disabledSubPathIndices c) (canvasCssSize c) (canvasAttrSize c)
    (cursor c) (devicePixelRatio c) (canvasOffset c) (getVectorLayer c)
    (getActivePathId c) (getActivePathLayer c) (getMorphabilityStatus c)
    (getAppMode c) (getSelections c) (getHover c)
    (shouldLabelPointsSetting c).

Definition set_cssContainerHeight (v : Q) (c : Canvas) : Canvas :=
  mkCanvas (canvasType c) (isViewInit c) (cssContainerWidth c) v (vlSize c)
    (cssScale c) (attrScale c) (currentHoverPreviewPath c) (pathSelector c)
    (segmentSplitter c) (shapeSplitter c) (disabledSubPathIndices c)
    (canvasCssSize c) (canvasAttrSize c) (cursor c) (devicePixelRatio c)
    (canvasOffset c) (getVectorLayer c) (getActivePathId c)
    (getActivePathLayer c) (getMorphabilityStatus c) (getAppMode c)
    (getSelections c) (getHover c) (shouldLabelPointsSetting c).

Definition set_vlSize (v : Size) (c : Canvas) : Canvas :=
  mkCanvas (canvasType c) (isViewInit c) (cssContainerWidth c)
    (cssContainerHeight c) v (cssScale c) (attrScale c)
    (currentHoverPreviewPath c) (pathSelector c) (segmentSplitter c)
    (shapeSplitter c) (disabledSubPathIndices c) (canvasCssSize c)
    (canvasAttrSize c) (cursor c) (devicePixelRatio c) (canvasOffset c)
    (getVectorLayer c) (getActivePathId c) (getActivePathLayer c)
    (getMorphabilityStatus c) (getAppMode c) (getSelections c) (getHover c)
    (shouldLabelPointsSetting c).

Definition set_cssScale (v : Q) (c : Canvas) : Canvas :=
  mkCanvas (canvasType c) (isViewInit c) (cssContainerWidth c)
    (cssContainerHeight c) (vlSize c) v (attrScale c)
    (currentHoverPreviewPath c) (pathSelector c) (segmentSplitter c)
    (shapeSplitter c) (disabledSubPathIndices c) (canvasCssSize c)
    (canvasAttrSize c) (cursor c) (devicePixelRatio c) (canvasOffset c)
    (getVectorLayer c) (getActivePathId c) (getActivePathLayer c)
    (getMorphabilityStatus c) (getAppMode c) (getSelections c) (getHover c)
    (shouldLabelPointsSetting c).

Definition set_attrScale (v : Q) (c : Canvas) : Canvas :=
  mkCanvas (canvasType c) (isViewInit c) (cssContainerWidth c)
    (cssContainerHeight c) (vlSize c) (cssScale c) v
    (currentHoverPreviewPath c) (pathSelector c) (segmentSplitter c)
    (shapeSplitter c) (disabledSubPathIndices c) (canvasCssSize c)
    (canvasAttrSize c) (cursor c) (devicePixelRatio c) (canvasOffset c)
    (getVectorLayer c) (getActivePathId c) (getActivePathLayer c)
    (getMorphabilityStatus c) (getAppMode c) (getSelections c) (getHover c)
    (shouldLabelPointsSetting c).

Definition set_currentHoverPreviewPath (v : option Path)
    (c : Canvas) : Canvas :=
  mkCanvas (canvasType c) (isViewInit c) (cssContainerWidth c)
    (cssContainerHeight c) (vlSize c) (cssScale c) (attrScale c) v
    (pathSelector c) (segmentSplitter c) (shapeSplitter c)
    (disabledSubPathIndices c) (canvasCssSize c) (canvasAttrSize c)
    (cursor c) (devicePixelRatio c) (canvasOffset c) (getVectorLayer c)
    (getActivePathId c) (getActivePathLayer c) (getMorphabilityStatus c)
    (getAppMode c) (getSelections c) (getHover c)
    (shouldLabelPointsSetting c).

Definition set_pathSelector (v : option PathSelector) (c : Canvas) : Canvas :=
  mkCanvas (canvasType c) (isViewInit c) (cssContainerWidth c)
    (cssContainerHeight c) (vlSize c) (cssScale c) (attrScale c)
    (currentHoverPreviewPath c) v (segmentSplitter c) (shapeSplitter c)
    (disabledSubPathIndices c) (canvasCssSize c) (canvasAttrSize c)
    (cursor c) (devicePixelRatio c) (canvasOffset c) (getVectorLayer c)
    (getActivePathId c) (getActivePathLayer c) (getMorphabilityStatus c)
    (getAppMode c) (getSelections c) (getHover c)
    (shouldLabelPointsSetting c).

Definition set_segmentSplitter (v : option SegmentSplitter)
    (c : Canvas) : Canvas :=
  mkCanvas (canvasType c) (isViewInit c) (cssContainerWidth c)
    (cssContainerHeight c) (vlSize c) (cssScale c) (attrScale c)
    (currentHoverPreviewPath c) (pathSelector c) v (shapeSplitter c)
    (disabledSubPathIndices c) (canvasCssSize c) (canvasAttrSize c)
    (cursor c) (devicePixelRatio c) (canvasOffset c) (getVectorLayer c)
    (getActivePathId c) (getActivePathLayer c) (getMorphabilityStatus c)
    (getAppMode c) (getSelections c) (getHover c)
    (shouldLabelPointsSetting c).

Definition set_shapeSplitter (v : option ShapeSplitter)
    (c : Canvas) : Canvas :=
  mkCanvas (canvasType c) (isViewInit c) (cssContainerWidth c)
    (cssContainerHeight c) (vlSize c) (cssScale c) (attrScale c)
    (currentHoverPreviewPath c) (pathSelector c) (segmentSplitter c) v
    (disabledSubPathIndices c) (canvasCssSize c) (canvasAttrSize c)
    (cursor c) (devicePixelRatio c) (canvasOffset c) (getVectorLayer c)
    (getActivePathId c) (getActivePathLayer c) (getMorphabilityStatus c)
    (getAppMode c) (getSelections c) (getHover c)
    (shouldLabelPointsSetting c).

Definition set_canvasCssSize (v : Size) (c : Canvas) : Canvas :=
  mkCanvas (canvasType c) (isViewInit c) (cssContainerWidth c)
    (cssContainerHeight c) (vlSize c) (cssScale c) (attrScale c)
    (currentHoverPreviewPath c) (pathSelector c) (segmentSplitter c)
    (shapeSplitter c) (disabledSubPathIndices c) v (canvasAttrSize c)
    (cursor c) (devicePixelRatio c) (canvasOffset c) (getVectorLayer c)
    (getActivePathId c) (getActivePathLayer c) (getMorphabilityStatus c)
    (getAppMode c) (getSelections c) (getHover c)
    (shouldLabelPointsSetting c).

Definition set_canvasAttrSize (v : Size) (c : Canvas) : Canvas :=
  mkCanvas (canvasType c) (isViewInit c) (cssContainerWidth c)
    (cssContainerHeight c) (vlSize c) (cssScale c) (attrScale c)
    (currentHoverPreviewPath c) (pathSelector c) (segmentSplitter c)
    (shapeSplitter c) (disabledSubPathIndices c) (canvasCssSize c) v
    (cursor c) (devicePixelRatio c) (canvasOffset c) (getVectorLayer c)
    (getActivePathId c) (getActivePathLayer c) (getMorphabilityStatus c)
    (getAppMode c) (getSelections c) (getHover c)
    (shouldLabelPointsSetting c).

Definition set_cursor (v : string) (c : Canvas) : Canvas :=
  mkCanvas (canvasType c) (isViewInit c) (cssContainerWidth c)
    (cssContainerHeight c) (vlSize c) (cssScale c) (attrScale c)
    (currentHoverPreviewPath c) (pathSelector c) (segmentSplitter c)
    (shapeSplitter c) (disabledSubPathIndices c) (canvasCssSize c)
    (canvasAttrSize c) v (devicePixelRatio c) (canvasOffset c)
    (getVectorLayer c) (getActivePathId c) (getActivePathLayer c)
    (getMorphabilityStatus c) (getAppMode c) (getSelections c) (getHover c)
    (shouldLabelPointsSetting c).

Definition set_getAppMode (v : AppMode) (c : Canvas) : Canvas :=
  mkCanvas (canvasType c) (isViewInit c) (cssContainerWidth c)
    (cssContainerHeight c) (vlSize c) (cssScale c) (attrScale c)
    (currentHoverPreviewPath c) (pathSelector c) (segmentSplitter c)
    (shapeSplitter c) (disabledSubPathIndices c) (canvasCssSize c)
    (canvasAttrSize c) (cursor c) (devicePixelRatio c) (canvasOffset c)
    (getVectorLayer c) (getActivePathId c) (getActivePathLayer c)
    (getMorphabilityStatus c) v (getSelections c) (getHover c)
    (shouldLabelPointsSetting c).

Definition set_getSelections (v : list Selection) (c : Canvas) : Canvas :=
  mkCanvas (canvasType c) (isViewInit c) (cssContainerWidth c)
    (cssContainerHeight c) (vlSize c) (cssScale c) (attrScale c)
    (currentHoverPreviewPath c) (pathSelector c) (segmentSplitter c)
    (shapeSplitter c) (disabledSubPathIndices c) (canvasCssSize c)
    (canvasAttrSize c) (cursor c) (devicePixelRatio c) (canvasOffset c)
    (getVectorLayer c) (getActivePathId c) (getActivePathLayer c)
    (getMorphabilityStatus c) (getAppMode c) v (getHover c)
    (shouldLabelPointsSetting c).

Definition set_getHover (v : option Hover) (c : Canvas) : Canvas :=
  mkCanvas (canvasType c) (isViewInit c) (cssContainerWidth c)
    (cssContainerHeight c) (vlSize c) (cssScale c) (attrScale c)
    (currentHoverPreviewPath c) (pathSelector c) (segmentSplitter c)
    (shapeSplitter c) (disabledSubPathIndices c) (canvasCssSize c)
    (canvasAttrSize c) (cursor c) (devicePixelRatio c) (canvasOffset c)
    (getVectorLayer c) (getActivePathId c) (getActivePathLayer c)
    (getMorphabilityStatus c) (getAppMode c) (getSelections c) v
    (shouldLabelPointsSetting c).

(** ** The imported scripts, services and browser interfaces *)

Record ProjectionOntoPath : Type := mkProjectionOntoPath {
  pop_subIdx : nat;
  pop_cmdIdx : nat;
  pop_projection : Projection
}.

Record Hit : Type := mkHit {
  hit_subIdx : nat;
  hit_cmdIdx : option nat
}.

Record HitResult : Type := mkHitResult {
  isHit : bool;
  endPointHits : list Hit;
  segmentHits : list Hit;
  shapeHits : list Hit
}.

(** The options [Path.hitTest] receives. *)
Record PathHitTestOpts : Type := mkPathHitTestOpts {
  isPointInRangeFn : option (Q -> Command -> bool);
  isSegmentInRangeFn : option (Q -> Command -> bool);
  findShapesInRange : bool;
  hit_restrictToSubIdx : option (list nat)
}.

Class Scripts : Type := {
  Matrix : Type;
  Matrix_fromTranslation : Q -> Q -> Matrix;
  Matrix_fromRotation : Q -> Matrix;
  Matrix_fromScaling : Q -> Q -> Matrix;
  Matrix_flatten : list Matrix -> Matrix;
  Matrix_invert : Matrix -> Matrix;
  Matrix_getScale : Matrix -> Q;
  MathUtil_flattenTransforms : list Matrix -> Matrix;
  MathUtil_transformPoint : Point -> list Matrix -> Point;
  ColorUtil_androidToCssColor : string -> Q -> string;
  Path_project : Path -> Point -> option nat -> option ProjectionOntoPath;
  Path_hitTest : Path -> Point -> PathHitTestOpts -> HitResult;
  (* [selectionService.isCommandSelected(subIdx, cmdIdx)], for the
     selections the service holds *)
  SelectionService_isCommandSelected : list Selection -> nat -> nat -> bool;
  (* [ctx.measureText(text).width], for the font size that is set *)
  Context_measureTextWidth : Q -> string -> Q
}.

Section Canvas.
Context {scripts : Scripts}.

(** ** The transform resolver *)

(** The five matrices of a group, in the order the callback of
    [_.flatMap] lists them; a layer that is no [GroupLayer] has none. *)
Definition groupTransforms (layer : Layer) : list Matrix :=
  match layer with
  | GroupLayer _ _ g =>
      [ Matrix_fromTranslation (pivotX g) (pivotY g);
        Matrix_fromTranslation (translateX g) (translateY g);
        Matrix_fromRotation (rotation g);
        Matrix_fromScaling (scaleX g) (scaleY g);
        Matrix_fromTranslation (- pivotX g) (- pivotY g) ]
  | _ => []
  end.

(** The inner function [getTransformsFn(parents, current)]; [None] is
    [undefined]. *)
Fixpoint getTransformsFn (target : string) (parents : list Layer)
    (current : Layer) {struct current} : option (list Matrix) :=
  if String.eqb (layerId current) target then
    Some (flat_map groupTransforms parents)
  else
    match current with
    | VectorLayer _ cs _ _ _ | GroupLayer _ cs _ =>
        firstDefined (getTransformsFn target (parents ++ [current])) cs
    | PathLayer _ _ | ClipPathLayer _ _ => None
    end.

Definition getTransformsForLayer (vectorLayer : Layer) (target : string)
  : option (list Matrix) :=
  getTransformsFn target [] vectorLayer.

(** What the search answers on the subtree of [current]: with the id in
    the subtree, the transforms of [parents] followed by those of a chain
    of ancestors below; without it, [undefined]. *)
Definition resolves (target : string) (current : Layer) : Prop :=
  forall parents,
    (In target (layerIds current) ->
     exists anc,
       ancestorsOf target current anc
       /\ getTransformsFn target parents current
          = Some (flat_map groupTransforms (parents ++ anc)))
    /\ (~ In target (layerIds current) ->
        getTransformsFn target parents current = None).

(** ** The drawing surface

    The component owns four contexts.  A context is driven by calls; the
    model records the calls a method issues, in order, with the context
    that receives each of them. *)

Inductive CtxId : Type :=
| RenderingCtx | OverlayCtx | OffscreenLayerCtx | OffscreenSubPathCtx.

Inductive CtxCall : Type :=
| Save
| Restore
| Scale (x y : Q)
| ClearRect (x y w h : Q)
| Transform (m : Matrix)
| BeginPath
| MoveToCall (x y : Q)
| LineToCall (x y : Q)
| QuadraticCurveToCall (x1 y1 x2 y2 : Q)
| BezierCurveToCall (x1 y1 x2 y2 x3 y3 : Q)
| ClosePathCall
| Clip
| SetStrokeStyle (color : string)
| SetLineWidth (w : Q)
| SetFillStyle (color : string)
| SetLineCap (cap : string)
| SetLineJoin (join : string)
| SetMiterLimit (limit : Q)
| SetLineDash (segments : list Q)
| SetLineDashOffset (offset : Q)
| Stroke
| Fill (rule : option string)
| SetGlobalAlpha (alpha : Q)
| DrawImage (source : CtxId) (x y : Q)
(* [arc(x, y, radius, 0, 2 * Math.PI, false)] *)
| Arc (x y radius : Q)
(* [font = size + 'px Roboto, Helvetica Neue, sans-serif'] *)
| SetFont (size : Q)
| MeasureText (text : string)
| FillText (text : string) (x y : Q)
| FillRect (x y w h : Q).

Inductive Event : Type :=
| Call (ctx : CtxId) (c : CtxCall).

Definition Trace : Type := list Event.

(** A drawing method: the calls it issued, and whether it returned or
    threw after them. *)
Definition Draw (A : Type) : Type := (Trace * Outcome A)%type.

Definition ret {A} (a : A) : Draw A := ([], Ok a).

Definition bind {A B} (m : Draw A) (k : A -> Draw B) : Draw B :=
  match m with
  | (t, Ok a) => let (t', r) := k a in (t ++ t', r)
  | (t, Throw e) => (t, Throw e)
  end.

Definition emit (ctx : CtxId) (c : CtxCall) : Draw unit :=
  ([Call ctx c], Ok tt).

Definition emitAll (ctx : CtxId) (cs : list CtxCall) : Draw unit :=
  (map (Call ctx) cs, Ok tt).

Definition liftO {A} (o : Outcome A) : Draw A := ([], o).

Definition calls {A} (m : Draw A) : Trace := fst m.
Definition outcome {A} (m : Draw A) : Outcome A := snd m.

Notation "x <- m ;; k" := (bind m (fun x => k))
  (at level 61, m at next level, right associativity).
Notation "m ;; k" := (bind m (fun _ => k))
  (at level 61, right associativity).
Notation "x <-? o ;; k" := (bindO o (fun x => k))
  (at level 61, o at next level, right associativity).

(** [xs.forEach(f)] for a callback that draws. *)
Definition forEach {A} (f : A -> Draw unit) : list A -> Draw unit :=
  fix go (xs : list A) : Draw unit :=
    match xs with
    | [] => ret tt
    | x :: xs' => f x ;; go xs'
    end.

(** *** executeCommands *)

(** The body of the loop of [executeCommands] for one command, with the
    value of [previousEndPoint] before it. *)
Definition commandCalls (previousEndPoint : option Point) (cmd : Command)
  : list CtxCall :=
  match segment cmd with
  | MoveTo _ e => [MoveToCall (px e) (py e)]
  | LineTo _ e => [LineToCall (px e) (py e)]
  | QuadraticCurveTo _ p1 p2 =>
      [QuadraticCurveToCall (px p1) (py p1) (px p2) (py p2)]
  | CubicCurveTo _ p1 p2 p3 =>
      [BezierCurveToCall (px p1) (py p1) (px p2) (py p2) (px p3) (py p3)]
  | ClosePath start e =>
      if Point_equals start previousEndPoint then [ClosePathCall]
      else [MoveToCall (px start) (py start); LineToCall (px e) (py e)]
  end.

(** The loop [commands.forEach(cmd => ...)], which threads
    [previousEndPoint]. *)
Fixpoint commandsCalls (previousEndPoint : option Point)
    (commands : list Command) : list CtxCall :=
  match commands with
  | [] => []
  | cmd :: rest =>
      commandCalls previousEndPoint cmd
        ++ commandsCalls (Some (getEnd cmd)) rest
  end.

(** The special handling of a list of one command that is no [MoveTo]. *)
Definition singleSegmentCalls (commands : list Command) : list CtxCall :=
  match commands with
  | [cmd] =>
      match segment cmd with
      | MoveTo _ _ => []
      | LineTo start _ | QuadraticCurveTo start _ _
      | CubicCurveTo start _ _ _ | ClosePath start _ =>
          [MoveToCall (px start) (py start)]
      end
  | _ => []
  end.

(** [transforms] is what [getTransformsForLayer] returned; [forEach] on
    [undefined] throws, after [ctx.save()]. *)
Definition executeCommands (ctx : CtxId) (commands : list Command)
    (transforms : option (list Matrix)) : Draw unit :=
  emit ctx Save ;;
  ms <- liftO (deref transforms) ;;
  emitAll ctx (map Transform ms) ;;
  emit ctx BeginPath ;;
  emitAll ctx (singleSegmentCalls commands) ;;
  emitAll ctx (commandsCalls None commands) ;;
  emit ctx Restore.

(** [_.last(xs)], [undefined] for an empty list. *)
Definition last_ {A} (xs : list A) : option A :=
  match rev xs with
  | [] => None
  | x :: _ => Some x
  end.

(** The value of [previousEndPoint] once the loop has run through the
    commands [pre]. *)
Definition previousEndPointAfter (pre : list Command) : option Point :=
  option_map getEnd (last_ pre).

(** The calls of [executeCommands] on a resolved list of transforms. *)
Definition executeCalls (commands : list Command) (ms : list Matrix)
  : list CtxCall :=
  Save :: map Transform ms
    ++ BeginPath :: singleSegmentCalls commands
    ++ commandsCalls None commands ++ [Restore].

(** *** drawPaths *)

(** JavaScript's [%] on numbers: the remainder of the division truncated
    towards zero, with the sign of the dividend. *)
Definition jsRemainder (x y : Q) : Q :=
  x - y * inject_Z (Z.quot (Qnum (x / y)) (Zpos (Qden (x / y)))).

(** The visible fraction of a trimmed path. *)
Definition shownFraction (p : PathProps) : Q :=
  let f := trimPathEnd p - trimPathStart p in
  if Qgt_bool (trimPathStart p) (trimPathEnd p) then f + 1 else f.

Definition isTrimmed (p : PathProps) : bool :=
  Qneq_bool (trimPathStart p) 0
  || Qneq_bool (trimPathEnd p) 1
  || Qneq_bool (trimPathOffset p) 0.

Definition trimCalls (p : PathProps) : list CtxCall :=
  if isTrimmed p then
    [ SetLineDash
        [ shownFraction p * getPathLength (pathData p);
          (1 - shownFraction p + 0.001) * getPathLength (pathData p) ];
      SetLineDashOffset
        (getPathLength (pathData p)
         * (1 - jsRemainder (trimPathStart p + trimPathOffset p) 1)) ]
  else [SetLineDash []].

Definition strokeCalls (p : PathProps) : list CtxCall :=
  if isStroked p
     && Qneq_bool (strokeWidth p) 0
     && Qneq_bool (trimPathStart p) (trimPathEnd p)
  then [Stroke] else [].

Definition fillCalls (p : PathProps) : list CtxCall :=
  if isFilled p then
    if String.eqb (fillType p) "evenOdd"%string then
      [Fill (Some "evenodd"%string)]
    else [Fill None]
  else [].

(** The callback [drawPaths] passes to [walk], for the layer tree
    [vectorLayer]. *)
Definition drawLayer (ctx : CtxId)
    (extractDrawingCommandsFn : string -> PathProps -> list Command)
    (vectorLayer : Layer) (layer : Layer) : Draw unit :=
  match layer with
  | ClipPathLayer i clip =>
      let transforms := getTransformsForLayer vectorLayer i in
      executeCommands ctx (getCommands clip) transforms ;;
      emit ctx Clip
  | PathLayer i p =>
      let commands := extractDrawingCommandsFn i p in
      match commands with
      | [] => ret tt
      | _ :: _ =>
          emit ctx Save ;;
          let transforms := getTransformsForLayer vectorLayer i in
          executeCommands ctx commands transforms ;;
          ms <- liftO (deref transforms) ;;
          let strokeWidthMultiplier :=
            Matrix_getScale (MathUtil_flattenTransforms ms) in
          emitAll ctx
            [ SetStrokeStyle
                (ColorUtil_androidToCssColor (strokeColor p) (strokeAlpha p));
              SetLineWidth (strokeWidth p * strokeWidthMultiplier);
              SetFillStyle
                (ColorUtil_androidToCssColor (fillColor p) (fillAlpha p));
              SetLineCap (strokeLinecap p);
              SetLineJoin (strokeLinejoin p);
              SetMiterLimit (strokeMiterLimit p) ] ;;
          emitAll ctx (trimCalls p) ;;
          emitAll ctx (strokeCalls p) ;;
          emitAll ctx (fillCalls p) ;;
          emit ctx Restore
      end
  | VectorLayer _ _ _ _ _ | GroupLayer _ _ _ => ret tt
  end.

(** The calls of the callback for a path layer that has commands to draw
    and resolved transforms. *)
Definition paintCalls (p : PathProps) (ms : list Matrix) : list CtxCall :=
  [ SetStrokeStyle
      (ColorUtil_androidToCssColor (strokeColor p) (strokeAlpha p));
    SetLineWidth
      (strokeWidth p * Matrix_getScale (MathUtil_flattenTransforms ms));
    SetFillStyle (ColorUtil_androidToCssColor (fillColor p) (fillAlpha p));
    SetLineCap (strokeLinecap p);
    SetLineJoin (strokeLinejoin p);
    SetMiterLimit (strokeMiterLimit p) ].

Definition pathLayerCalls (commands : list Command) (p : PathProps)
    (ms : list Matrix) : list CtxCall :=
  Save :: executeCalls commands ms
    ++ paintCalls p ms ++ trimCalls p ++ strokeCalls p ++ fillCalls p
    ++ [Restore].

Definition isDash (c : CtxCall) : bool :=
  match c with
  | SetLineDash _ | SetLineDashOffset _ => true
  | _ => false
  end.

Definition isStroke (c : CtxCall) : bool :=
  match c with
  | Stroke => true
  | _ => false
  end.

Definition isDrawImage (c : CtxCall) : bool :=
  match c with
  | DrawImage _ _ _ => true
  | _ => false
  end.

(** The calls among the events of a trace that satisfy [sel]. *)
Definition selectCalls (sel : CtxCall -> bool) (t : Trace) : Trace :=
  filter (fun e => match e with Call _ c => sel c end) t.

(** Modelled from the spec: [Layer.walk] of [../scripts/layers] is the
    shared traversal of the layer tree that calls the callback on every
    layer; it is taken to visit a layer before its children, in order. *)
Fixpoint walk (f : Layer -> Draw unit) (layer : Layer) {struct layer}
  : Draw unit :=
  f layer ;;
  match layer with
  | VectorLayer _ cs _ _ _ | GroupLayer _ cs _ => forEach (walk f) cs
  | PathLayer _ _ | ClipPathLayer _ _ => ret tt
  end.

Definition drawPaths (ctx : CtxId)
    (extractDrawingCommandsFn : string -> PathProps -> list Command)
    (vectorLayer : option VectorLayerRoot) : Draw unit :=
  vl <- liftO (deref vectorLayer) ;;
  walk (drawLayer ctx extractDrawingCommandsFn (rootLayer vl)) (rootLayer vl).

(** ** The component *)

Definition SPLIT_POINT_RADIUS_FACTOR : Q := 0.8.
Definition DISABLED_ALPHA : Q := 0.38.
Definition CANVAS_MARGIN : Q := 36.
Definition DEFAULT_VIEWPORT_SIZE : Q := 24.
Definition MEDIUM_POINT_RADIUS : Q := 8.
Definition SELECTED_POINT_RADIUS_FACTOR : Q := 1.25.
Definition POINT_BORDER_FACTOR : Q := 1.075.
Definition HIGHLIGHT_LINE_WIDTH : Q := 6.
Definition DRAG_TRIGGER_TOUCH_SLOP : Q := 6.
Definition MIN_SNAP_THRESHOLD : Q := 12.
Definition SMALL_POINT_RADIUS : Q := MEDIUM_POINT_RADIUS / 1.7.
Definition DASH_SIZE : Q := 20.

Definition NORMAL_POINT_COLOR : string := "#2962FF".
Definition SPLIT_POINT_COLOR : string := "#E65100".
Definition HIGHLIGHT_COLOR : string := "#448AFF".
Definition POINT_BORDER_COLOR : string := "#000".
Definition POINT_TEXT_COLOR : string := "#fff".

(** A string or [undefined] used as a condition. *)
Definition truthy (s : option string) : bool :=
  match s with
  | Some i => negb (String.eqb i EmptyString)
  | None => false
  end.

(** [a === b] for a string and a string or [undefined]. *)
Definition idEquals (i : string) (s : option string) : bool :=
  match s with
  | Some j => String.eqb i j
  | None => false
  end.

(** *** Getters *)

Definition vectorLayer (c : Canvas) : option VectorLayerRoot :=
  getVectorLayer c.

Definition activePathId (c : Canvas) : option string := getActivePathId c.

Definition activePathLayer (c : Canvas) : option PathProps :=
  if truthy (activePathId c) then getActivePathLayer c else None.

Definition activePath (c : Canvas) : Outcome (option Path) :=
  if truthy (activePathId c) then
    layer <-? deref (getActivePathLayer c) ;; Ok (Some (pathData layer))
  else Ok None.

Definition shouldDrawLayers (c : Canvas) : bool :=
  match vectorLayer c with
  | Some _ => truthy (activePathId c)
  | None => false
  end.

Definition appMode (c : Canvas) : AppMode := getAppMode c.

Definition CanvasType_eqb (a b : CanvasType) : bool :=
  match a, b with
  | Start, Start | Preview, Preview | End_, End_ => true
  | _, _ => false
  end.

Definition AppMode_eqb (a b : AppMode) : bool :=
  match a, b with
  | SelectPoints, SelectPoints | AddPoints, AddPoints
  | SplitSubPaths, SplitSubPaths => true
  | _, _ => false
  end.

Definition shouldDisableLayer (c : Canvas) : bool :=
  CanvasType_eqb (canvasType c) Preview
  && match getMorphabilityStatus c with
     | Morphable => false
     | _ => true
     end.

Definition shouldProcessMouseEvents (c : Canvas) : bool :=
  negb (CanvasType_eqb (canvasType c) Preview) && truthy (activePathId c).

(** [getTransformsForLayer(this.vectorLayer, this.activePathId)] with the
    values the getters may return: the read of [current.id] throws when
    there is no vector layer, and no layer has the id [undefined]. *)
Definition transformsForActiveLayer (c : Canvas)
  : Outcome (option (list Matrix)) :=
  vl <-? deref (vectorLayer c) ;;
  Ok match activePathId c with
     | Some i => getTransformsForLayer (rootLayer vl) i
     | None => None
     end.

Definition mediumPointRadius (c : Canvas) : Q :=
  MEDIUM_POINT_RADIUS / cssScale c.

Definition smallPointRadius (c : Canvas) : Q :=
  SMALL_POINT_RADIUS / cssScale c.

Definition highlightLineWidth (c : Canvas) : Q :=
  HIGHLIGHT_LINE_WIDTH / cssScale c.

Definition lineDashLength (c : Canvas) : Q := DASH_SIZE / cssScale c.

Definition minSnapThreshold (c : Canvas) : Q :=
  MIN_SNAP_THRESHOLD / cssScale c.

Definition dragTriggerTouchSlop (c : Canvas) : Q :=
  DRAG_TRIGGER_TOUCH_SLOP / cssScale c.

Definition currentHover (c : Canvas) : option Hover := getHover c.

Definition shouldLabelPoints (c : Canvas) : bool :=
  negb (CanvasType_eqb (canvasType c) Preview) || shouldLabelPointsSetting c.

(** *** Projection and hit testing *)

Definition calculateProjectionOntoPath (c : Canvas) (mousePoint : Point)
    (restrictTo : option nat) : Outcome (option ProjectionOntoPath) :=
  found <-? transformsForActiveLayer c ;;
  ms <-? deref found ;;
  let transforms := rev ms in
  let transformedMousePoint :=
    MathUtil_transformPoint mousePoint
      [Matrix_invert (MathUtil_flattenTransforms transforms)] in
  layer <-? deref (activePathLayer c) ;;
  match Path_project (pathData layer) transformedMousePoint restrictTo with
  | None => Ok None
  | Some projInfo =>
      Ok (Some (mkProjectionOntoPath (pop_subIdx projInfo)
                  (pop_cmdIdx projInfo) (pop_projection projInfo)))
  end.

(** The options [performHitTest] hands to [Path.hitTest], for the active
    path layer [layer]. *)
Definition pathHitTestOpts (c : Canvas) (layer : PathProps)
    (opts : HitTestOpts) : PathHitTestOpts :=
  {| isPointInRangeFn :=
       if negb (noPoints opts) then
         Some (fun distance cmd =>
                 let multiplyFactor :=
                   if isSplit cmd then SPLIT_POINT_RADIUS_FACTOR else 1 in
                 Qle_bool distance (mediumPointRadius c * multiplyFactor))
       else None;
     isSegmentInRangeFn :=
       if negb (noSegments opts) then
         Some (fun distance _ => Qle_bool distance (strokeWidth layer / 2))
       else None;
     findShapesInRange := isFilled layer && negb (noShapes opts);
     hit_restrictToSubIdx := opt_restrictToSubIdx opts |}.

Definition performHitTest (c : Canvas) (mousePoint : Point)
    (opts : HitTestOpts) : Outcome HitResult :=
  found <-? transformsForActiveLayer c ;;
  ms <-? deref found ;;
  let transformMatrix := Matrix_invert (Matrix_flatten (rev ms)) in
  let transformedMousePoint :=
    MathUtil_transformPoint mousePoint [transformMatrix] in
  layer <-? deref (activePathLayer c) ;;
  path <-? activePath c ;;
  path <-? deref path ;;
  Ok (Path_hitTest path transformedMousePoint (pathHitTestOpts c layer opts)).

(** [pathPointToDrawingCoords]: from the coordinates of the active path
    to those of the viewport. *)
Definition pathPointToDrawingCoords (c : Canvas) (mousePoint : Point)
  : Outcome Point :=
  found <-? transformsForActiveLayer c ;;
  ms <-? deref found ;;
  Ok (MathUtil_transformPoint mousePoint [Matrix_flatten (rev ms)]).

(** *** Drawing *)

Definition setupCtxWithViewportCoords (c : Canvas) (ctx : CtxId)
  : Draw unit :=
  emitAll ctx
    [ Scale (attrScale c) (attrScale c);
      ClearRect 0 0 (width (vlSize c)) (height (vlSize c)) ].

Definition drawTranslucentOffscreenCtx (c : Canvas) (ctx offscreenCtx : CtxId)
    (a : Q) : Draw unit :=
  emitAll ctx
    [ Save;
      SetGlobalAlpha a;
      Scale (1 / attrScale c) (1 / attrScale c);
      DrawImage offscreenCtx 0 0;
      Restore ].

(** [_.flatMap(xs, (x, i) => f(x, i))]. *)
Definition flatMapIndexed {A B} (f : A -> nat -> list B) (xs : list A)
  : list B :=
  flat_map (fun ix => f (snd ix) (fst ix))
    (combine (seq 0 (List.length xs)) xs).

(** [this.disabledSubPathIndices.indexOf(subIdx) >= 0]. *)
Definition isDisabledSubPath (c : Canvas) (i : nat) : bool :=
  existsb (Nat.eqb i) (disabledSubPathIndices c).

(** The two callbacks [draw] passes to [drawPaths]. *)
Definition disabledCommands (c : Canvas) (i : string) (p : PathProps)
  : list Command :=
  if negb (idEquals i (activePathId c)) then []
  else flatMapIndexed
         (fun subPath k =>
            if isDisabledSubPath c k then subPathCommands subPath else [])
         (getSubPaths (pathData p)).

Definition enabledCommands (c : Canvas) (i : string) (p : PathProps)
  : list Command :=
  if negb (idEquals i (activePathId c)) then []
  else flatMapIndexed
         (fun subPath k =>
            if isDisabledSubPath c k then [] else subPathCommands subPath)
         (getSubPaths (pathData p)).

Definition when (b : bool) (m : Draw unit) : Draw unit :=
  if b then m else ret tt.

Definition currentAlpha (c : Canvas) : Q :=
  let layerAlpha :=
    match vectorLayer c with
    | Some vl => alpha vl
    | None => 1
    end in
  (if shouldDisableLayer c then DISABLED_ALPHA else 1) * layerAlpha.

(** The block of [draw] guarded by [shouldDrawLayers], which draws the
    path layers to [layerCtx]. *)
Definition drawLayers (c : Canvas) (layerCtx : CtxId) : Draw unit :=
  let hasDisabledSubPaths :=
    negb (Nat.eqb (List.length (disabledSubPathIndices c)) 0) in
  let subPathCtx :=
    if hasDisabledSubPaths then OffscreenSubPathCtx else layerCtx in
  when hasDisabledSubPaths
    (emit subPathCtx Save ;;
     setupCtxWithViewportCoords c subPathCtx) ;;
  drawPaths subPathCtx (disabledCommands c) (vectorLayer c) ;;
  when hasDisabledSubPaths
    (drawTranslucentOffscreenCtx c layerCtx subPathCtx DISABLED_ALPHA ;;
     emit subPathCtx Restore) ;;
  drawPaths layerCtx (enabledCommands c) (vectorLayer c).

(** *** The overlay *)

(** [new Set<number>()] filled by [add], then [Array.from]: the distinct
    elements in the order of their first insertion. *)
Definition setAdd (s : list nat) (n : nat) : list nat :=
  if existsb (Nat.eqb n) s then s else s ++ [n].

Definition HoverType_eqb (a b : HoverType) : bool :=
  match a, b with
  | HoverSplit, HoverSplit | HoverUnsplit, HoverUnsplit
  | HoverReverse, HoverReverse | HoverShiftForward, HoverShiftForward
  | HoverShiftBack, HoverShiftBack | HoverPoint, HoverPoint => true
  | _, _ => false
  end.

(** [a === n] for an index that may be [undefined] and a number. *)
Definition indexEquals (a : option nat) (n : nat) : bool :=
  match a with
  | Some m => Nat.eqb m n
  | None => false
  end.

(** [xs.map(f)] for a callback that may throw. *)
Definition mapO {A B} (f : A -> Outcome B) : list A -> Outcome (list B) :=
  fix go (xs : list A) : Outcome (list B) :=
    match xs with
    | [] => Ok []
    | x :: xs' => y <-? f x ;; ys <-? go xs' ;; Ok (y :: ys)
    end.

(** [xs.map((x, i) => f(x, i))]. *)
Definition mapIndexed {A B} (f : A -> nat -> B) (xs : list A) : list B :=
  map (fun ix => f (snd ix) (fst ix)) (combine (seq 0 (List.length xs)) xs).

(** [(n).toString()] for a natural number. *)
Definition Number_toString (n : nat) : string :=
  NilZero.string_of_uint (Nat.to_uint n).

Definition projectionPoint (projection : Projection) : Point :=
  mkPoint (proj_x projection) (proj_y projection).

(** [executeCommands(ctx, [cmd], transforms)] for a command read from the
    path by its indices, which may be [undefined]: the read of
    [commands[0].getSvgChar()] then throws, after [beginPath()]. *)
Definition executeCommand (ctx : CtxId) (cmd : option Command)
    (transforms : option (list Matrix)) : Draw unit :=
  match cmd with
  | Some cmd => executeCommands ctx [cmd] transforms
  | None =>
      emit ctx Save ;;
      ms <- liftO (deref transforms) ;;
      emitAll ctx (map Transform ms) ;;
      emit ctx BeginPath ;;
      liftO (Throw TypeError)
  end.

(** The stroke of a highlight, after the path has been built. *)
Definition highlightStroke (ctx : CtxId) (color : string) (lineWidth : Q)
    (dash : list CtxCall) : Draw unit :=
  emitAll ctx
    ([Save; SetLineCap "round"; SetStrokeStyle color; SetLineWidth lineWidth]
       ++ dash ++ [Stroke; Restore]).

(** [drawLabeledPoint]; [point] may be [undefined], and the read of
    [point.x] then throws. *)
Definition drawLabeledPoint (ctx : CtxId) (point : option Point)
    (radius : Q) (color : string) (text : option string) : Draw unit :=
  emit ctx Save ;;
  emit ctx BeginPath ;;
  point <- liftO (deref point) ;;
  emitAll ctx
    [ Arc (px point) (py point) (radius * POINT_BORDER_FACTOR);
      SetFillStyle POINT_BORDER_COLOR;
      Fill None;
      BeginPath;
      Arc (px point) (py point) radius;
      SetFillStyle color;
      Fill None ] ;;
  match text with
  | Some text =>
      when (negb (String.eqb text EmptyString))
        (let width := Context_measureTextWidth radius text in
         let height := Context_measureTextWidth radius "o" in
         emitAll ctx
           [ BeginPath;
             SetFillStyle POINT_TEXT_COLOR;
             SetFont radius;
             MeasureText text;
             MeasureText "o";
             FillText text (px point - width / 2) (py point + height / 2);
             Fill None ])
  | None => ret tt
  end ;;
  emit ctx Restore.

Definition drawSplitSubPathHighlights (c : Canvas) (ctx : CtxId)
  : Draw unit :=
  if CanvasType_eqb (canvasType c) Preview || negb (truthy (activePathId c))
  then ret tt
  else
    path <- liftO (activePath c) ;;
    path <- liftO (deref path) ;;
    let subPaths :=
      filter (fun subPath => negb (isCollapsing subPath)) (getSubPaths path) in
    transforms <- liftO (transformsForActiveLayer c) ;;
    forEach
      (fun subPath =>
         forEach
           (fun cmd =>
              if negb (isSubPathSplitSegment cmd) then ret tt
              else
                executeCommands ctx [cmd] transforms ;;
                highlightStroke ctx SPLIT_POINT_COLOR
                  (highlightLineWidth c / 3) [])
           (subPathCommands subPath))
      subPaths.

(** Draw any highlighted subpaths. *)
Definition drawHighlights (c : Canvas) (ctx : CtxId) : Draw unit :=
  if CanvasType_eqb (canvasType c) Preview
     || negb (AppMode_eqb (appMode c) SelectPoints)
     || negb (truthy (activePathId c))
  then ret tt
  else
    let selectedSubIdxs :=
      fold_left (fun s sel => setAdd s (subIdx sel)) (getSelections c)
        match currentHover c with
        | Some hover => [hoverSubIdx hover]
        | None => []
        end in
    subPaths <-
      liftO (mapO (fun subIdx =>
                     path <-? activePath c ;;
                     path <-? deref path ;;
                     Ok (nth_error (getSubPaths path) subIdx))
               selectedSubIdxs) ;;
    subPaths <- liftO (mapO deref subPaths) ;;
    let subPaths :=
      filter (fun subPath => negb (isCollapsing subPath)) subPaths in
    transforms <- liftO (transformsForActiveLayer c) ;;
    forEach
      (fun subPath =>
         let cmds := subPathCommands subPath in
         let highlightColor :=
           if existsb isSubPathSplitSegment cmds then SPLIT_POINT_COLOR
           else HIGHLIGHT_COLOR in
         executeCommands ctx cmds transforms ;;
         highlightStroke ctx highlightColor (highlightLineWidth c / 2) [])
      subPaths.

(** A point to label: a command with the index of its subpath among the
    subpaths that are not collapsing, and its index in the subpath. *)
Record PointInfo : Type := mkPointInfo {
  pi_cmd : Command;
  pi_subIdx : nat;
  pi_cmdIdx : nat
}.

(** [xs.push(..._.remove(xs, pred))]: the elements that satisfy [pred]
    are moved to the end. *)
Definition moveToEnd {A} (pred : A -> bool) (xs : list A) : list A :=
  filter (fun x => negb (pred x)) xs ++ filter pred xs.

(** The tests of [drawLabeledPoints] on a point, for the selections and
    the hover of the services. *)
Definition isSubPathSelected (c : Canvas) (pointInfo : PointInfo) : bool :=
  let selectedSubPathIndices :=
    flat_map (fun sel =>
                match selectionType sel with
                | SubPathSelection => [subIdx sel]
                | _ => []
                end) (getSelections c) in
  existsb (Nat.eqb (pi_subIdx pointInfo)) selectedSubPathIndices.

Definition isPointInfoSelectedFn (c : Canvas) (pointInfo : PointInfo)
  : bool :=
  isSubPathSelected c pointInfo
  || existsb (fun sel => Nat.eqb (subIdx sel) (pi_subIdx pointInfo))
       (getSelections c).

Definition isSelectedCommand (c : Canvas) (pointInfo : PointInfo) : bool :=
  isSubPathSelected c pointInfo
  || existsb (fun sel =>
                Nat.eqb (subIdx sel) (pi_subIdx pointInfo)
                && indexEquals (cmdIdx sel) (pi_cmdIdx pointInfo))
       (getSelections c).

Definition isPointInfoHoveringFn (c : Canvas) (pointInfo : PointInfo)
  : bool :=
  match currentHover c with
  | Some hover => Nat.eqb (pi_subIdx pointInfo) (hoverSubIdx hover)
  | None => false
  end.

Definition isHoveredCommand (c : Canvas) (pointInfo : PointInfo) : bool :=
  match currentHover c with
  | Some hover =>
      HoverType_eqb (hoverType hover) HoverPoint
      && Nat.eqb (pi_subIdx pointInfo) (hoverSubIdx hover)
      && indexEquals (hoverCmdIdx hover) (pi_cmdIdx pointInfo)
  | None => false
  end.

(** The points [drawLabeledPoints] draws, in the order it draws them:
    those of the selection after the others, and those of the hover
    last. *)
Definition pathDataPointInfos (c : Canvas) (path : Path) : list PointInfo :=
  let infos :=
    rev (List.concat
           (mapIndexed
              (fun subPath subIdx =>
                 mapIndexed (fun cmd cmdIdx => mkPointInfo cmd subIdx cmdIdx)
                   (subPathCommands subPath))
              (filter (fun subPath => negb (isCollapsing subPath))
                 (getSubPaths path)))) in
  let removedSelectedCommands := filter (isSelectedCommand c) infos in
  let infos := filter (fun x => negb (isSelectedCommand c x)) infos in
  let infos := moveToEnd (isPointInfoSelectedFn c) infos in
  let infos := infos ++ removedSelectedCommands in
  let removedHoverCommands := filter (isHoveredCommand c) infos in
  let infos := filter (fun x => negb (isHoveredCommand c x)) infos in
  let infos := moveToEnd (isPointInfoHoveringFn c) infos in
  infos ++ removedHoverCommands.

(** The radius and the text [drawLabeledPoints] gives to a point. *)
Definition labeledPointRadius (c : Canvas) (pointInfo : PointInfo) : Q :=
  let radius :=
    if isPointInfoHoveringFn c pointInfo || isPointInfoSelectedFn c pointInfo
    then
      let radius := mediumPointRadius c * SELECTED_POINT_RADIUS_FACTOR in
      if isPointInfoHoveringFn c pointInfo
         && match currentHover c with
            | Some hover =>
                indexEquals (hoverCmdIdx hover) (pi_cmdIdx pointInfo)
            | None => false
            end
         || SelectionService_isCommandSelected (getSelections c)
              (pi_subIdx pointInfo) (pi_cmdIdx pointInfo)
      then radius * (1 / SPLIT_POINT_RADIUS_FACTOR)
      else radius
    else smallPointRadius c in
  if isSplit (pi_cmd pointInfo) then radius * SPLIT_POINT_RADIUS_FACTOR
  else radius.

Definition labeledPointText (c : Canvas) (pointInfo : PointInfo)
  : option string :=
  if isPointInfoHoveringFn c pointInfo || isPointInfoSelectedFn c pointInfo
  then Some (Number_toString (pi_cmdIdx pointInfo + 1))
  else None.

(** Draw any labeled points. *)
Definition drawLabeledPoints (c : Canvas) (ctx : CtxId) : Draw unit :=
  if CanvasType_eqb (canvasType c) Preview && negb (shouldLabelPoints c)
     || negb (truthy (activePathId c))
  then ret tt
  else
    path <- liftO (activePath c) ;;
    let path :=
      match currentHoverPreviewPath c with
      | Some preview => Some preview
      | None => path
      end in
    path <- liftO (deref path) ;;
    let infos := pathDataPointInfos c path in
    let draggedCommandIndex :=
      match pathSelector c with
      | Some selector =>
          if ps_isDragTriggered selector then
            ps_getDraggableSplitIndex selector
          else None
      | None => None
      end in
    transforms <- liftO (transformsForActiveLayer c) ;;
    ms <- liftO (deref transforms) ;;
    let transforms := rev ms in
    forEach
      (fun pointInfo =>
         if match draggedCommandIndex with
            | Some (subIdx, cmdIdx) =>
                Nat.eqb (pi_subIdx pointInfo) subIdx
                && Nat.eqb (pi_cmdIdx pointInfo) cmdIdx
            | None => false
            end
         then ret tt
         else
           let cmd := pi_cmd pointInfo in
           let point := MathUtil_transformPoint (getEnd cmd) transforms in
           let color :=
             if isSplit cmd then SPLIT_POINT_COLOR else NORMAL_POINT_COLOR in
           drawLabeledPoint ctx (Some point) (labeledPointRadius c pointInfo)
             color (labeledPointText c pointInfo))
      infos.

(** Draw any actively dragged points along the path (selection mode
    only). *)
Definition drawDraggingPoints (c : Canvas) (ctx : CtxId) : Draw unit :=
  match pathSelector c with
  | Some selector =>
      if negb (AppMode_eqb (appMode c) SelectPoints)
         || negb (ps_isDragTriggered selector)
      then ret tt
      else
        onPath <- liftO (deref (ps_getProjectionOntoPath selector)) ;;
        point <-
          liftO match cp_projection onPath with
                | Some projection =>
                    if Qlt_bool (proj_d projection) (minSnapThreshold c) then
                      point <-?
                        pathPointToDrawingCoords c
                          (projectionPoint projection) ;;
                      Ok (Some point)
                    else Ok (ps_getLastKnownMouseLocation selector)
                | None => Ok (ps_getLastKnownMouseLocation selector)
                end ;;
        drawLabeledPoint ctx point
          (mediumPointRadius c * SPLIT_POINT_RADIUS_FACTOR)
          SPLIT_POINT_COLOR None
  | None => ret tt
  end.

Definition drawHighlightedAddPointSegment (c : Canvas) (ctx : CtxId)
  : Draw unit :=
  match segmentSplitter c with
  | Some splitter =>
      if negb (AppMode_eqb (appMode c) AddPoints) then ret tt
      else
        match ss_getLastKnownMouseLocation splitter,
              ss_getProjectionOntoPath splitter with
        | Some _, Some projectionOntoPath =>
            transforms <- liftO (transformsForActiveLayer c) ;;
            projection <- liftO (deref (cp_projection projectionOntoPath)) ;;
            path <- liftO (activePath c) ;;
            path <- liftO (deref path) ;;
            if Qlt_bool (proj_d projection) (minSnapThreshold c) then
              executeCommand ctx
                (getCommand path (cp_subIdx projectionOntoPath)
                   (cp_cmdIdx projectionOntoPath))
                transforms ;;
              highlightStroke ctx SPLIT_POINT_COLOR
                (highlightLineWidth c / 2) [SetLineDash []]
            else
              executeCommands ctx (getCommands path) transforms ;;
              highlightStroke ctx SPLIT_POINT_COLOR
                (highlightLineWidth c / 1.3)
                [ SetLineDash
                    [lineDashLength c / 1.5; lineDashLength c / 1.5] ]
        | _, _ => ret tt
        end
  | None => ret tt
  end.

(** The point on the path a controller snaps to, if its projection is
    nearer than the snap threshold: the part
    [if (projectionOntoPath) { ... point = ... }] that three methods
    share. *)
Definition snapPoint (c : Canvas)
    (projectionOntoPath : option ControllerProjection)
  : Outcome (option Point) :=
  match projectionOntoPath with
  | Some onPath =>
      match cp_projection onPath with
      | Some projection =>
          if Qlt_bool (proj_d projection) (minSnapThreshold c) then
            point <-?
              pathPointToDrawingCoords c (projectionPoint projection) ;;
            Ok (Some point)
          else Ok None
      | None => Ok None
      end
  | None => Ok None
  end.

Definition drawAddPointPreview (c : Canvas) (ctx : CtxId) : Draw unit :=
  match segmentSplitter c with
  | Some splitter =>
      if negb (AppMode_eqb (appMode c) AddPoints) then ret tt
      else
        point <- liftO (snapPoint c (ss_getProjectionOntoPath splitter)) ;;
        match point with
        | Some point =>
            drawLabeledPoint ctx (Some point)
              (mediumPointRadius c * SPLIT_POINT_RADIUS_FACTOR)
              SPLIT_POINT_COLOR None
        | None => ret tt
        end
  | None => ret tt
  end.

(** The two ends of the line a shape splitter has started: the first
    projection, and the final one or else the mouse location, which may
    be [undefined]. *)
Definition splitShapeEnds (c : Canvas) (splitter : ShapeSplitter)
    (proj1 : ControllerProjection) : Outcome (Point * option Point) :=
  let proj2 := sh_getFinalProjectionOntoPath splitter in
  projection1 <-? deref (cp_projection proj1) ;;
  startPoint <-? pathPointToDrawingCoords c (projectionPoint projection1) ;;
  match proj2 with
  | Some proj2 =>
      projection2 <-? deref (cp_projection proj2) ;;
      endPoint <-?
        pathPointToDrawingCoords c (projectionPoint projection2) ;;
      Ok (startPoint, Some endPoint)
  | None => Ok (startPoint, sh_getLastKnownMouseLocation splitter)
  end.

Definition drawHighlightedSplitShapeSegment (c : Canvas) (ctx : CtxId)
  : Draw unit :=
  match shapeSplitter c with
  | Some splitter =>
      if negb (AppMode_eqb (appMode c) SplitSubPaths) then ret tt
      else
        match sh_getInitialProjectionOntoPath splitter with
        | Some proj1 =>
            ends <- liftO (splitShapeEnds c splitter proj1) ;;
            let (startPoint, endPoint) := ends in
            path <- liftO (activePath c) ;;
            path <- liftO (deref path) ;;
            subPath <- liftO (deref (getSubPath path (cp_subIdx proj1))) ;;
            let subPathCmds := subPathCommands subPath in
            transforms <- liftO (transformsForActiveLayer c) ;;
            executeCommands ctx subPathCmds transforms ;;
            emit ctx Save ;;
            ms <- liftO (deref transforms) ;;
            emitAll ctx (map Transform ms) ;;
            emit ctx BeginPath ;;
            emit ctx (MoveToCall (px startPoint) (py startPoint)) ;;
            endPoint <- liftO (deref endPoint) ;;
            emitAll ctx
              [ LineToCall (px endPoint) (py endPoint);
                SetLineCap "round";
                SetStrokeStyle SPLIT_POINT_COLOR;
                SetLineWidth (highlightLineWidth c / 2);
                Stroke;
                Restore ]
        | None =>
            let projectionOntoPath :=
              sh_getCurrentProjectionOntoPath splitter in
            point <- liftO (snapPoint c projectionOntoPath) ;;
            match point, projectionOntoPath with
            | Some _, Some onPath =>
                path <- liftO (activePath c) ;;
                path <- liftO (deref path) ;;
                let command :=
                  getCommand path (cp_subIdx onPath) (cp_cmdIdx onPath) in
                transforms <- liftO (transformsForActiveLayer c) ;;
                executeCommand ctx command transforms ;;
                highlightStroke ctx SPLIT_POINT_COLOR
                  (highlightLineWidth c / 2) []
            | _, _ => ret tt
            end
        end
  | None => ret tt
  end.

Definition drawSplitShapePreview (c : Canvas) (ctx : CtxId) : Draw unit :=
  match shapeSplitter c with
  | Some splitter =>
      if negb (AppMode_eqb (appMode c) SplitSubPaths) then ret tt
      else
        let radius := mediumPointRadius c * SPLIT_POINT_RADIUS_FACTOR in
        match sh_getInitialProjectionOntoPath splitter with
        | Some proj1 =>
            ends <- liftO (splitShapeEnds c splitter proj1) ;;
            let (startPoint, endPoint) := ends in
            drawLabeledPoint ctx (Some startPoint) radius
              SPLIT_POINT_COLOR None ;;
            when (sh_willFinalProjectionOntoPathCreateSplitPoint splitter)
              (drawLabeledPoint ctx endPoint radius SPLIT_POINT_COLOR
                 None)
        | None =>
            point <-
              liftO (snapPoint c
                       (sh_getCurrentProjectionOntoPath splitter)) ;;
            match point with
            | Some point =>
                drawLabeledPoint ctx (Some point) radius
                  SPLIT_POINT_COLOR None
            | None => ret tt
            end
        end
  | None => ret tt
  end.

(** The values of [x] in [for (let x = 1; x < bound; x++)]. *)
Definition gridLines (bound : Q) : list Q :=
  map (fun x => inject_Z (Z.of_nat x))
    (seq 1 (Z.to_nat (Qceiling bound - 1))).

(** The pixel grid, which is not drawn in viewport coordinates. *)
Definition drawPixelGrid (c : Canvas) (ctx : CtxId) : Draw unit :=
  let devicePixelRatio :=
    if Qeq_bool (devicePixelRatio c) 0 then 1 else devicePixelRatio c in
  emit ctx Save ;;
  emit ctx (SetFillStyle "rgba(128, 128, 128, .25)") ;;
  forEach
    (fun x =>
       emit ctx
         (FillRect (x * attrScale c - 0.5 * devicePixelRatio) 0
            devicePixelRatio (height (vlSize c) * attrScale c)))
    (gridLines (width (vlSize c))) ;;
  forEach
    (fun y =>
       emit ctx
         (FillRect 0 (y * attrScale c - 0.5 * devicePixelRatio)
            (width (vlSize c) * attrScale c) devicePixelRatio))
    (gridLines (height (vlSize c))) ;;
  emit ctx Restore.

(** Draw labeled points, highlights, selections, the pixel grid, etc. *)
Definition drawOverlays (c : Canvas) : Draw unit :=
  if negb (isViewInit c) then ret tt
  else
    emit OverlayCtx Save ;;
    setupCtxWithViewportCoords c OverlayCtx ;;
    when (shouldDrawLayers c)
      (drawSplitSubPathHighlights c OverlayCtx ;;
       drawHighlights c OverlayCtx ;;
       drawHighlightedAddPointSegment c OverlayCtx ;;
       drawHighlightedSplitShapeSegment c OverlayCtx ;;
       drawLabeledPoints c OverlayCtx ;;
       drawDraggingPoints c OverlayCtx ;;
       drawAddPointPreview c OverlayCtx ;;
       drawSplitShapePreview c OverlayCtx) ;;
    emit OverlayCtx Restore ;;
    when (Qgt_bool (cssScale c) 4) (drawPixelGrid c OverlayCtx).

Definition draw (c : Canvas) : Draw unit :=
  if negb (isViewInit c) then ret tt
  else
    emit RenderingCtx Save ;;
    setupCtxWithViewportCoords c RenderingCtx ;;
    let translucent := Qlt_bool (currentAlpha c) 1 in
    when translucent
      (emit OffscreenLayerCtx Save ;;
       setupCtxWithViewportCoords c OffscreenLayerCtx) ;;
    let layerCtx :=
      if translucent then OffscreenLayerCtx else RenderingCtx in
    when (shouldDrawLayers c) (drawLayers c layerCtx) ;;
    when translucent
      (drawTranslucentOffscreenCtx c RenderingCtx OffscreenLayerCtx
         (currentAlpha c) ;;
       emit OffscreenLayerCtx Restore) ;;
    emit RenderingCtx Restore ;;
    drawOverlays c.

(** The events of the two helpers of [draw]. *)
Definition setupEvents (c : Canvas) (ctx : CtxId) : Trace :=
  [ Call ctx (Scale (attrScale c) (attrScale c));
    Call ctx (ClearRect 0 0 (width (vlSize c)) (height (vlSize c))) ].

Definition compositeEvents (c : Canvas) (ctx offscreenCtx : CtxId) (a : Q)
  : Trace :=
  [ Call ctx Save;
    Call ctx (SetGlobalAlpha a);
    Call ctx (Scale (1 / attrScale c) (1 / attrScale c));
    Call ctx (DrawImage offscreenCtx 0 0);
    Call ctx Restore ].

(** An event that neither is a call on the offscreen layer context nor
    composites that context onto another. *)
Definition avoidsOffscreenLayer (e : Event) : Prop :=
  match e with
  | Call ctx call =>
      ctx <> OffscreenLayerCtx
      /\ forall x y, call <> DrawImage OffscreenLayerCtx x y
  end.

(** An event that is a call on the context [ctx] and no [drawImage]. *)
Definition drawsOnly (ctx : CtxId) (e : Event) : Prop :=
  exists call, e = Call ctx call /\ isDrawImage call = false.

(** *** Handlers

    A handler changes the fields of the component and of the services, and
    draws; what it assigned before an exception stays assigned.  It is
    given as the state it leaves together with its calls and outcome.  The
    notifications the selection and hover services send back when they are
    set, which call [drawOverlays()], are left out, as are the rulers. *)

Definition Handler (A : Type) : Type := Canvas -> Canvas * Draw A.

Definition showPenCursor (c : Canvas) : Canvas :=
  set_cursor "url(/assets/penaddcursorsmall.png) 5 0, auto" c.

Definition resetCursor (c : Canvas) : Canvas := set_cursor EmptyString c.

Definition selectionService_reset (c : Canvas) : Canvas :=
  set_getSelections [] c.

Definition hoverService_reset (c : Canvas) : Canvas := set_getHover None c.

(** Whether the active path layer exists and is stroked, or filled: the
    conditions [this.activePathLayer && this.activePathLayer.isStroked()]
    and [... isFilled()]. *)
Definition activeLayerStroked (c : Canvas) : bool :=
  match activePathLayer c with
  | Some layer => isStroked layer
  | None => false
  end.

Definition activeLayerFilled (c : Canvas) : bool :=
  match activePathLayer c with
  | Some layer => isFilled layer
  | None => false
  end.

(** The callback subscribed to [appModeService.asObservable()], which runs
    with the new mode already returned by [getAppMode]. *)
Definition onAppModeChange : Handler unit := fun c =>
  let c1 :=
    if AppMode_eqb (appMode c) AddPoints
       || (AppMode_eqb (appMode c) SplitSubPaths && activeLayerStroked c)
    then
      let c' := showPenCursor c in
      let subIdxs :=
        fold_left (fun s sel => setAdd s (subIdx sel)) (getSelections c') [] in
      let restrictTo := hd_error subIdxs in
      set_segmentSplitter (Some (newSegmentSplitter restrictTo)) c'
    else set_segmentSplitter None c in
  let c2 :=
    if AppMode_eqb (appMode c1) SelectPoints then
      set_pathSelector (Some newPathSelector) (resetCursor c1)
    else set_pathSelector None c1 in
  let c3 :=
    if AppMode_eqb (appMode c2) SplitSubPaths && activeLayerFilled c2 then
      set_shapeSplitter (Some newShapeSplitter) (showPenCursor c2)
    else set_shapeSplitter None c2 in
  let c4 :=
    if negb (AppMode_eqb (appMode c3) AddPoints) then
      selectionService_reset c3
    else c3 in
  let c5 := hoverService_reset c4 in
  (c5, draw c5).

(** Modelled from the spec: the app-mode service of [../services] pushes a
    new mode to its subscribers, which on a canvas that is no preview is
    the callback above; on the preview canvas nothing is subscribed. *)
Definition appModeService_setAppMode (mode : AppMode) : Handler unit :=
  fun c =>
    let c' := set_getAppMode mode c in
    if CanvasType_eqb (canvasType c') Preview then (c', ret tt)
    else onAppModeChange c'.

Definition resizeAndDraw : Handler unit := fun c =>
  if negb (isViewInit c) then (c, ret tt)
  else
    let vlWidth := width (vlSize c) in
    let vlHeight := height (vlSize c) in
    let vectorAspectRatio := jsDiv vlWidth vlHeight in
    let containerAspectRatio :=
      jsDiv (cssContainerWidth c) (cssContainerHeight c) in
    let c1 :=
      if Qgt_bool vectorAspectRatio containerAspectRatio then
        set_cssScale (jsDiv (cssContainerWidth c) vlWidth) c
      else set_cssScale (jsDiv (cssContainerHeight c) vlHeight) c in
    let c2 := set_attrScale (jsMul (cssScale c1) (devicePixelRatio c1)) c1 in
    let cssWidth := jsMul vlWidth (cssScale c2) in
    let cssHeight := jsMul vlHeight (cssScale c2) in
    let c3 :=
      set_canvasCssSize (mkSize cssWidth cssHeight)
        (set_canvasAttrSize
           (mkSize (jsMul cssWidth (devicePixelRatio c2))
                   (jsMul cssHeight (devicePixelRatio c2))) c2) in
    (c3, draw c3).

(** [Math.max(1, x)]. *)
Definition max1 (x : Q) : Q := if Qle_bool x 1 then 1 else x.

(** The callback subscribed to the canvas resize service. *)
Definition onCanvasResize (size : Size) : Handler unit := fun c =>
  let oldWidth := cssContainerWidth c in
  let oldHeight := cssContainerHeight c in
  let c1 :=
    set_cssContainerHeight
      (max1 (jsSub (height size) (jsMul CANVAS_MARGIN 2)))
      (set_cssContainerWidth
         (max1 (jsSub (width size) (jsMul CANVAS_MARGIN 2))) c) in
  if Qneq_bool (cssContainerWidth c1) oldWidth
     || Qneq_bool (cssContainerHeight c1) oldHeight
  then resizeAndDraw c1
  else (c1, ret tt).

(** The callback subscribed to the vector layer of the state service. *)
Definition onVectorLayerChange (vl : option VectorLayerRoot) : Handler unit :=
  fun c =>
    let newWidth :=
      match vl with Some v => vlWidth v | None => DEFAULT_VIEWPORT_SIZE end in
    let newHeight :=
      match vl with Some v => vlHeight v | None => DEFAULT_VIEWPORT_SIZE end in
    let didSizeChange :=
      Qneq_bool (width (vlSize c)) newWidth
      || Qneq_bool (height (vlSize c)) newHeight in
    let c1 := set_vlSize (mkSize newWidth newHeight) c in
    if didSizeChange then resizeAndDraw c1 else (c1, draw c1).

Definition mouseEventToPoint (c : Canvas) (event : MouseEvent) : Point :=
  mkPoint (jsDiv (jsSub (pageX event) (left (canvasOffset c))) (cssScale c))
          (jsDiv (jsSub (pageY event) (top (canvasOffset c))) (cssScale c)).

(** The list [[].concat(segmentHits, shapeHits, endPointHits)] of the
    double-click handler. *)
Definition concatenatedHits (r : HitResult) : list Hit :=
  segmentHits r ++ shapeHits r ++ endPointHits r.

Definition onDoubleClick (event : MouseEvent) : Handler unit := fun c =>
  if negb (shouldProcessMouseEvents c) then (c, ret tt)
  else
    let mouseEvent := mouseEventToPoint c event in
    if AppMode_eqb (appMode c) SelectPoints then
      match
        (layer <-? deref (activePathLayer c) ;;
         let noSegments := negb (isStroked layer) in
         hitResult <-?
           performHitTest c mouseEvent
             (mkHitTestOpts false noSegments false None) ;;
         if isHit hitResult then
           hit <-? deref (last_ (concatenatedHits hitResult)) ;;
           Ok (Some (hit_subIdx hit))
         else Ok None)
      with
      | Throw e => (c, liftO (Throw e))
      | Ok None => (c, ret tt)
      | Ok (Some subIdx) =>
          let c1 :=
            set_getSelections
              [mkSelection subIdx None (canvasType c) SubPathSelection] c in
          let (c2, redraw) := appModeService_setAppMode AddPoints c1 in
          (c2, redraw ;; drawOverlays c2)
      end
    else (c, ret tt).

(** The number of controllers the component holds. *)
Definition instantiatedControllers (c : Canvas) : nat :=
  match pathSelector c with Some _ => 1 | None => 0 end
  + match segmentSplitter c with Some _ => 1 | None => 0 end
  + match shapeSplitter c with Some _ => 1 | None => 0 end.
End Canvas.

(** ** The rest of the component *)

Section CanvasInteraction.
Context {scripts : Scripts}.

Notation "x <-? o ;; k" := (bindO o (fun x => k))
  (at level 61, o at next level, right associativity).

Definition CtxId_eqb (a b : CtxId) : bool :=
  match a, b with
  | RenderingCtx, RenderingCtx | OverlayCtx, OverlayCtx
  | OffscreenLayerCtx, OffscreenLayerCtx
  | OffscreenSubPathCtx, OffscreenSubPathCtx => true
  | _, _ => false
  end.

(** *** Mouse events

    The four handlers hand the event to the controller of the mode; the
    controllers are other classes, so the model stops at the call: which
    method of which controller is called, with which arguments.  The
    rulers, shown or hidden first, are left out. *)

Inductive Controller : Type :=
| ThePathSelector | TheSegmentSplitter | TheShapeSplitter.

Inductive MouseMethod : Type :=
| OnMouseDown | OnMouseMove | OnMouseUp | OnMouseLeave.

Record ControllerCall : Type := mkControllerCall {
  receiver : Controller;
  method : MouseMethod;
  mousePoint : Point;
  (* the second argument of [pathSelector.onMouseDown] *)
  isShiftOrMetaPressed : option bool
}.

(** The part the four handlers share: nothing on a canvas that does not
    process mouse events, else the controller of the mode, which is
    dereferenced. *)
Definition handMouseEvent (call : MouseMethod) (extra : option bool)
    (event : MouseEvent) (c : Canvas) : Outcome (option ControllerCall) :=
  if negb (shouldProcessMouseEvents c) then Ok None
  else
    let point := mouseEventToPoint c event in
    match appMode c with
    | SelectPoints =>
        _ <-? deref (pathSelector c) ;;
        Ok (Some (mkControllerCall ThePathSelector call point extra))
    | AddPoints =>
        _ <-? deref (segmentSplitter c) ;;
        Ok (Some (mkControllerCall TheSegmentSplitter call point None))
    | SplitSubPaths =>
        layer <-? deref (activePathLayer c) ;;
        if isStroked layer then
          _ <-? deref (segmentSplitter c) ;;
          Ok (Some (mkControllerCall TheSegmentSplitter call point None))
        else
          _ <-? deref (shapeSplitter c) ;;
          Ok (Some (mkControllerCall TheShapeSplitter call point None))
    end.

Definition onMouseDown (event : MouseEvent)
  : Canvas -> Outcome (option ControllerCall) :=
  handMouseEvent OnMouseDown (Some (shiftKey event || metaKey event)) event.

Definition onMouseMove
  : MouseEvent -> Canvas -> Outcome (option ControllerCall) :=
  handMouseEvent OnMouseMove None.

Definition onMouseUp
  : MouseEvent -> Canvas -> Outcome (option ControllerCall) :=
  handMouseEvent OnMouseUp None.

Definition onMouseLeave
  : MouseEvent -> Canvas -> Outcome (option ControllerCall) :=
  handMouseEvent OnMouseLeave None.

(** *** The hover preview

    The edits of a path are those of its mutator, of [../scripts/paths]:
    each function stands for the edit followed by [build()]. *)

Section HoverPreview.
Variable splitCommandInHalf : Path -> nat -> option nat -> Path.
Variable unsplitCommand : Path -> nat -> option nat -> Path.
Variable reverseSubPath : Path -> nat -> Path.
Variable shiftSubPathForward : Path -> nat -> Path.
Variable shiftSubPathBack : Path -> nat -> Path.

(** [updateCurrentHoverFn(hover)], as the value it assigns to
    [currentHoverPreviewPath]; the overlays it then draws are left out. *)
Definition updateCurrentHoverFn (c : Canvas) (hover : option Hover)
  : Outcome (option Path) :=
  match hover with
  | Some h =>
      if shouldDrawLayers c then
        path <-? activePath c ;;
        path <-? deref path ;;
        Ok match hoverType h with
           | HoverSplit =>
               Some (splitCommandInHalf path (hoverSubIdx h) (hoverCmdIdx h))
           | HoverUnsplit =>
               Some (unsplitCommand path (hoverSubIdx h) (hoverCmdIdx h))
           | HoverReverse => Some (reverseSubPath path (hoverSubIdx h))
           | HoverShiftForward =>
               Some (shiftSubPathForward path (hoverSubIdx h))
           | HoverShiftBack => Some (shiftSubPathBack path (hoverSubIdx h))
           | HoverPoint => None
           end
      else Ok None
  | None => Ok None
  end.

(** The callback subscribed to the hover service. *)
Definition onHover (c : Canvas) (hover : option Hover)
  : Outcome (option Path) :=
  match hover with
  | None => updateCurrentHoverFn c None
  | Some h =>
      if negb (CanvasType_eqb (hoverSource h) (canvasType c))
         && negb (HoverType_eqb (hoverType h) HoverPoint)
      then updateCurrentHoverFn c None
      else updateCurrentHoverFn c (Some h)
  end.

End HoverPreview.

(** *** Notions the properties are stated with *)

(** The depth of the stack of saved states of the context [ctx] after the
    events [t], from the depth [d]; [None] when a [restore()] finds the
    stack at the depth the events started from. *)
Fixpoint nesting (ctx : CtxId) (d : nat) (t : Trace) : option nat :=
  match t with
  | [] => Some d
  | Call ctx' Save :: t' =>
      nesting ctx (if CtxId_eqb ctx ctx' then S d else d) t'
  | Call ctx' Restore :: t' =>
      if CtxId_eqb ctx ctx' then
        match d with
        | O => None
        | S d' => nesting ctx d' t'
        end
      else nesting ctx d t'
  | _ :: t' => nesting ctx d t'
  end.

(** A drawing method all of whose calls are on the context [ctx] and
    none of which is a [drawImage]. *)
Definition onlyOn (ctx : CtxId) {A} (m : Draw A) : Prop :=
  Forall (drawsOnly ctx) (calls m).

(** A drawing method that, started [n] saved states of [ctx] above the
    depth [d], never restores a state below [d], and has restored the [n]
    states when it returns; when it throws it may leave more. *)
Definition pops (ctx : CtxId) (n : nat) {A} (m : Draw A) : Prop :=
  forall d,
    exists d',
      nesting ctx (n + d) (calls m) = Some d'
      /\ (d <= d')%nat
      /\ (forall a, outcome m = Ok a -> d' = d).

(** The events of the block of [draw] guarded by [shouldDrawLayers]. *)
Definition layerPassEvents (c : Canvas) (layerCtx : CtxId) : Trace :=
  if shouldDrawLayers c then
    match disabledSubPathIndices c with
    | [] =>
        calls (drawPaths layerCtx (disabledCommands c) (vectorLayer c))
          ++ calls (drawPaths layerCtx (enabledCommands c) (vectorLayer c))
    | _ :: _ =>
        Call OffscreenSubPathCtx Save
          :: setupEvents c OffscreenSubPathCtx
          ++ calls (drawPaths OffscreenSubPathCtx (disabledCommands c)
                      (vectorLayer c))
          ++ compositeEvents c layerCtx OffscreenSubPathCtx DISABLED_ALPHA
          ++ Call OffscreenSubPathCtx Restore
          :: calls (drawPaths layerCtx (enabledCommands c) (vectorLayer c))
    end
  else [].

(** The calls that build a path or set the transform it is built in. *)
Definition isPathBuilding (call : CtxCall) : bool :=
  match call with
  | Save | Restore | Transform _ | BeginPath | MoveToCall _ _
  | LineToCall _ _ | QuadraticCurveToCall _ _ _ _
  | BezierCurveToCall _ _ _ _ _ _ | ClosePathCall => true
  | _ => false
  end.

Definition isSaveOrRestore (call : CtxCall) : bool :=
  match call with
  | Save | Restore => true
  | _ => false
  end.

Definition isFill (call : CtxCall) : bool :=
  match call with
  | Fill _ => true
  | _ => false
  end.

End CanvasInteraction.

Definition isGroupLayer (l : Layer) : bool :=
  match l with
  | GroupLayer _ _ _ => true
  | _ => false
  end.

(** The sizes of a canvas that has been resized: a container of at least
    one css pixel each way, the [cssScale] that [resizeAndDraw] chooses
    for the container and the viewport the canvas holds, and the
    [attrScale] that goes with it. *)
Definition fitted (c : Canvas) : Prop :=
  1 <= cssContainerWidth c /\ 1 <= cssContainerHeight c
  /\ cssScale c
     == (if Qgt_bool (jsDiv (width (vlSize c)) (height (vlSize c)))
                     (jsDiv (cssContainerWidth c) (cssContainerHeight c))
         then jsDiv (cssContainerWidth c) (width (vlSize c))
         else jsDiv (cssContainerHeight c) (height (vlSize c)))
  /\ attrScale c == jsMul (cssScale c) (devicePixelRatio c).

(** ** Sample data

    An implementation of [Scripts] that keeps matrices symbolic, and the
    layers and canvases the examples below are evaluated on. *)

Module Sample.

#[warnings="-register-all"]
Inductive MatrixExpr : Type :=
| Translation (x y : Q)
| Rotation (degrees : Q)
| Scaling (x y : Q)
| Product (ms : list MatrixExpr)
| Inverse (m : MatrixExpr).

Definition anyCommand : Command :=
  mkCommand (LineTo (mkPoint 0 0) (mkPoint 1 0)) false false.

(** A hit test that finds the point 1 away from one end point, one
    segment and one shape, each on a subpath of its own. *)
Definition hitTest (_ : Path) (_ : Point) (opts : PathHitTestOpts)
  : HitResult :=
  let inRange (fn : option (Q -> Command -> bool)) :=
    match fn with
    | Some f => f 1 anyCommand
    | None => false
    end in
  let points :=
    if inRange (isPointInRangeFn opts) then [mkHit 0 (Some 0%nat)] else [] in
  let segments :=
    if inRange (isSegmentInRangeFn opts) then [mkHit 2 (Some 1%nat)] else [] in
  let shapes := if findShapesInRange opts then [mkHit 1 None] else [] in
  mkHitResult
    (negb (Nat.eqb (List.length (points ++ segments ++ shapes)) 0))
    points segments shapes.

Definition scripts : Scripts :=
  {| Matrix := MatrixExpr;
     Matrix_fromTranslation := Translation;
     Matrix_fromRotation := Rotation;
     Matrix_fromScaling := Scaling;
     Matrix_flatten := Product;
     Matrix_invert := Inverse;
     Matrix_getScale := fun _ => 1;
     MathUtil_flattenTransforms := Product;
     MathUtil_transformPoint := fun p _ => p;
     ColorUtil_androidToCssColor := fun color _ => color;
     Path_project := fun _ _ _ => None;
     Path_hitTest := hitTest;
     SelectionService_isCommandSelected :=
       fun sels i k =>
         existsb (fun sel =>
                    Nat.eqb (subIdx sel) i
                    && match cmdIdx sel with
                       | Some j => Nat.eqb j k
                       | None => false
                       end) sels;
     Context_measureTextWidth :=
       fun size text => size * inject_Z (Z.of_nat (String.length text)) / 2
  |}.

Definition square : Path :=
  mkPath
    [ mkSubPath
        [ mkCommand (MoveTo None (mkPoint 0 0)) false false;
          mkCommand (LineTo (mkPoint 0 0) (mkPoint 10 0)) false false;
          mkCommand (LineTo (mkPoint 10 0) (mkPoint 10 10)) false false;
          mkCommand (LineTo (mkPoint 10 10) (mkPoint 0 10)) false false;
          mkCommand (ClosePath (mkPoint 0 10) (mkPoint 0 0)) false false ]
        false ]
    40.

(** A path layer with the given paint and trim. *)
Definition pathProps (stroked filled : bool) (strokeWidth : Q)
    (trimStart trimEnd trimOffset : Q) (path : Path) : PathProps :=
  mkPathProps path "#000000" 1 strokeWidth "#ff0000" 1 "butt" "miter" 4
    trimStart trimEnd trimOffset "nonZero" stroked filled.

Definition group : GroupProps := mkGroupProps 12 12 90 2 2 1 3.

Definition strokedPath : PathProps := pathProps true false 2 0 1 0 square.

(** A layer that is filled, not stroked, and has a stroke width. *)
Definition unstrokedPath : PathProps := pathProps false true 2 0 1 0 square.

(** A layer that is both stroked and filled. *)
Definition paintedPath : PathProps := pathProps true true 2 0 1 0 square.

(** A stroked path of length 100, trimmed to its middle half. *)
Definition trimmedPath : PathProps :=
  pathProps true false 2 0.25 0.75 0
    (mkPath
       [ mkSubPath
           [ mkCommand (MoveTo None (mkPoint 0 0)) false false;
             mkCommand (LineTo (mkPoint 0 0) (mkPoint 100 0)) false false ]
           false ]
       100).

(** A tree whose path layer ["path"] is [layer]. *)
Definition tree (layer : PathProps) : VectorLayerRoot :=
  mkVectorLayerRoot "vector"
    [ GroupLayer "outer"
        [ ClipPathLayer "clip" square;
          GroupLayer "inner"
            [PathLayer "path" layer; PathLayer "trimmed" trimmedPath]
            group ]
        group;
      PathLayer "background" (pathProps false true 0 0 1 0 square) ]
    24 24 1.

(** A canvas of the start state that shows [tree layer] scaled by 4, with
    the active path id [activeId] and the active path layer [layer]. *)
Definition canvasOf (activeId : string) (mode : AppMode) (layer : PathProps)
    (selections : list Selection) (disabled : list nat) : Canvas :=
  mkCanvas Start true 96 96 (mkSize 24 24) 4 4 None None None None disabled
    (mkSize 96 96) (mkSize 96 96) EmptyString 1 (mkOffset 0 0)
    (Some (tree layer)) (Some activeId) (Some layer) Morphable mode
    selections None true.

Definition canvas : AppMode -> PathProps -> list Selection -> list nat
                    -> Canvas :=
  canvasOf "path".

(** The canvas [canvas] with a container of [cw] by [ch] css pixels and a
    viewport of [w] by [h], before the resize that sets its scale. *)
Definition sized (cw ch w h : Q) : Canvas :=
  mkCanvas Start true cw ch (mkSize w h) 4 4 None None None None []
    (mkSize 96 96) (mkSize 96 96) EmptyString 1 (mkOffset 0 0)
    (Some (tree strokedPath)) (Some "path"%string) (Some strokedPath)
    Morphable SelectPoints [] None true.

(** A path of two open subpaths. *)
Definition twoLines : Path :=
  mkPath
    [ mkSubPath
        [ mkCommand (MoveTo None (mkPoint 0 0)) false false;
          mkCommand (LineTo (mkPoint 0 0) (mkPoint 10 0)) false false ]
        false;
      mkSubPath
        [ mkCommand (MoveTo None (mkPoint 0 5)) false false;
          mkCommand (LineTo (mkPoint 0 5) (mkPoint 10 5)) false false ]
        false ]
    20.

(** A canvas that shows, scaled by 4, a vector layer of alpha 0.5 with
    one stroked path layer of two subpaths, the first of which is
    disabled. *)
Definition translucent : Canvas :=
  mkCanvas Start true 96 96 (mkSize 24 24) 4 4 None None None None [0%nat]
    (mkSize 96 96) (mkSize 96 96) EmptyString 1 (mkOffset 0 0)
    (Some (mkVectorLayerRoot "vector"
             [PathLayer "path" (pathProps true false 2 0 1 0 twoLines)]
             24 24 0.5))
    (Some "path"%string) (Some (pathProps true false 2 0 1 0 twoLines))
    Morphable SelectPoints [] None true.

Definition selection : Selection := mkSelection 3 None Start SubPathSelection.

Definition click : MouseEvent := mkMouseEvent 50 50 false false.

(** The callback that draws every command of a path layer. *)
Definition allCommands (_ : string) (p : PathProps) : list Command :=
  getCommands (pathData p).

Definition closePath : Command :=
  mkCommand (ClosePath (mkPoint 0 10) (mkPoint 0 0)) false false.

End Sample.

(** ** More sample data *)

Module SampleMore.

(** The two groups of [Sample.tree] above its path layer ["path"], and
    the transforms of that layer. *)
Definition inner (layer : PathProps) : Layer :=
  GroupLayer "inner"
    [PathLayer "path" layer; PathLayer "trimmed" Sample.trimmedPath]
    Sample.group.

Definition outer (layer : PathProps) : Layer :=
  GroupLayer "outer" [ClipPathLayer "clip" Sample.square; inner layer]
    Sample.group.

Definition groupMatrices : list Sample.MatrixExpr :=
  [ Sample.Translation 12 12; Sample.Translation 1 3;
    Sample.Rotation 90; Sample.Scaling 2 2;
    Sample.Translation (- (12)) (- (12)) ].

(** A canvas in the mode [SelectPoints] with one selection. *)
Definition selecting (layer : PathProps) : Canvas :=
  Sample.canvas SelectPoints layer [Sample.selection] [].

Definition splitCommand : Command :=
  mkCommand (LineTo (mkPoint 0 0) (mkPoint 1 0)) true false.

Definition reverseHover : Hover := mkHover HoverReverse 0 None Start.

(** Edits that leave the path as it is. *)
Definition noEdit (path : Path) (_ : nat) (_ : option nat) : Path := path.
Definition noSubPathEdit (path : Path) (_ : nat) : Path := path.

(** An implementation of the matrices by the affine maps
    [x' = a x + c y + e], [y' = b x + d y + f] over the rationals, with
    the rotations by a multiple of a quarter turn; the coordinates of a
    transformed point are reduced fractions. *)
Record Affine : Type := mkAffine {
  ma : Q; mb : Q; mc : Q; md : Q; me : Q; mf : Q
}.

Definition identity : Affine := mkAffine 1 0 0 1 0 0.

Definition rotation (degrees : Q) : Affine :=
  if Qeq_bool degrees 90 then mkAffine 0 1 (- (1)) 0 0 0
  else if Qeq_bool degrees 180 then mkAffine (- (1)) 0 0 (- (1)) 0 0
  else if Qeq_bool degrees 270 then mkAffine 0 (- (1)) 1 0 0 0
  else identity.

Definition applyTo (p : Point) (m : Affine) : Point :=
  mkPoint (Qred (ma m * px p + mc m * py p + me m))
          (Qred (mb m * px p + md m * py p + mf m)).

(** [dot m n]: the map [n], then the map [m]. *)
Definition dot (m n : Affine) : Affine :=
  mkAffine (ma m * ma n + mc m * mb n) (mb m * ma n + md m * mb n)
    (ma m * mc n + mc m * md n) (mb m * mc n + md m * md n)
    (ma m * me n + mc m * mf n + me m) (mb m * me n + md m * mf n + mf m).

Definition flatten (ms : list Affine) : Affine :=
  fold_left (fun prev curr => dot curr prev) ms identity.

Definition invert (m : Affine) : Affine :=
  let det := ma m * md m - mb m * mc m in
  mkAffine (md m / det) (- mb m / det) (- mc m / det) (ma m / det)
    ((mc m * mf m - md m * me m) / det)
    ((mb m * me m - ma m * mf m) / det).

Definition affine : Scripts :=
  {| Matrix := Affine;
     Matrix_fromTranslation := fun x y => mkAffine 1 0 0 1 x y;
     Matrix_fromRotation := rotation;
     Matrix_fromScaling := fun x y => mkAffine x 0 0 y 0 0;
     Matrix_flatten := flatten;
     Matrix_invert := invert;
     Matrix_getScale := fun _ => 1;
     MathUtil_flattenTransforms := flatten;
     MathUtil_transformPoint := fun p ms => fold_left applyTo ms p;
     ColorUtil_androidToCssColor := fun color _ => color;
     Path_project := fun _ _ _ => None;
     Path_hitTest := Sample.hitTest;
     SelectionService_isCommandSelected := fun _ _ _ => false;
     Context_measureTextWidth := fun _ _ => 0 |}.

End SampleMore.

(** * Rounding to doubles *)

Unset Implicit Arguments.

Lemma Qlt_bool_true (a b : Q) : Qlt_bool a b = true <-> a < b.
Proof.
  unfold Qlt_bool. rewrite negb_true_iff.
  destruct (Qle_bool b a) eqn:E.
  - apply Qle_bool_iff in E. split; [ discriminate | ].
    intros H. exfalso. exact (Qlt_not_le _ _ H E).
  - split; [ intros _ | reflexivity ].
    apply Qnot_le_lt. intros H. apply Qle_bool_iff in H. congruence.
Qed.

Lemma two_power_Z (n : BinNums.Z) : (0 <= n)%Z -> 2 ^ n == inject_Z (2 ^ n).
Proof. intros H. rewrite Zpower_Qpower by exact H. reflexivity. Qed.

Lemma two_power_pos (n : BinNums.Z) : 0 < 2 ^ n.
Proof. apply Qpower_0_lt. reflexivity. Qed.

(** The quotient of two powers of two against a fraction. *)
Lemma binade_bounds (q : Q) :
  0 < q ->
  let e := (Z.log2 (Qnum q) - Z.log2 (Zpos (Qden q)))%Z in
  2 ^ (e - 1) < q /\ q < 2 ^ (e + 1).
Proof.
  intros Hq e. destruct q as [n d]. unfold Qlt in Hq. simpl in Hq.
  assert (Hn : (0 < n)%Z) by lia.
  subst e. cbn [Qnum Qden].
  set (a := Z.log2 n). set (b := Z.log2 (Zpos d)).
  assert (Ha : (2 ^ a <= n < 2 ^ (a + 1))%Z).
  { replace (a + 1)%Z with (Z.succ a) by lia. apply Z.log2_spec. exact Hn. }
  assert (Hb : (2 ^ b <= Zpos d < 2 ^ (b + 1))%Z).
  { replace (b + 1)%Z with (Z.succ b) by lia. apply Z.log2_spec. lia. }
  assert (Ha0 : (0 <= a)%Z) by apply Z.log2_nonneg.
  assert (Hb0 : (0 <= b)%Z) by apply Z.log2_nonneg.
  assert (Hpa : (0 < 2 ^ a)%Z) by (apply Z.pow_pos_nonneg; lia).
  assert (Hpb : (0 < 2 ^ b)%Z) by (apply Z.pow_pos_nonneg; lia).
  assert (H2 : ~ 2 == 0) by discriminate.
  split.
  - replace (a - b - 1)%Z with (a - (b + 1))%Z by lia.
    rewrite (Qpower_minus 2 a (b + 1) H2).
    rewrite (two_power_Z a Ha0), (two_power_Z (b + 1)) by lia.
    apply Qlt_shift_div_r.
    + change 0 with (inject_Z 0). rewrite <- Zlt_Qlt. lia.
    + unfold Qlt, Qmult, inject_Z. cbn [Qnum Qden]. 
      rewrite !Z.mul_1_r, Pos.mul_1_r.
      apply Z.le_lt_trans with (n * Zpos d)%Z; [ nia | nia ].
  - replace (a - b + 1)%Z with ((a + 1) - b)%Z by lia.
    rewrite (Qpower_minus 2 (a + 1) b H2).
    rewrite (two_power_Z (a + 1)), (two_power_Z b Hb0) by lia.
    apply Qlt_shift_div_l.
    + change 0 with (inject_Z 0). rewrite <- Zlt_Qlt. lia.
    + unfold Qlt, Qmult, inject_Z. cbn [Qnum Qden].
      rewrite !Z.mul_1_r.
      apply Z.le_lt_trans with (n * Zpos d)%Z; [ nia | nia ].
Qed.

Lemma binade_spec (q : Q) :
  0 < q -> 2 ^ binade q <= q /\ q < 2 ^ (binade q + 1).
Proof.
  intros Hq. destruct (binade_bounds q Hq) as (Hlo & Hhi).
  unfold binade.
  destruct (Qle_bool (2 ^ (Z.log2 (Qnum q) - Z.log2 (Z.pos (Qden q)))) q)
    eqn:E.
  - apply Qle_bool_iff in E. split; assumption.
  - split; [ apply Qlt_le_weak; exact Hlo | ].
    replace (Z.log2 (Qnum q) - Z.log2 (Z.pos (Qden q)) - 1 + 1)%Z
      with (Z.log2 (Qnum q) - Z.log2 (Z.pos (Qden q)))%Z by lia.
    apply Qnot_le_lt. intros H. apply Qle_bool_iff in H. congruence.
Qed.

Lemma binade_le (a b : Q) : 0 < a -> a <= b -> (binade a <= binade b)%Z.
Proof.
  intros Ha Hab.
  assert (Hb : 0 < b) by (eapply Qlt_le_trans; eassumption).
  destruct (binade_spec a Ha) as (Ha1 & _).
  destruct (binade_spec b Hb) as (_ & Hb2).
  assert (H : 2 ^ binade a < 2 ^ (binade b + 1)).
  { eapply Qle_lt_trans; [ exact Ha1 | ].
    eapply Qle_lt_trans; [ exact Hab | exact Hb2 ]. }
  apply Qpower_lt_compat_l_inv in H; [ lia | reflexivity ].
Qed.

Lemma roundHalfEven_cases (x : Q) :
  roundHalfEven x = Qfloor x \/ roundHalfEven x = (Qfloor x + 1)%Z.
Proof.
  unfold roundHalfEven.
  destruct (Qlt_bool _ _); [ left; reflexivity | ].
  destruct (Qlt_bool _ _); [ right; reflexivity | ].
  destruct (Z.even _); [ left | right ]; reflexivity.
Qed.

Lemma roundHalfEven_le (x y : Q) :
  x <= y -> (roundHalfEven x <= roundHalfEven y)%Z.
Proof.
  intros Hxy.
  assert (Hf : (Qfloor x <= Qfloor y)%Z) by (apply Qfloor_resp_le; exact Hxy).
  destruct (Z.eq_dec (Qfloor x) (Qfloor y)) as [E | N].
  - unfold roundHalfEven. rewrite <- E.
    generalize (Z.even (Qfloor x)). intros even.
    generalize dependent (Qfloor x). intros f _ _.
    set (g := inject_Z f).
    destruct (Qlt_bool (x - g) (1 # 2)) eqn:Hx1.
    + destruct (Qlt_bool (y - g) (1 # 2)); [ lia | ].
      destruct (Qlt_bool (1 # 2) (y - g)); [ lia | ].
      destruct even; lia.
    + assert (Hx : ~ x - g < 1 # 2).
      { intros H. apply Qlt_bool_true in H. congruence. }
      assert (Hy1 : Qlt_bool (y - g) (1 # 2) = false).
      { destruct (Qlt_bool (y - g) (1 # 2)) eqn:Hy; [ | reflexivity ].
        apply Qlt_bool_true in Hy. exfalso. apply Hx. lra. }
      rewrite Hy1.
      destruct (Qlt_bool (1 # 2) (x - g)) eqn:Hx2.
      * apply Qlt_bool_true in Hx2.
        assert (Hy2 : Qlt_bool (1 # 2) (y - g) = true)
          by (apply Qlt_bool_true; lra).
        rewrite Hy2. lia.
      * destruct (Qlt_bool (1 # 2) (y - g)).
        -- destruct even; lia.
        -- lia.
  - assert (Hlt : (Qfloor x + 1 <= Qfloor y)%Z) by lia.
    destruct (roundHalfEven_cases x) as [-> | ->],
             (roundHalfEven_cases y) as [-> | ->]; lia.
Qed.

Lemma roundHalfEven_Z (x : Q) (n : BinNums.Z) : x == inject_Z n -> roundHalfEven x = n.
Proof.
  intros H. unfold roundHalfEven.
  assert (Hf : Qfloor x = n) by (rewrite H; apply Qfloor_Z).
  rewrite Hf.
  assert (Hr : Qlt_bool (x - inject_Z n) (1 # 2) = true).
  { apply Qlt_bool_true. rewrite H. lra. }
  rewrite Hr. reflexivity.
Qed.

Lemma roundTo_le (u a b : Q) : 0 < u -> a <= b -> roundTo u a <= roundTo u b.
Proof.
  intros Hu Hab. unfold roundTo.
  apply Qmult_le_compat_r; [ | apply Qlt_le_weak; exact Hu ].
  rewrite <- Zle_Qle. apply roundHalfEven_le.
  unfold Qdiv. apply Qmult_le_compat_r; [ exact Hab | ].
  apply Qlt_le_weak, Qinv_lt_0_compat. exact Hu.
Qed.

Lemma roundTo_multiple (u : Q) (k : BinNums.Z) :
  0 < u -> roundTo u (inject_Z k * u) == inject_Z k * u.
Proof.
  intros Hu. unfold roundTo.
  rewrite (roundHalfEven_Z (inject_Z k * u / u) k); [ reflexivity | ].
  field. intros H. rewrite H in Hu. discriminate.
Qed.

Lemma ulp_pos (q : Q) : 0 < ulp q.
Proof. apply two_power_pos. Qed.

Lemma two_power_ulp (q : Q) (k : BinNums.Z) :
  (0 <= k)%Z ->
  2 ^ (ulpExp q - 52 + k) == inject_Z (2 ^ k) * ulp q.
Proof.
  intros Hk. unfold ulp.
  rewrite Qpower_plus by discriminate.
  rewrite (two_power_Z k Hk). ring.
Qed.

Lemma roundPositive_upper (q : Q) :
  0 < q -> roundPositive q <= 2 ^ (ulpExp q + 1).
Proof.
  intros Hq. unfold roundPositive.
  replace (ulpExp q + 1)%Z with (ulpExp q - 52 + 53)%Z by lia.
  rewrite (two_power_ulp q 53) by lia.
  rewrite <- (roundTo_multiple (ulp q) (2 ^ 53) (ulp_pos q)).
  apply roundTo_le; [ apply ulp_pos | ].
  rewrite <- (two_power_ulp q 53) by lia.
  replace (ulpExp q - 52 + 53)%Z with (ulpExp q + 1)%Z by lia.
  destruct (binade_spec q Hq) as (_ & H).
  apply Qlt_le_weak. eapply Qlt_le_trans; [ exact H | ].
  apply Qpower_le_compat_l; [ unfold ulpExp; lia | discriminate ].
Qed.

Lemma roundPositive_lower (q : Q) :
  0 < q -> (-1022 <= binade q)%Z -> 2 ^ binade q <= roundPositive q.
Proof.
  intros Hq He. unfold roundPositive.
  assert (E : ulpExp q = binade q) by (unfold ulpExp; lia).
  replace (binade q) with (ulpExp q - 52 + 52)%Z at 1 by lia.
  rewrite (two_power_ulp q 52) by lia.
  rewrite <- (roundTo_multiple (ulp q) (2 ^ 52) (ulp_pos q)).
  apply roundTo_le; [ apply ulp_pos | ].
  rewrite <- (two_power_ulp q 52) by lia.
  replace (ulpExp q - 52 + 52)%Z with (binade q) by lia.
  apply (binade_spec q Hq).
Qed.

Lemma roundPositive_nonneg (q : Q) : 0 < q -> 0 <= roundPositive q.
Proof.
  intros Hq. unfold roundPositive.
  assert (H : roundTo (ulp q) (inject_Z 0 * ulp q) <= roundTo (ulp q) q).
  { apply roundTo_le; [ apply ulp_pos | ].
    change (inject_Z 0) with 0. rewrite Qmult_0_l.
    apply Qlt_le_weak. exact Hq. }
  rewrite (roundTo_multiple (ulp q) 0 (ulp_pos q)) in H.
  change (inject_Z 0) with 0 in H. rewrite Qmult_0_l in H. exact H.
Qed.

Lemma roundPositive_le (a b : Q) :
  0 < a -> a <= b -> roundPositive a <= roundPositive b.
Proof.
  intros Ha Hab.
  assert (Hb : 0 < b) by (eapply Qlt_le_trans; eassumption).
  pose proof (binade_le a b Ha Hab) as He.
  destruct (Z.eq_dec (ulpExp a) (ulpExp b)) as [E | N].
  - unfold roundPositive.
    assert (Hu : ulp b = ulp a).
    { unfold ulp. rewrite E. reflexivity. }
    rewrite Hu. apply (roundTo_le (ulp a) a b (ulp_pos a) Hab).
  - assert (Hlt : (ulpExp a + 1 <= binade b)%Z /\ (-1022 <= binade b)%Z)
      by (unfold ulpExp in *; lia).
    destruct Hlt as (Hlt & Hnorm).
    eapply Qle_trans; [ apply (roundPositive_upper a Ha) | ].
    eapply Qle_trans; [ | apply (roundPositive_lower b Hb Hnorm) ].
    apply Qpower_le_compat_l; [ exact Hlt | discriminate ].
Qed.

Lemma Qnum_pos (q : Q) p : Qnum q = Zpos p -> 0 < q.
Proof. intros H. unfold Qlt. simpl. rewrite H. reflexivity. Qed.

Lemma Qnum_neg (q : Q) p : Qnum q = Zneg p -> 0 < - q.
Proof.
  intros H. unfold Qlt, Qopp. simpl. rewrite H. reflexivity.
Qed.

Lemma Qnum_zero (q : Q) : Qnum q = 0%Z -> q == 0.
Proof. intros H. unfold Qeq. simpl. rewrite H. reflexivity. Qed.

(** Rounding to the nearest double is monotone. *)
Lemma roundDouble_le (a b : Q) : a <= b -> roundDouble a <= roundDouble b.
Proof.
  intros Hab. unfold roundDouble.
  destruct (Qnum a) as [| pa | pa] eqn:Ea, (Qnum b) as [| pb | pb] eqn:Eb;
    rewrite ?Qred_correct;
    try (apply Qnum_zero in Ea); try (apply Qnum_zero in Eb);
    try (apply Qnum_pos in Ea); try (apply Qnum_pos in Eb);
    try (apply Qnum_neg in Ea); try (apply Qnum_neg in Eb).
  - apply Qle_refl.
  - apply roundPositive_nonneg. exact Eb.
  - exfalso. lra.
  - exfalso. lra.
  - apply roundPositive_le; assumption.
  - exfalso. lra.
  - pose proof (roundPositive_nonneg (- a) Ea). lra.
  - pose proof (roundPositive_nonneg (- a) Ea).
    pose proof (roundPositive_nonneg b Eb). lra.
  - assert (H : roundPositive (- b) <= roundPositive (- a))
      by (apply roundPositive_le; [ exact Eb | lra ]).
    lra.
Qed.

(** Rounding respects the equality of rationals. *)
Lemma roundDouble_comp (a b : Q) : a == b -> roundDouble a == roundDouble b.
Proof.
  intros H. apply Qle_antisym; apply roundDouble_le; rewrite H;
    apply Qle_refl.
Qed.

Lemma roundDouble_zero (q : Q) : q == 0 -> roundDouble q = 0.
Proof.
  intros H. unfold roundDouble.
  assert (E : Qnum q = 0%Z).
  { unfold Qeq in H. simpl in H. lia. }
  rewrite E. reflexivity.
Qed.

Set Implicit Arguments.

(** * Properties *)

Section Properties.
Context {scripts : Scripts}.

(** ** The transform resolver *)

Lemma firstDefined_cons {A B} (f : A -> option B) x xs :
  firstDefined f (x :: xs)
  = match f x with Some r => Some r | None => firstDefined f xs end.
Proof. reflexivity. Qed.

Lemma layerIds_children l cs :
  layerChildren l = Some cs ->
  layerIds l = layerId l :: flat_map layerIds cs.
Proof. destruct l; simpl; intros E; inversion E; subst; reflexivity. Qed.

Lemma layerIds_leaf l :
  layerChildren l = None -> layerIds l = [layerId l].
Proof. destruct l; simpl; intros E; inversion E; reflexivity. Qed.

Lemma getTransformsFn_eq target parents current :
  getTransformsFn target parents current
  = if String.eqb (layerId current) target then
      Some (flat_map groupTransforms parents)
    else match layerChildren current with
         | Some cs =>
             firstDefined (getTransformsFn target (parents ++ [current])) cs
         | None => None
         end.
Proof. destruct current; reflexivity. Qed.

(** The id a chain of ancestors leads to is an id of the tree. *)
Lemma ancestorsOf_In target l anc :
  ancestorsOf target l anc -> In target (layerIds l).
Proof.
  induction 1 as [l E | l c cs anc Hcs Hin _ IH].
  - destruct l; simpl in *; auto.
  - rewrite (layerIds_children _ Hcs). right.
    apply in_flat_map. exists c. auto.
Qed.

Lemma firstDefined_resolves target parents cs :
  Forall (resolves target) cs ->
  (In target (flat_map layerIds cs) ->
   exists c anc,
     In c cs /\ ancestorsOf target c anc
     /\ firstDefined (getTransformsFn target parents) cs
        = Some (flat_map groupTransforms (parents ++ anc)))
  /\ (~ In target (flat_map layerIds cs) ->
      firstDefined (getTransformsFn target parents) cs = None).
Proof.
  induction 1 as [| c cs Hc _ IH].
  - split; [ intros [] | reflexivity ].
  - rewrite firstDefined_cons. simpl flat_map.
    destruct (in_dec string_dec target (layerIds c)) as [Hin | Hnin].
    + destruct (proj1 (Hc parents) Hin) as (anc & Hanc & Heq).
      rewrite Heq. split.
      * intros _. exists c, anc. simpl. auto.
      * intros Hn. exfalso. apply Hn, in_or_app. auto.
    + rewrite (proj2 (Hc parents) Hnin). split.
      * intros Hin. apply in_app_or in Hin as [Hin | Hin]; [ contradiction | ].
        destruct (proj1 IH Hin) as (c' & anc & Hc' & Hanc & Heq).
        exists c', anc. simpl. auto.
      * intros Hn. apply (proj2 IH). intros Hin. apply Hn, in_or_app. auto.
Qed.

Lemma resolves_container target current cs :
  layerChildren current = Some cs ->
  Forall (resolves target) cs -> resolves target current.
Proof.
  intros Hcs IH parents.
  rewrite getTransformsFn_eq, Hcs, (layerIds_children _ Hcs).
  destruct (String.eqb_spec (layerId current) target) as [E | NE].
  - split.
    + intros _. exists []. split; [ constructor; exact E | ].
      rewrite app_nil_r. reflexivity.
    + intros H. exfalso. apply H. left. exact E.
  - destruct (firstDefined_resolves (parents ++ [current]) IH)
      as [Hfound Hnone].
    split.
    + intros [Hi | Hin]; [ contradiction | ].
      destruct (Hfound Hin) as (c & anc & Hc & Hanc & Heq).
      exists (current :: anc). split.
      * eapply ancestors_below; eauto.
      * rewrite Heq, <- app_assoc. reflexivity.
    + intros Hn. apply Hnone. intros Hin. apply Hn. right. exact Hin.
Qed.

Lemma resolves_leaf target current :
  layerChildren current = None -> resolves target current.
Proof.
  intros Hcs parents.
  rewrite getTransformsFn_eq, Hcs, (layerIds_leaf _ Hcs).
  destruct (String.eqb_spec (layerId current) target) as [E | NE].
  - split.
    + intros _. exists []. split; [ constructor; exact E | ].
      rewrite app_nil_r. reflexivity.
    + intros H. exfalso. apply H. left. exact E.
  - split; [ intros [H | []]; contradiction | reflexivity ].
Qed.

Lemma getTransformsFn_resolves target current : resolves target current.
Proof.
  induction current using Layer_tree_ind.
  1, 2: eapply resolves_container; [ reflexivity | assumption ].
  all: apply resolves_leaf; reflexivity.
Qed.

(** With distinct ids, one chain of ancestors at most leads to an id. *)
Lemma NoDup_flat_map_same {A B} (f : A -> list B) (xs : list A) x a b :
  NoDup (flat_map f xs) ->
  In a xs -> In b xs -> In x (f a) -> In x (f b) ->
  a = b /\ NoDup (f a).
Proof.
  induction xs as [| y xs IH]; simpl; [ intros _ [] | ].
  intros Hnd Ha Hb Hxa Hxb.
  assert (Hsplit : forall z, In z (f y) -> ~ In z (flat_map f xs)).
  { clear - Hnd. induction (f y) as [| w ws IHw]; simpl in *; [ intros _ [] | ].
    inversion Hnd as [| ? ? Hw Hws]; subst.
    intros z [-> | Hz].
    - intros Hin. apply Hw, in_or_app. auto.
    - apply IHw; assumption. }
  assert (Hflat : forall c, In c xs -> In x (f c) -> In x (flat_map f xs)).
  { intros c Hc Hx. apply in_flat_map. exists c. auto. }
  destruct Ha as [-> | Ha], Hb as [-> | Hb].
  - split; [ reflexivity | eapply NoDup_app_remove_r; exact Hnd ].
  - exfalso. eapply Hsplit; eauto.
  - exfalso. eapply Hsplit; eauto.
  - apply IH; auto. eapply NoDup_app_remove_l; exact Hnd.
Qed.

Lemma ancestorsOf_unique target l :
  NoDup (layerIds l) ->
  forall anc anc',
    ancestorsOf target l anc -> ancestorsOf target l anc' -> anc = anc'.
Proof.
  assert (Hstep : forall l cs,
    layerChildren l = Some cs ->
    Forall (fun c => NoDup (layerIds c) -> forall anc anc',
              ancestorsOf target c anc -> ancestorsOf target c anc' ->
              anc = anc') cs ->
    NoDup (layerIds l) -> forall anc anc',
      ancestorsOf target l anc -> ancestorsOf target l anc' -> anc = anc').
  { intros l0 cs Hcs IH Hnd anc anc' H1 H2.
    rewrite (layerIds_children _ Hcs) in Hnd.
    inversion Hnd as [| ? ? Hroot Hrest]; subst.
    assert (Hbelow : forall c a, In c cs -> ancestorsOf target c a ->
              layerId l0 <> target).
    { intros c a Hc Ha E. apply Hroot. rewrite E.
      apply in_flat_map. exists c. split; [ exact Hc | ].
      eapply ancestorsOf_In; exact Ha. }
    inversion H1 as [? E1 | ? c1 cs1 a1 Hcs1 Hc1 Ha1];
    inversion H2 as [? E2 | ? c2 cs2 a2 Hcs2 Hc2 Ha2]; subst.
    - reflexivity.
    - rewrite Hcs in Hcs2. inversion Hcs2; subst.
      exfalso. eapply Hbelow; eauto.
    - rewrite Hcs in Hcs1. inversion Hcs1; subst.
      exfalso. eapply Hbelow; eauto.
    - rewrite Hcs in Hcs1, Hcs2. inversion Hcs1; inversion Hcs2; subst.
      destruct (NoDup_flat_map_same layerIds _ target c1 c2 Hrest Hc1 Hc2
                  (ancestorsOf_In Ha1) (ancestorsOf_In Ha2)) as [-> Hnd2].
      f_equal. rewrite Forall_forall in IH. eapply IH; eauto. }
  induction l using Layer_tree_ind.
  1, 2: eapply Hstep; [ reflexivity | assumption ].
  all: intros _ anc anc' H1 H2;
    inversion H1 as [| ? ? ? ? Hcs]; inversion H2 as [| ? ? ? ? Hcs'];
    subst; try reflexivity; discriminate.
Qed.

(** C1.  For every layer tree and every id of a layer of the tree,
    [getTransformsForLayer] returns a list, and this list is the
    concatenation, over the ancestors of the layer with that id from the
    outermost to the innermost one, of the five matrices of each ancestor
    that is a group (translation by the pivot, translation, rotation,
    scaling, translation by the negated pivot, see [groupTransforms]);
    other ancestors give no matrix.  The layer found is the first one with
    the id in depth-first order; when the ids of the tree are distinct, it
    is the only one, and so is its chain of ancestors. *)
Theorem getTransformsForLayer_found (vectorLayer : Layer) (target : string) :
  In target (layerIds vectorLayer) ->
  exists ancestors,
    ancestorsOf target vectorLayer ancestors
    /\ getTransformsForLayer vectorLayer target
       = Some (flat_map groupTransforms ancestors)
    /\ (forall l, ~ (exists i cs g, l = GroupLayer i cs g) ->
        groupTransforms l = [])
    /\ (forall i cs g,
          groupTransforms (GroupLayer i cs g)
          = [ Matrix_fromTranslation (pivotX g) (pivotY g);
              Matrix_fromTranslation (translateX g) (translateY g);
              Matrix_fromRotation (rotation g);
              Matrix_fromScaling (scaleX g) (scaleY g);
              Matrix_fromTranslation (- pivotX g) (- pivotY g) ])
    /\ (NoDup (layerIds vectorLayer) ->
        forall ancestors',
          ancestorsOf target vectorLayer ancestors' ->
          ancestors' = ancestors).
Proof.
  intros Hin.
  destruct (proj1 (getTransformsFn_resolves target vectorLayer []) Hin)
    as (anc & Hanc & Heq).
  exists anc. repeat split.
  - exact Hanc.
  - exact Heq.
  - intros l Hl. destruct l; try reflexivity.
    exfalso. apply Hl. eauto.
  - intros Hnd anc' Hanc'. eapply ancestorsOf_unique; eauto.
Qed.

(** ** Unresolved lookups *)

Lemma getTransformsForLayer_absent (vectorLayer : Layer) (target : string) :
  ~ In target (layerIds vectorLayer) ->
  getTransformsForLayer vectorLayer target = None.
Proof. apply (getTransformsFn_resolves target vectorLayer []). Qed.

(** C2.  For every layer tree and every id that does not occur in it,
    [getTransformsForLayer] returns [undefined], which is not a list of
    transforms (the identity would be the empty list); and on a canvas
    whose vector layer is this tree and whose active path id is this id,
    [calculateProjectionOntoPath] and [performHitTest] throw a [TypeError]
    on the unresolved lookup: neither goes on with an identity transform.
    The same holds for an active path id that is [undefined]. *)
Theorem getTransformsForLayer_not_found (vl : VectorLayerRoot)
    (target : string) :
  ~ In target (layerIds (rootLayer vl)) ->
  getTransformsForLayer (rootLayer vl) target = None
  /\ getTransformsForLayer (rootLayer vl) target <> Some []
  /\ forall (c : Canvas) (mousePoint : Point),
       vectorLayer c = Some vl ->
       activePathId c = Some target \/ activePathId c = None ->
       transformsForActiveLayer c = Ok None
       /\ (forall restrictTo,
             calculateProjectionOntoPath c mousePoint restrictTo
             = Throw TypeError)
       /\ (forall opts, performHitTest c mousePoint opts = Throw TypeError).
Proof.
  intros Habsent.
  pose proof (getTransformsForLayer_absent _ _ Habsent) as Hnone.
  split; [ exact Hnone | ]. split; [ rewrite Hnone; discriminate | ].
  intros c mousePoint Hvl Hid.
  assert (Hlookup : transformsForActiveLayer c = Ok None).
  { unfold transformsForActiveLayer. rewrite Hvl. simpl.
    destruct Hid as [-> | ->]; [ rewrite Hnone | ]; reflexivity. }
  split; [ exact Hlookup | ]. split.
  - intros restrictTo. unfold calculateProjectionOntoPath.
    rewrite Hlookup. reflexivity.
  - intros opts. unfold performHitTest. rewrite Hlookup. reflexivity.
Qed.

(** ** The drawing monad *)

Lemma bind_Ok {A B} (t : Trace) (a : A) (k : A -> Draw B) :
  bind (t, Ok a) k = (t ++ calls (k a), outcome (k a)).
Proof. unfold bind, calls, outcome. destruct (k a). reflexivity. Qed.

Lemma bind_Throw {A B} (t : Trace) e (k : A -> Draw B) :
  bind (t, Throw e) k = (t, Throw e).
Proof. reflexivity. Qed.

Lemma Draw_eta {A} (m : Draw A) : m = (calls m, outcome m).
Proof. destruct m. reflexivity. Qed.

Lemma bind_returns {A B} (m : Draw A) (a : A) (k : A -> Draw B) :
  outcome m = Ok a ->
  bind m k = (calls m ++ calls (k a), outcome (k a)).
Proof.
  intros H. rewrite (Draw_eta m), H. apply bind_Ok.
Qed.

(** ** executeCommands *)

(** The handling of a single segment, with the tests of the source:
    [getSvgChar() !== 'M'], then the start point. *)
Lemma singleSegmentCalls_single (cmd : Command) :
  singleSegmentCalls [cmd]
  = match getSvgChar cmd, getStart cmd with
    | M, _ | _, None => []
    | _, Some start => [MoveToCall (px start) (py start)]
    end.
Proof.
  unfold singleSegmentCalls, getSvgChar, getStart.
  destruct (segment cmd); reflexivity.
Qed.

Lemma executeCommands_resolved ctx commands ms :
  executeCommands ctx commands (Some ms)
  = (map (Call ctx) (executeCalls commands ms), Ok tt).
Proof.
  unfold executeCommands, executeCalls, emit, emitAll, liftO, deref.
  repeat rewrite bind_Ok. unfold calls, outcome. simpl.
  repeat (rewrite map_app; simpl). reflexivity.
Qed.

Lemma executeCommands_unresolved ctx commands :
  executeCommands ctx commands None = ([Call ctx Save], Throw TypeError).
Proof. reflexivity. Qed.

Lemma drawLayer_path ctx extract vl i p c0 cs ms :
  extract i p = c0 :: cs ->
  getTransformsForLayer vl i = Some ms ->
  drawLayer ctx extract vl (PathLayer i p)
  = (map (Call ctx) (pathLayerCalls (c0 :: cs) p ms), Ok tt).
Proof.
  intros Hcmds Hms. unfold drawLayer. rewrite Hcmds, Hms.
  rewrite executeCommands_resolved.
  unfold pathLayerCalls, paintCalls, emit, emitAll, liftO, deref.
  repeat rewrite bind_Ok. unfold calls, outcome. simpl.
  repeat (rewrite map_app; simpl). rewrite <- ?app_assoc. reflexivity.
Qed.

Lemma last_snoc {A} (xs : list A) (x : A) : last_ (xs ++ [x]) = Some x.
Proof. unfold last_. rewrite rev_unit. reflexivity. Qed.

Lemma last_cons {A} (x : A) (xs : list A) :
  last_ (x :: xs) = match last_ xs with Some y => Some y | None => Some x end.
Proof.
  unfold last_. simpl. destruct (rev xs); reflexivity.
Qed.

Lemma commandsCalls_app prev pre post :
  commandsCalls prev (pre ++ post)
  = commandsCalls prev pre
    ++ commandsCalls
         (match previousEndPointAfter pre with
          | Some e => Some e
          | None => prev
          end) post.
Proof.
  revert prev. induction pre as [| c pre IH]; intros prev.
  - reflexivity.
  - simpl. rewrite IH, <- app_assoc. do 3 f_equal.
    unfold previousEndPointAfter. rewrite last_cons.
    destruct (last_ pre); reflexivity.
Qed.

Lemma Point_equals_iff (p : Point) (q : option Point) :
  Point_equals p q = true
  <-> exists q', q = Some q' /\ px p == px q' /\ py p == py q'.
Proof.
  unfold Point_equals. destruct q as [q |].
  - rewrite andb_true_iff, !Qeq_bool_iff. split.
    + intros [Hx Hy]. exists q. auto.
    + intros (q' & E & Hx & Hy). inversion E; subst. auto.
  - split; [ discriminate | intros (q' & E & _); discriminate ].
Qed.

(** C8.  For every list of commands [executeCommands] draws with resolved
    transforms, and every [ClosePath] command of the list, the calls of
    that command, which come after those of the commands before it and
    before those of the commands after it, are the single call
    [closePath()] exactly when a command precedes it in the list and its
    start point has the coordinates of the end point of that command;
    otherwise they are [moveTo] to its start point followed by [lineTo] to
    its end point.  This is so for a list that is one [ClosePath] command,
    which is drawn as [moveTo(start)] (the handling of single segments),
    [moveTo(start)], [lineTo(end)]. *)
Theorem executeCommands_closePath ctx (pre post : list Command) cmd start e ms :
  segment cmd = ClosePath start e ->
  exists closing,
    executeCommands ctx (pre ++ cmd :: post) (Some ms)
    = (map (Call ctx)
         (Save :: map Transform ms
            ++ BeginPath :: singleSegmentCalls (pre ++ cmd :: post)
            ++ commandsCalls None pre
            ++ closing
            ++ commandsCalls (Some e) post ++ [Restore]),
       Ok tt)
    /\ ((exists prev,
           last_ pre = Some prev
           /\ px start == px (getEnd prev) /\ py start == py (getEnd prev))
        -> closing = [ClosePathCall])
    /\ (~ (exists prev,
             last_ pre = Some prev
             /\ px start == px (getEnd prev) /\ py start == py (getEnd prev))
        -> closing = [ MoveToCall (px start) (py start);
                       LineToCall (px e) (py e) ])
    /\ (pre = [] -> post = [] ->
        executeCommands ctx [cmd] (Some ms)
        = (map (Call ctx)
             (Save :: map Transform ms
                ++ [ BeginPath;
                     MoveToCall (px start) (py start);
                     MoveToCall (px start) (py start);
                     LineToCall (px e) (py e);
                     Restore ]),
           Ok tt)).
Proof.
  intros Hseg.
  exists (commandCalls (previousEndPointAfter pre) cmd).
  assert (Hiff :
    Point_equals start (previousEndPointAfter pre) = true
    <-> exists prev,
          last_ pre = Some prev
          /\ px start == px (getEnd prev) /\ py start == py (getEnd prev)).
  { rewrite Point_equals_iff. unfold previousEndPointAfter.
    destruct (last_ pre) as [prev |]; simpl; split.
    - intros (q & E & Hx & Hy). inversion E; subst. exists prev. auto.
    - intros (prev' & E & Hx & Hy). inversion E; subst.
      exists (getEnd prev'). auto.
    - intros (q & E & _). discriminate.
    - intros (prev' & E & _). discriminate. }
  repeat split.
  - rewrite executeCommands_resolved. unfold executeCalls.
    rewrite commandsCalls_app. simpl commandsCalls.
    destruct (previousEndPointAfter pre) as [q |];
      (replace (getEnd cmd) with e
         by (unfold getEnd; rewrite Hseg; reflexivity));
      rewrite <- ?app_assoc; reflexivity.
  - intros H. apply Hiff in H. unfold commandCalls.
    rewrite Hseg, H. reflexivity.
  - intros H. unfold commandCalls. rewrite Hseg.
    destruct (Point_equals start (previousEndPointAfter pre)) eqn:E.
    + exfalso. apply H, Hiff. reflexivity.
    + reflexivity.
  - intros _ _. rewrite executeCommands_resolved.
    unfold executeCalls, singleSegmentCalls, commandsCalls, commandCalls.
    rewrite Hseg. reflexivity.
Qed.

(** ** drawPaths *)

Lemma selectCalls_app sel (t t' : Trace) :
  selectCalls sel (t ++ t') = selectCalls sel t ++ selectCalls sel t'.
Proof. apply filter_app. Qed.

Lemma selectCalls_map sel ctx (cs : list CtxCall) :
  selectCalls sel (map (Call ctx) cs) = map (Call ctx) (filter sel cs).
Proof.
  unfold selectCalls.
  induction cs as [| c cs IH]; simpl; [ reflexivity | ].
  rewrite IH. destruct (sel c); reflexivity.
Qed.

Lemma selectCalls_In sel ctx c (t : Trace) :
  sel c = true -> (In (Call ctx c) (selectCalls sel t) <-> In (Call ctx c) t).
Proof.
  intros H. unfold selectCalls. rewrite filter_In. simpl. rewrite H.
  tauto.
Qed.

Lemma filter_none {A} (f : A -> bool) (xs : list A) :
  Forall (fun x => f x = false) xs -> filter f xs = [].
Proof.
  induction 1 as [| x xs Hx _ IH]; simpl; [ | rewrite Hx ]; auto.
Qed.

(** [executeCommands] only builds a path: it sets no dash and strokes
    nothing. *)
Lemma executeCalls_path_only commands ms :
  Forall (fun c => isDash c = false /\ isStroke c = false
                    /\ isDrawImage c = false)
    (executeCalls commands ms).
Proof.
  assert (Hcmd : forall prev cmd,
    Forall (fun c => isDash c = false /\ isStroke c = false
                    /\ isDrawImage c = false)
      (commandCalls prev cmd)).
  { intros prev cmd. unfold commandCalls.
    destruct (segment cmd); try destruct (Point_equals _ _);
      repeat constructor. }
  assert (Hcmds : forall cmds prev,
    Forall (fun c => isDash c = false /\ isStroke c = false
                    /\ isDrawImage c = false)
      (commandsCalls prev cmds)).
  { induction cmds as [| cmd cmds IH]; intros prev; simpl.
    - constructor.
    - apply Forall_app. auto. }
  unfold executeCalls. constructor; [ auto | ].
  apply Forall_app. split.
  - apply Forall_forall. intros c Hc. apply in_map_iff in Hc as (m & <- & _).
    auto.
  - constructor; [ auto | ]. apply Forall_app. split.
    + unfold singleSegmentCalls.
      destruct commands as [| cmd [| ? ?]]; try constructor.
      destruct (segment cmd); repeat constructor.
    + apply Forall_app. split; [ apply Hcmds | repeat constructor ].
Qed.

Lemma executeCalls_no_dash commands ms :
  filter isDash (executeCalls commands ms) = [].
Proof.
  apply filter_none. eapply Forall_impl; [ | apply executeCalls_path_only ].
  simpl. tauto.
Qed.

Lemma executeCalls_no_stroke commands ms :
  filter isStroke (executeCalls commands ms) = [].
Proof.
  apply filter_none. eapply Forall_impl; [ | apply executeCalls_path_only ].
  simpl. tauto.
Qed.

Lemma pathLayerCalls_dash commands p ms :
  filter isDash (pathLayerCalls commands p ms) = trimCalls p.
Proof.
  unfold pathLayerCalls. cbn [filter isDash]. rewrite !filter_app.
  rewrite executeCalls_no_dash. simpl.
  assert (Hs : filter isDash (strokeCalls p) = []).
  { unfold strokeCalls. destruct (_ && _); reflexivity. }
  assert (Hf : filter isDash (fillCalls p) = []).
  { unfold fillCalls. destruct (isFilled p); [ destruct (String.eqb _ _) | ];
      reflexivity. }
  rewrite Hs, Hf. simpl. rewrite app_nil_r.
  unfold trimCalls. destruct (isTrimmed p); reflexivity.
Qed.

Lemma pathLayerCalls_stroke commands p ms :
  filter isStroke (pathLayerCalls commands p ms) = strokeCalls p.
Proof.
  unfold pathLayerCalls. cbn [filter isStroke]. rewrite !filter_app.
  rewrite executeCalls_no_stroke. simpl.
  assert (Ht : filter isStroke (trimCalls p) = []).
  { unfold trimCalls. destruct (isTrimmed p); reflexivity. }
  assert (Hf : filter isStroke (fillCalls p) = []).
  { unfold fillCalls. destruct (isFilled p); [ destruct (String.eqb _ _) | ];
      reflexivity. }
  rewrite Ht, Hf. simpl. rewrite app_nil_r.
  unfold strokeCalls. destruct (_ && _); reflexivity.
Qed.

Lemma Qneq_bool_iff (a b : Q) : Qneq_bool a b = true <-> ~ a == b.
Proof.
  unfold Qneq_bool. rewrite negb_true_iff, <- Qeq_bool_iff.
  destruct (Qeq_bool a b); split; intros H; try reflexivity;
    try discriminate; exfalso; apply H; reflexivity.
Qed.

Lemma Qgt_bool_iff (a b : Q) : Qgt_bool a b = true <-> b < a.
Proof.
  unfold Qgt_bool. rewrite negb_true_iff.
  destruct (Qle_bool a b) eqn:E.
  - apply Qle_bool_iff in E. split; [ discriminate | ].
    intros H. exfalso. apply (Qlt_not_le _ _ H). exact E.
  - split; [ intros _ | reflexivity ].
    apply Qnot_le_lt. intros H. apply Qle_bool_iff in H. congruence.
Qed.

Lemma Qlt_bool_iff (a b : Q) : Qlt_bool a b = true <-> a < b.
Proof. apply Qgt_bool_iff. Qed.

Lemma isTrimmed_iff p :
  isTrimmed p = true
  <-> ~ (trimPathStart p == 0 /\ trimPathEnd p == 1 /\ trimPathOffset p == 0).
Proof.
  unfold isTrimmed. rewrite !orb_true_iff, !Qneq_bool_iff. split.
  - intros [[H | H] | H] (H0 & H1 & H2); contradiction.
  - intros H.
    destruct (Qeq_dec (trimPathStart p) 0) as [H0 | H0]; [ | tauto ].
    destruct (Qeq_dec (trimPathEnd p) 1) as [H1 | H1]; [ | tauto ].
    right. intros H2. apply H. auto.
Qed.


(** *** The traversal *)

Lemma layersOf_children l cs :
  layerChildren l = Some cs -> layersOf l = l :: flat_map layersOf cs.
Proof. destruct l; simpl; intros E; inversion E; subst; reflexivity. Qed.

Lemma layersOf_leaf l : layerChildren l = None -> layersOf l = [l].
Proof. destruct l; simpl; intros E; inversion E; reflexivity. Qed.

Lemma walk_eq f l :
  walk f l
  = bind (f l)
      (fun _ =>
         match layerChildren l with
         | Some cs => forEach (walk f) cs
         | None => ret tt
         end).
Proof. destruct l; reflexivity. Qed.

Lemma layersOf_ids l x : In x (layersOf l) -> In (layerId x) (layerIds l).
Proof.
  induction l as [i cs w h a IH | i cs g IH | i p | i c] using Layer_tree_ind;
    simpl; intros [<- | Hx]; auto; try contradiction; right;
    apply in_flat_map in Hx as (c & Hc & Hx);
    apply in_flat_map; exists c; (split; [ exact Hc | ]);
    rewrite Forall_forall in IH; auto.
Qed.

Lemma forEach_returns {A} (f : A -> Draw unit) (xs : list A) :
  Forall (fun x => outcome (f x) = Ok tt) xs ->
  forEach f xs = (flat_map (fun x => calls (f x)) xs, Ok tt).
Proof.
  induction 1 as [| x xs Hx _ IH]; simpl; [ reflexivity | ].
  rewrite (bind_returns _ _ Hx), IH. reflexivity.
Qed.

Lemma flat_map_flat_map {A B D} (f : A -> list B) (g : B -> list D) xs :
  flat_map g (flat_map f xs) = flat_map (fun x => flat_map g (f x)) xs.
Proof.
  induction xs as [| x xs IH]; simpl; [ reflexivity | ].
  rewrite flat_map_app, IH. reflexivity.
Qed.

Lemma flat_map_ext_In {A B} (f g : A -> list B) xs :
  (forall x, In x xs -> f x = g x) -> flat_map f xs = flat_map g xs.
Proof.
  induction xs as [| x xs IH]; simpl; intros H; [ reflexivity | ].
  rewrite (H x), IH; auto.
Qed.

(** A traversal whose callback returns on every layer returns, after the
    calls of the callback on the layers in order. *)
Lemma walk_returns (f : Layer -> Draw unit) (l : Layer) :
  (forall x, In x (layersOf l) -> outcome (f x) = Ok tt) ->
  walk f l = (flat_map (fun x => calls (f x)) (layersOf l), Ok tt).
Proof.
  induction l as [i cs w h a IH | i cs g IH | i p | i c] using Layer_tree_ind;
    intros Hf; rewrite walk_eq; simpl layerChildren;
    rewrite (bind_returns _ _ (Hf _ (or_introl eq_refl))).
  3, 4: simpl; rewrite !app_nil_r; reflexivity.
  all:
    assert (Hcs : Forall (fun c => walk f c
              = (flat_map (fun x => calls (f x)) (layersOf c), Ok tt)) cs)
      by (rewrite Forall_forall in *; intros c Hc; apply IH; [ exact Hc | ];
          intros x Hx; apply Hf; simpl; right;
          apply in_flat_map; exists c; auto);
    rewrite forEach_returns
      by (eapply Forall_impl; [ | exact Hcs ];
          intros c Hc; simpl in Hc; rewrite Hc; reflexivity);
    simpl; rewrite flat_map_flat_map; do 2 f_equal;
    apply flat_map_ext_In; intros c Hc;
    rewrite Forall_forall in Hcs; rewrite (Hcs c Hc); reflexivity.
Qed.

(** The callback of [drawPaths] returns on every layer of the tree it
    walks, since the lookup of the id of such a layer is resolved. *)
Lemma drawLayer_returns ctx extract (root x : Layer) :
  In x (layersOf root) -> outcome (drawLayer ctx extract root x) = Ok tt.
Proof.
  intros Hx. apply layersOf_ids in Hx.
  destruct (proj1 (getTransformsFn_resolves (layerId x) root []) Hx)
    as (anc & _ & Hms).
  fold (getTransformsForLayer root (layerId x)) in Hms.
  destruct x as [i cs w h a | i cs g | i p | i c]; simpl in Hms;
    try reflexivity.
  - unfold drawLayer. destruct (extract i p) as [| c0 cmds] eqn:E;
      [ reflexivity | ].
    pose proof (drawLayer_path ctx extract root i p E Hms) as H.
    unfold drawLayer in H. rewrite E in H. rewrite H. reflexivity.
  - unfold drawLayer. rewrite Hms, executeCommands_resolved.
    rewrite bind_Ok. reflexivity.
Qed.

Lemma drawPaths_returns ctx extract (vl : VectorLayerRoot) :
  drawPaths ctx extract (Some vl)
  = (flat_map (fun x => calls (drawLayer ctx extract (rootLayer vl) x))
       (layersOf (rootLayer vl)),
     Ok tt).
Proof.
  unfold drawPaths, liftO, deref. rewrite bind_Ok.
  rewrite walk_returns by (intros x Hx; apply drawLayer_returns; exact Hx).
  reflexivity.
Qed.


(** C9.  For every path layer [drawPaths] comes to, [stroke()] is among
    the calls made for the layer exactly when the layer has commands to
    draw, its transforms are resolved (as they are for a layer of the
    tree), the layer is stroked, its stroke width is not zero and
    [trimPathStart] differs from [trimPathEnd]; and [drawPaths] calls
    [stroke()] exactly when the tree has such a path layer.  So a layer
    with [trimPathStart] equal to [trimPathEnd] is not stroked, stroked
    layer or not. *)
Theorem drawPaths_stroke ctx extract (vl : VectorLayerRoot) :
  (forall root i p,
     In (Call ctx Stroke) (calls (drawLayer ctx extract root (PathLayer i p)))
     <-> extract i p <> []
         /\ getTransformsForLayer root i <> None
         /\ isStroked p = true
         /\ ~ strokeWidth p == 0
         /\ ~ trimPathStart p == trimPathEnd p)
  /\ (In (Call ctx Stroke) (calls (drawPaths ctx extract (Some vl)))
      <-> exists i p,
            In (PathLayer i p) (layersOf (rootLayer vl))
            /\ extract i p <> []
            /\ isStroked p = true
            /\ ~ strokeWidth p == 0
            /\ ~ trimPathStart p == trimPathEnd p)
  /\ (forall i p,
        trimPathStart p == trimPathEnd p ->
        ~ In (Call ctx Stroke)
            (calls (drawLayer ctx extract (rootLayer vl) (PathLayer i p)))).
Proof.
  assert (Hcond : forall p,
    In Stroke (strokeCalls p)
    <-> isStroked p = true /\ ~ strokeWidth p == 0
        /\ ~ trimPathStart p == trimPathEnd p).
  { intros p. unfold strokeCalls.
    destruct (isStroked p && Qneq_bool (strokeWidth p) 0
              && Qneq_bool (trimPathStart p) (trimPathEnd p)) eqn:E.
    - rewrite !andb_true_iff, !Qneq_bool_iff in E. simpl. tauto.
    - split; [ intros [] | ]. intros (H1 & H2 & H3).
      rewrite <- Qneq_bool_iff in H2, H3. rewrite H1, H2, H3 in E.
      discriminate. }
  assert (Hlayer : forall root i p,
    In (Call ctx Stroke) (calls (drawLayer ctx extract root (PathLayer i p)))
    <-> extract i p <> []
        /\ getTransformsForLayer root i <> None
        /\ isStroked p = true
        /\ ~ strokeWidth p == 0
        /\ ~ trimPathStart p == trimPathEnd p).
  { intros root i p.
    destruct (extract i p) as [| c0 cmds] eqn:E.
    - unfold drawLayer. rewrite E. simpl. split; [ intros [] | ].
      intros (H & _). congruence.
    - destruct (getTransformsForLayer root i) as [ms |] eqn:Hms.
      + rewrite (drawLayer_path ctx extract root i p E Hms).
        cbn [calls fst].
        rewrite <- (selectCalls_In isStroke ctx Stroke _ eq_refl).
        rewrite selectCalls_map, pathLayerCalls_stroke.
        rewrite in_map_iff. split.
        * intros (x & Hx & Hin). inversion Hx; subst.
          apply Hcond in Hin. repeat split; try tauto; discriminate.
        * intros (_ & _ & H). exists Stroke. split; [ reflexivity | ].
          apply Hcond. exact H.
      + unfold drawLayer. rewrite E, Hms. simpl. split.
        * intros [H | [H | []]]; discriminate.
        * intros (_ & H & _). congruence. }
  split; [ exact Hlayer | ]. split.
  - rewrite drawPaths_returns. cbn [calls fst].
    rewrite in_flat_map. split.
    + intros (x & Hx & Hin).
      destruct x as [j cs w h a | j cs g | j p | j c].
      * destruct Hin.
      * destruct Hin.
      * apply Hlayer in Hin. exists j, p. tauto.
      * exfalso. unfold drawLayer in Hin.
        apply layersOf_ids in Hx. simpl layerId in Hx.
        destruct (proj1 (getTransformsFn_resolves j (rootLayer vl) []) Hx)
          as (anc & _ & Hms).
        fold (getTransformsForLayer (rootLayer vl) j) in Hms.
        rewrite Hms, executeCommands_resolved, bind_Ok in Hin.
        cbn [calls fst] in Hin.
        apply in_app_or in Hin as [Hin | [Hin | []]]; [ | discriminate ].
        apply in_map_iff in Hin as (x & Hx' & Hin). inversion Hx'; subst.
        pose proof (executeCalls_path_only (getCommands c)
                      (flat_map groupTransforms ([] ++ anc))) as Hall.
        rewrite Forall_forall in Hall. apply Hall in Hin.
        destruct Hin as (_ & Hin & _). discriminate.
    + intros (i & p & Hin & H). exists (PathLayer i p).
      split; [ exact Hin | ]. apply Hlayer.
      repeat split; try tauto.
      apply layersOf_ids in Hin. simpl layerId in Hin.
      destruct (proj1 (getTransformsFn_resolves i (rootLayer vl) []) Hin)
        as (anc & _ & Hms).
      fold (getTransformsForLayer (rootLayer vl) i) in Hms.
      rewrite Hms. discriminate.
  - intros i p Heq Hin. apply Hlayer in Hin. tauto.
Qed.

(** ** draw *)

Lemma pathLayerCalls_no_image commands p ms :
  Forall (fun c => isDrawImage c = false) (pathLayerCalls commands p ms).
Proof.
  unfold pathLayerCalls. constructor; [ reflexivity | ].
  rewrite !Forall_app. repeat split.
  - eapply Forall_impl; [ | apply executeCalls_path_only ]. simpl. tauto.
  - repeat constructor.
  - unfold trimCalls. destruct (isTrimmed p); repeat constructor.
  - unfold strokeCalls. destruct (_ && _); repeat constructor.
  - unfold fillCalls.
    destruct (isFilled p); [ destruct (String.eqb _ _) | ];
      repeat constructor.
  - repeat constructor.
Qed.

(** [drawPaths] only draws on the context it is given, and composites no
    image. *)
Lemma drawPaths_drawsOnly ctx extract (vl : option VectorLayerRoot) :
  Forall (drawsOnly ctx) (calls (drawPaths ctx extract vl)).
Proof.
  destruct vl as [vl |]; [ | constructor ].
  rewrite drawPaths_returns. cbn [calls fst].
  apply Forall_forall. intros e He.
  apply in_flat_map in He as (x & Hx & He).
  assert (Hmap : forall cs,
    Forall (fun c => isDrawImage c = false) cs ->
    In e (map (Call ctx) cs) -> drawsOnly ctx e).
  { intros cs Hcs Hin. apply in_map_iff in Hin as (call & <- & Hin).
    rewrite Forall_forall in Hcs. exists call. auto. }
  apply layersOf_ids in Hx.
  destruct (proj1 (getTransformsFn_resolves (layerId x) (rootLayer vl) []) Hx)
    as (anc & _ & Hms).
  fold (getTransformsForLayer (rootLayer vl) (layerId x)) in Hms.
  destruct x as [j cs w h a | j cs g | j p | j c]; simpl layerId in Hms.
  - destruct He.
  - destruct He.
  - destruct (extract j p) as [| c0 cmds] eqn:E.
    + unfold drawLayer in He. rewrite E in He. destruct He.
    + rewrite (drawLayer_path ctx extract _ j p E Hms) in He.
      eapply Hmap; [ apply pathLayerCalls_no_image | exact He ].
  - unfold drawLayer in He.
    rewrite Hms, executeCommands_resolved, bind_Ok in He.
    cbn [calls fst emit] in He.
    change [Call ctx Clip] with (map (Call ctx) [Clip]) in He.
    rewrite <- map_app in He.
    eapply Hmap; [ | exact He ].
    apply Forall_app. split; [ | repeat constructor ].
    eapply Forall_impl; [ | apply executeCalls_path_only ]. simpl. tauto.
Qed.

Lemma drawPaths_outcome ctx extract (vl : VectorLayerRoot) :
  outcome (drawPaths ctx extract (Some vl)) = Ok tt.
Proof. rewrite drawPaths_returns. reflexivity. Qed.

Lemma shouldDrawLayers_vectorLayer (c : Canvas) :
  shouldDrawLayers c = true -> exists vl, vectorLayer c = Some vl.
Proof.
  unfold shouldDrawLayers. destruct (vectorLayer c) as [vl |];
    [ eauto | discriminate ].
Qed.

Lemma onlyOn_ret ctx {A} (a : A) : onlyOn ctx (ret a).
Proof. constructor. Qed.

Lemma onlyOn_liftO ctx {A} (o : Outcome A) : onlyOn ctx (liftO o).
Proof. constructor. Qed.

Lemma onlyOn_emitAll ctx (cs : list CtxCall) :
  Forall (fun call => isDrawImage call = false) cs ->
  onlyOn ctx (emitAll ctx cs).
Proof.
  intros H. unfold onlyOn, emitAll. cbn [calls fst].
  apply Forall_forall. intros e He.
  apply in_map_iff in He as (call & <- & Hin).
  rewrite Forall_forall in H. exists call. auto.
Qed.

Lemma onlyOn_emit ctx (call : CtxCall) :
  isDrawImage call = false -> onlyOn ctx (emit ctx call).
Proof.
  intros H. apply (@onlyOn_emitAll ctx [call]). repeat constructor. exact H.
Qed.

Lemma onlyOn_bind ctx {A B} (m : Draw A) (k : A -> Draw B) :
  onlyOn ctx m -> (forall a, onlyOn ctx (k a)) -> onlyOn ctx (bind m k).
Proof.
  unfold onlyOn. destruct m as [t [a | e]]; cbn [calls fst bind];
    intros Hm Hk; [ | exact Hm ].
  specialize (Hk a). destruct (k a) as [t' r]. cbn [calls fst] in *.
  apply Forall_app. split; assumption.
Qed.

Lemma onlyOn_forEach ctx {A} (f : A -> Draw unit) (xs : list A) :
  (forall x, onlyOn ctx (f x)) -> onlyOn ctx (forEach f xs).
Proof.
  intros Hf. induction xs as [| x xs IH]; [ constructor | ].
  cbn [forEach]. apply onlyOn_bind; [ apply Hf | intros _; exact IH ].
Qed.

Lemma onlyOn_when ctx (b : bool) (m : Draw unit) :
  onlyOn ctx m -> onlyOn ctx (when b m).
Proof. intros H. destruct b; [ exact H | constructor ]. Qed.

Lemma transforms_no_image (ms : list Matrix) :
  Forall (fun call => isDrawImage call = false) (map Transform ms).
Proof.
  apply Forall_forall. intros c Hc. apply in_map_iff in Hc as (m & <- & _).
  reflexivity.
Qed.

Lemma onlyOn_executeCommands ctx commands transforms :
  onlyOn ctx (executeCommands ctx commands transforms).
Proof.
  destruct transforms as [ms |].
  - unfold onlyOn. rewrite executeCommands_resolved. cbn [calls fst].
    apply onlyOn_emitAll.
    eapply Forall_impl; [ | apply executeCalls_path_only ]. simpl. tauto.
  - unfold onlyOn. rewrite executeCommands_unresolved. cbn [calls fst].
    repeat constructor. exists Save. auto.
Qed.

(** Splits a drawing method into the methods it is made of. *)
Ltac only_on :=
  repeat first
    [ apply onlyOn_ret
    | apply onlyOn_liftO
    | apply onlyOn_executeCommands
    | apply onlyOn_emit; reflexivity
    | apply onlyOn_emitAll;
        first [ apply transforms_no_image | repeat constructor ]
    | apply onlyOn_when
    | apply onlyOn_forEach; intros ?
    | apply onlyOn_bind; [ | intros ? ]
    | match goal with
      | |- onlyOn _ (if ?b then _ else _) => destruct b
      | |- onlyOn _ (match ?x with _ => _ end) => destruct x
      | |- onlyOn _ (let (_, _) := ?x in _) => destruct x
      end ].

Lemma onlyOn_executeCommand ctx cmd transforms :
  onlyOn ctx (executeCommand ctx cmd transforms).
Proof. unfold executeCommand. only_on. Qed.

Lemma onlyOn_highlightStroke ctx color lineWidth dash :
  Forall (fun call => isDrawImage call = false) dash ->
  onlyOn ctx (highlightStroke ctx color lineWidth dash).
Proof.
  intros H. unfold highlightStroke. apply onlyOn_emitAll.
  repeat constructor. apply Forall_app. split; [ exact H | ].
  repeat constructor.
Qed.

Lemma onlyOn_drawLabeledPoint ctx point radius color text :
  onlyOn ctx (drawLabeledPoint ctx point radius color text).
Proof. unfold drawLabeledPoint. only_on. Qed.

Lemma onlyOn_drawSplitSubPathHighlights c ctx :
  onlyOn ctx (drawSplitSubPathHighlights c ctx).
Proof.
  unfold drawSplitSubPathHighlights. only_on.
Qed.

Lemma onlyOn_drawHighlights c ctx : onlyOn ctx (drawHighlights c ctx).
Proof.
  unfold drawHighlights. only_on.
Qed.

Lemma onlyOn_drawLabeledPoints c ctx : onlyOn ctx (drawLabeledPoints c ctx).
Proof.
  unfold drawLabeledPoints. only_on.
Qed.

Lemma onlyOn_drawDraggingPoints c ctx :
  onlyOn ctx (drawDraggingPoints c ctx).
Proof.
  unfold drawDraggingPoints. only_on.
Qed.

Lemma onlyOn_drawHighlightedAddPointSegment c ctx :
  onlyOn ctx (drawHighlightedAddPointSegment c ctx).
Proof.
  unfold drawHighlightedAddPointSegment.
  only_on. all: apply onlyOn_executeCommand.
Qed.

Lemma onlyOn_drawAddPointPreview c ctx :
  onlyOn ctx (drawAddPointPreview c ctx).
Proof.
  unfold drawAddPointPreview. only_on.
Qed.

Lemma onlyOn_drawHighlightedSplitShapeSegment c ctx :
  onlyOn ctx (drawHighlightedSplitShapeSegment c ctx).
Proof.
  unfold drawHighlightedSplitShapeSegment.
  only_on. all: apply onlyOn_executeCommand.
Qed.

Lemma onlyOn_drawSplitShapePreview c ctx :
  onlyOn ctx (drawSplitShapePreview c ctx).
Proof.
  unfold drawSplitShapePreview. only_on.
Qed.

Lemma onlyOn_drawPixelGrid c ctx : onlyOn ctx (drawPixelGrid c ctx).
Proof. unfold drawPixelGrid. only_on. Qed.

(** [drawOverlays] draws on the overlay context only. *)
Lemma drawOverlays_onlyOn (c : Canvas) : onlyOn OverlayCtx (drawOverlays c).
Proof.
  unfold drawOverlays, setupCtxWithViewportCoords.
  destruct (negb (isViewInit c)); [ constructor | ].
  apply onlyOn_bind; [ only_on | intros _ ].
  apply onlyOn_bind; [ only_on | intros _ ].
  apply onlyOn_bind; [ | intros _ ].
  - apply onlyOn_when.
    repeat (apply onlyOn_bind; [ | intros _ ]);
      auto using onlyOn_drawSplitSubPathHighlights, onlyOn_drawHighlights,
        onlyOn_drawHighlightedAddPointSegment,
        onlyOn_drawHighlightedSplitShapeSegment, onlyOn_drawLabeledPoints,
        onlyOn_drawDraggingPoints, onlyOn_drawAddPointPreview,
        onlyOn_drawSplitShapePreview.
  - apply onlyOn_bind; [ only_on | intros _ ].
    apply onlyOn_when, onlyOn_drawPixelGrid.
Qed.
(** The calls of [drawPaths] depend on the callback through the commands
    it extracts. *)
Lemma drawPaths_ext ctx extract extract' (vl : option VectorLayerRoot) :
  (forall i p, extract i p = extract' i p) ->
  drawPaths ctx extract vl = drawPaths ctx extract' vl.
Proof.
  intros H. destruct vl as [vl |]; [ | reflexivity ].
  rewrite !drawPaths_returns. f_equal.
  apply flat_map_ext_In. intros x _.
  destruct x; unfold drawLayer; rewrite ?H; reflexivity.
Qed.

(** A path layer of the tree for which the callback extracts commands is
    drawn: its calls are among those of [drawPaths]. *)
Lemma drawPaths_draws_layer ctx extract (vl : VectorLayerRoot) i p :
  In (PathLayer i p) (layersOf (rootLayer vl)) ->
  extract i p <> [] ->
  exists ms,
    getTransformsForLayer (rootLayer vl) i = Some ms
    /\ incl (map (Call ctx) (pathLayerCalls (extract i p) p ms))
         (calls (drawPaths ctx extract (Some vl))).
Proof.
  intros Hlayer Hcmds.
  assert (Hids := layersOf_ids _ _ Hlayer). simpl layerId in Hids.
  destruct (proj1 (getTransformsFn_resolves i (rootLayer vl) []) Hids)
    as (anc & _ & Hms).
  fold (getTransformsForLayer (rootLayer vl) i) in Hms.
  eexists. split; [ exact Hms | ].
  destruct (extract i p) as [| c0 cmds] eqn:E; [ congruence | ].
  rewrite drawPaths_returns. cbn [calls fst]. intros e He.
  apply in_flat_map. exists (PathLayer i p). split; [ exact Hlayer | ].
  rewrite (drawLayer_path ctx extract _ i p E Hms). exact He.
Qed.

(** C7.  For every draw pass of an initialised view, with the composed
    alpha [DISABLED_ALPHA] or 1, times the alpha of the vector layer, or 1
    without a vector layer: when the composed alpha is not below 1, as
    when it equals 1, the layers are drawn on the rendering context and
    nothing is drawn on the offscreen layer context nor composited from
    it; when it is below 1, they are drawn on the offscreen layer
    context, which is then composited onto the rendering context with
    exactly this alpha.  In both cases, when subpath indices are disabled,
    the commands of the disabled subpaths of the active path layer are
    first drawn on the offscreen subpath context, which is composited
    onto the context of the layers with [DISABLED_ALPHA], and the
    commands of its other subpaths are then drawn on the context of the
    layers itself; a layer for which commands are extracted gets the
    calls that build their path and paint it.  [drawPaths] draws on no
    other context than the one it is given.  The pass ends with
    [drawOverlays], which draws on the overlay context only and may
    throw. *)
Theorem draw_compositing (c : Canvas) :
  isViewInit c = true ->
  let layerAlpha :=
    match vectorLayer c with
    | Some vl => alpha vl
    | None => 1
    end in
  let composedAlpha :=
    (if shouldDisableLayer c then DISABLED_ALPHA else 1) * layerAlpha in
  let isDisabled (k : nat) := existsb (Nat.eqb k) (disabledSubPathIndices c) in
  let disabled (i : string) (p : PathProps) :=
    if idEquals i (activePathId c) then
      flatMapIndexed
        (fun subPath k => if isDisabled k then subPathCommands subPath else [])
        (getSubPaths (pathData p))
    else [] in
  let enabled (i : string) (p : PathProps) :=
    if idEquals i (activePathId c) then
      flatMapIndexed
        (fun subPath k => if isDisabled k then [] else subPathCommands subPath)
        (getSubPaths (pathData p))
    else [] in
  let paths ctx extract := calls (drawPaths ctx extract (vectorLayer c)) in
  let layers layerCtx :=
    if shouldDrawLayers c then
      match disabledSubPathIndices c with
      | [] => paths layerCtx disabled ++ paths layerCtx enabled
      | _ :: _ =>
          Call OffscreenSubPathCtx Save
            :: setupEvents c OffscreenSubPathCtx
            ++ paths OffscreenSubPathCtx disabled
            ++ compositeEvents c layerCtx OffscreenSubPathCtx DISABLED_ALPHA
            ++ Call OffscreenSubPathCtx Restore
            :: paths layerCtx enabled
      end
    else [] in
  (1 <= composedAlpha ->
   draw c
   = (Call RenderingCtx Save
        :: setupEvents c RenderingCtx
        ++ layers RenderingCtx
        ++ Call RenderingCtx Restore :: calls (drawOverlays c),
      outcome (drawOverlays c)))
  /\ (composedAlpha < 1 ->
      draw c
      = (Call RenderingCtx Save
           :: setupEvents c RenderingCtx
           ++ Call OffscreenLayerCtx Save
           :: setupEvents c OffscreenLayerCtx
           ++ layers OffscreenLayerCtx
           ++ compositeEvents c RenderingCtx OffscreenLayerCtx composedAlpha
           ++ Call OffscreenLayerCtx Restore
           :: Call RenderingCtx Restore :: calls (drawOverlays c),
         outcome (drawOverlays c)))
  /\ (1 <= composedAlpha -> Forall avoidsOffscreenLayer (calls (draw c)))
  /\ (forall ctx extract, Forall (drawsOnly ctx) (paths ctx extract))
  /\ Forall (drawsOnly OverlayCtx) (calls (drawOverlays c))
  /\ (forall ctx vl i p extract,
        vectorLayer c = Some vl ->
        In (PathLayer i p) (layersOf (rootLayer vl)) ->
        extract i p <> [] ->
        exists ms,
          getTransformsForLayer (rootLayer vl) i = Some ms
          /\ incl (map (Call ctx) (pathLayerCalls (extract i p) p ms))
               (paths ctx extract)).
Proof.
  intros Hinit. cbv zeta.
  fold (currentAlpha c).
  set (disabled := fun (i : string) (p : PathProps) =>
         if idEquals i (activePathId c) then
           flatMapIndexed
             (fun subPath k =>
                if existsb (Nat.eqb k) (disabledSubPathIndices c)
                then subPathCommands subPath else [])
             (getSubPaths (pathData p))
         else []).
  set (enabled := fun (i : string) (p : PathProps) =>
         if idEquals i (activePathId c) then
           flatMapIndexed
             (fun subPath k =>
                if existsb (Nat.eqb k) (disabledSubPathIndices c)
                then [] else subPathCommands subPath)
             (getSubPaths (pathData p))
         else []).
  assert (Hdis : forall ctx,
    drawPaths ctx (disabledCommands c) (vectorLayer c)
    = drawPaths ctx disabled (vectorLayer c)).
  { intros ctx. apply drawPaths_ext. intros i p.
    unfold disabledCommands, disabled, isDisabledSubPath.
    destruct (idEquals i (activePathId c)); reflexivity. }
  assert (Hen : forall ctx,
    drawPaths ctx (enabledCommands c) (vectorLayer c)
    = drawPaths ctx enabled (vectorLayer c)).
  { intros ctx. apply drawPaths_ext. intros i p.
    unfold enabledCommands, enabled, isDisabledSubPath.
    destruct (idEquals i (activePathId c)); reflexivity. }
  assert (Halpha : 1 <= currentAlpha c -> Qlt_bool (currentAlpha c) 1 = false).
  { intros H. destruct (Qlt_bool (currentAlpha c) 1) eqn:E; [ | reflexivity ].
    apply Qlt_bool_iff in E. exfalso. exact (Qlt_not_le _ _ E H). }
  set (layers := fun ctx =>
         if shouldDrawLayers c then
           match disabledSubPathIndices c with
           | [] =>
               calls (drawPaths ctx disabled (vectorLayer c))
                 ++ calls (drawPaths ctx enabled (vectorLayer c))
           | _ :: _ =>
               Call OffscreenSubPathCtx Save
                 :: setupEvents c OffscreenSubPathCtx
                 ++ calls (drawPaths OffscreenSubPathCtx disabled
                             (vectorLayer c))
                 ++ compositeEvents c ctx OffscreenSubPathCtx DISABLED_ALPHA
                 ++ Call OffscreenSubPathCtx Restore
                 :: calls (drawPaths ctx enabled (vectorLayer c))
           end
         else []).
  assert (Hwhen : forall ctx,
    when (shouldDrawLayers c) (drawLayers c ctx) = (layers ctx, Ok tt)).
  { intros ctx. unfold when, layers.
    destruct (shouldDrawLayers c) eqn:Hs; [ | reflexivity ].
    destruct (shouldDrawLayers_vectorLayer c Hs) as (vl & Hvl).
    unfold drawLayers, when, setupCtxWithViewportCoords,
      drawTranslucentOffscreenCtx, emit, emitAll, ret.
    rewrite !Hdis, !Hen. rewrite Hvl.
    destruct (disabledSubPathIndices c) as [| d ds];
      cbn [List.length Nat.eqb negb].
    - rewrite bind_Ok.
      rewrite (bind_returns _ _ (drawPaths_outcome _ _ vl)).
      rewrite bind_Ok.
      rewrite (Draw_eta (drawPaths ctx enabled (Some vl))).
      rewrite drawPaths_outcome. cbn [calls outcome fst snd app].
      reflexivity.
    - repeat rewrite bind_Ok. cbn [calls outcome fst snd].
      rewrite (bind_returns _ _ (drawPaths_outcome _ _ vl)).
      repeat rewrite bind_Ok.
      rewrite (Draw_eta (drawPaths ctx enabled (Some vl))).
      rewrite drawPaths_outcome. cbn [calls outcome fst snd app map].
      unfold setupEvents, compositeEvents.
      repeat (rewrite <- ?app_assoc; cbn [app]). reflexivity. }
  assert (Hshape : forall b,
    Qlt_bool (currentAlpha c) 1 = b ->
    draw c
    = (Call RenderingCtx Save
         :: setupEvents c RenderingCtx
         ++ (if b then
               Call OffscreenLayerCtx Save :: setupEvents c OffscreenLayerCtx
             else [])
         ++ layers (if b then OffscreenLayerCtx else RenderingCtx)
         ++ (if b then
               compositeEvents c RenderingCtx OffscreenLayerCtx
                 (currentAlpha c)
               ++ [Call OffscreenLayerCtx Restore]
             else [])
         ++ Call RenderingCtx Restore :: calls (drawOverlays c),
       outcome (drawOverlays c))).
  { intros b Hb. unfold draw. rewrite Hinit, Hb. cbn [negb].
    rewrite !Hwhen.
    rewrite (Draw_eta (drawOverlays c)) at 1.
    unfold when, setupCtxWithViewportCoords, drawTranslucentOffscreenCtx,
      emit, emitAll, ret, setupEvents, compositeEvents.
    destruct b; repeat rewrite bind_Ok; cbn [calls outcome fst snd map];
      repeat (rewrite <- ?app_assoc; cbn [app]); reflexivity. }
  assert (Hopaque : 1 <= currentAlpha c ->
    draw c
    = (Call RenderingCtx Save
         :: setupEvents c RenderingCtx
         ++ layers RenderingCtx
         ++ Call RenderingCtx Restore :: calls (drawOverlays c),
       outcome (drawOverlays c))).
  { intros H. rewrite (Hshape _ (Halpha H)). reflexivity. }
  assert (Hpaths : forall ctx extract,
    Forall (drawsOnly ctx) (calls (drawPaths ctx extract (vectorLayer c))))
    by (intros; apply drawPaths_drawsOnly).
  split; [ exact Hopaque | ].
  split.
  { intros H. rewrite (Hshape _ (proj2 (Qlt_bool_iff _ _) H)).
    repeat (rewrite <- ?app_assoc; cbn [app]). reflexivity. }
  split; [ | split; [ exact Hpaths | ] ].
  2: { split; [ apply drawOverlays_onlyOn | ].
       intros ctx vl i p extract Hvl Hlayer Hcmds. rewrite Hvl.
       apply drawPaths_draws_layer; assumption. }
  intros H. rewrite (Hopaque H). cbn [calls fst].
  assert (Havoid : forall ctx e,
    ctx <> OffscreenLayerCtx -> drawsOnly ctx e -> avoidsOffscreenLayer e).
  { intros ctx e Hctx (call & -> & Hcall). split; [ exact Hctx | ].
    intros x y ->. discriminate. }
  assert (Hpaths' : forall ctx extract,
    ctx <> OffscreenLayerCtx ->
    Forall avoidsOffscreenLayer
      (calls (drawPaths ctx extract (vectorLayer c)))).
  { intros ctx extract Hctx.
    eapply Forall_impl; [ | apply Hpaths ].
    intros e. apply Havoid. exact Hctx. }
  assert (Hcall : forall ctx call,
    ctx <> OffscreenLayerCtx ->
    (forall x y, call <> DrawImage OffscreenLayerCtx x y) ->
    avoidsOffscreenLayer (Call ctx call))
    by (intros; split; assumption).
  assert (Hoverlay : Forall avoidsOffscreenLayer (calls (drawOverlays c))).
  { eapply Forall_impl; [ | apply drawOverlays_onlyOn ].
    intros e. apply Havoid. discriminate. }
  unfold layers, setupEvents, compositeEvents.
  repeat first
    [ exact Hoverlay
    | apply Forall_nil
    | apply Forall_cons;
      [ apply Hcall; [ discriminate | intros; discriminate ] | ]
    | apply Forall_app; split
    | apply Hpaths'; discriminate
    | match goal with
      | |- Forall _ (if ?b then _ else _) => destruct b
      | |- Forall _ (match ?l with [] => _ | _ :: _ => _ end) => destruct l
      end ].
Qed.

(** ** Hit testing *)

(** C3, as the code has it.  [performHitTest] either throws or returns
    what [Path.hitTest] answers for the options [pathHitTestOpts]; in these
    options, for every options record given to [performHitTest]: points
    are tested unless [noPoints] is set, and a point is in range exactly
    when its distance is at most the medium point radius, times 0.8 for a
    command flagged [isSplit]; segments are tested unless [noSegments] is
    set, whether the layer is stroked or not, and a segment is in range
    exactly when its distance is at most half the stroke width of the
    active layer; shapes are tested exactly when the layer is filled and
    [noShapes] is not set.  The double-click handler is the caller that
    sets [noSegments] for a layer that is not stroked. *)
Theorem performHitTest_ranges (c : Canvas) (mousePoint : Point)
    (opts : HitTestOpts) :
  (performHitTest c mousePoint opts = Throw TypeError
   \/ exists layer path ms,
        activePathLayer c = Some layer
        /\ activePath c = Ok (Some path)
        /\ transformsForActiveLayer c = Ok (Some ms)
        /\ performHitTest c mousePoint opts
           = Ok (Path_hitTest path
                   (MathUtil_transformPoint mousePoint
                      [Matrix_invert (Matrix_flatten (rev ms))])
                   (pathHitTestOpts c layer opts)))
  /\ forall layer : PathProps,
       (if noPoints opts then
          isPointInRangeFn (pathHitTestOpts c layer opts) = None
        else
          exists inRange,
            isPointInRangeFn (pathHitTestOpts c layer opts) = Some inRange
            /\ forall distance cmd,
                 inRange distance cmd = true
                 <-> distance
                     <= mediumPointRadius c
                        * (if isSplit cmd then 0.8 else 1))
       /\ (if noSegments opts then
             isSegmentInRangeFn (pathHitTestOpts c layer opts) = None
           else
             exists inRange,
               isSegmentInRangeFn (pathHitTestOpts c layer opts)
               = Some inRange
               /\ forall distance cmd,
                    inRange distance cmd = true
                    <-> distance <= strokeWidth layer / 2)
       /\ (findShapesInRange (pathHitTestOpts c layer opts) = true
           <-> isFilled layer = true /\ noShapes opts = false)
       /\ hit_restrictToSubIdx (pathHitTestOpts c layer opts)
          = opt_restrictToSubIdx opts.
Proof.
  split.
  - unfold performHitTest.
    destruct (transformsForActiveLayer c) as [[ms |] | []]; simpl; auto.
    destruct (activePathLayer c) as [layer |] eqn:Hl; simpl; auto.
    destruct (activePath c) as [[path |] | []] eqn:Hp; simpl; auto.
    right. exists layer, path, ms. auto.
  - intros layer. unfold pathHitTestOpts. simpl.
    split; [ | split; [ | split; [ | reflexivity ] ] ].
    + destruct (noPoints opts); simpl; [ reflexivity | ].
      eexists. split; [ reflexivity | ].
      intros distance cmd. apply Qle_bool_iff.
    + destruct (noSegments opts); simpl; [ reflexivity | ].
      eexists. split; [ reflexivity | ].
      intros distance cmd. apply Qle_bool_iff.
    + rewrite andb_true_iff, negb_true_iff. reflexivity.
Qed.

(** ** Resizing *)

Lemma Qdiv_lt_cross (a b c d : Q) :
  0 < b -> 0 < d -> (a / b < c / d <-> a * d < c * b).
Proof.
  intros Hb Hd.
  assert (Hbd : 0 < b * d) by (apply Qmult_lt_0_compat; assumption).
  rewrite <- (Qmult_lt_r (a / b) (c / d) (b * d) Hbd).
  setoid_replace (a / b * (b * d)) with (a * d) by (field; lra).
  setoid_replace (c / d * (b * d)) with (c * b) by (field; lra).
  reflexivity.
Qed.

(** C10, as amended.  For every container and viewport of positive size,
    the [cssScale] that [resizeAndDraw] computes on an initialised view is
    the double nearest to [cssContainerWidth / width] when the aspect
    ratio of the viewport, as a double, is greater than the one of the
    container, and the double nearest to [cssContainerHeight / height]
    otherwise.  This is the double nearest to the smaller of the two exact
    quotients, unless the viewport is wider in aspect than the container
    by so little that both aspect ratios are the same double: then it is
    the double nearest to the greater quotient.  It is never below the
    double nearest to the smaller quotient.  The canvases are given the
    size of the viewport times [cssScale], rounded. *)
Theorem resizeAndDraw_cssScale (c : Canvas) :
  isViewInit c = true ->
  0 < width (vlSize c) -> 0 < height (vlSize c) ->
  0 < cssContainerWidth c -> 0 < cssContainerHeight c ->
  let c' := fst (resizeAndDraw c) in
  let byWidth := cssContainerWidth c / width (vlSize c) in
  let byHeight := cssContainerHeight c / height (vlSize c) in
  let vectorAspectRatio := width (vlSize c) / height (vlSize c) in
  let containerAspectRatio := cssContainerWidth c / cssContainerHeight c in
  (roundDouble containerAspectRatio < roundDouble vectorAspectRatio ->
   cssScale c' = roundDouble byWidth /\ byWidth < byHeight)
  /\ (roundDouble vectorAspectRatio <= roundDouble containerAspectRatio ->
      cssScale c' = roundDouble byHeight)
  /\ (cssScale c' == roundDouble (Qmin byWidth byHeight)
      \/ (containerAspectRatio < vectorAspectRatio
          /\ roundDouble vectorAspectRatio
             == roundDouble containerAspectRatio
          /\ byWidth < byHeight
          /\ cssScale c' = roundDouble byHeight))
  /\ roundDouble (Qmin byWidth byHeight) <= cssScale c'
  /\ attrScale c' = jsMul (cssScale c') (devicePixelRatio c)
  /\ canvasCssSize c'
     = mkSize (jsMul (width (vlSize c)) (cssScale c'))
              (jsMul (height (vlSize c)) (cssScale c')).
Proof.
  intros Hinit Hw Hh Hcw Hch.
  set (w := width (vlSize c)) in *. set (h := height (vlSize c)) in *.
  set (cw := cssContainerWidth c) in *.
  set (ch := cssContainerHeight c) in *.
  cbv zeta.
  assert (Hcross : cw / w < ch / h <-> cw / ch < w / h).
  { rewrite (Qdiv_lt_cross cw ch Hw Hh), (Qdiv_lt_cross cw w Hch Hh).
    setoid_replace (w * ch) with (ch * w) by ring. reflexivity. }
  assert (Hlow : forall x,
    x = roundDouble (cw / w) \/ x = roundDouble (ch / h) ->
    roundDouble (Qmin (cw / w) (ch / h)) <= x).
  { intros x [-> | ->]; apply roundDouble_le;
      [ apply Q.le_min_l | apply Q.le_min_r ]. }
  unfold resizeAndDraw. rewrite Hinit. cbn [negb fst].
  fold w h cw ch. unfold jsDiv.
  destruct (Qgt_bool (roundDouble (w / h)) (roundDouble (cw / ch))) eqn:E;
    cbn; fold w h cw ch.
  - apply Qgt_bool_iff in E.
    assert (Hexact : cw / ch < w / h).
    { apply Qnot_le_lt. intros H. apply roundDouble_le in H.
      exact (Qlt_not_le _ _ E H). }
    apply Hcross in Hexact.
    split; [ intros _; split; [ reflexivity | exact Hexact ] | ].
    split; [ intros H; exfalso; exact (Qlt_not_le _ _ E H) | ].
    split; [ | split; [ apply Hlow; left; reflexivity | ] ].
    + left. apply roundDouble_comp. symmetry. apply Q.min_l.
      apply Qlt_le_weak. exact Hexact.
    + split; reflexivity.
  - assert (Hle : roundDouble (w / h) <= roundDouble (cw / ch)).
    { apply Qnot_lt_le. intros H. apply Qgt_bool_iff in H. congruence. }
    split; [ intros H; exfalso; exact (Qlt_not_le _ _ H Hle) | ].
    split; [ intros _; reflexivity | ].
    split; [ | split; [ apply Hlow; right; reflexivity | ] ].
    + destruct (Qlt_le_dec (cw / ch) (w / h)) as [Hlt | Hge].
      * right. split; [ exact Hlt | ]. split.
        -- apply Qle_antisym; [ exact Hle | ].
           apply roundDouble_le, Qlt_le_weak. exact Hlt.
        -- split; [ apply Hcross; exact Hlt | reflexivity ].
      * left. apply roundDouble_comp. symmetry. apply Q.min_r.
        apply Qnot_lt_le. intros H. apply Hcross in H.
        exact (Qlt_not_le _ _ H Hge).
    + split; reflexivity.
Qed.

(** ** The double click *)

Lemma last_app {A} (xs ys : list A) :
  last_ (xs ++ ys)
  = match last_ ys with Some y => Some y | None => last_ xs end.
Proof.
  unfold last_. rewrite rev_app_distr.
  destruct (rev ys); reflexivity.
Qed.

Lemma last_nil_iff {A} (xs : list A) : last_ xs = None <-> xs = [].
Proof.
  unfold last_. split.
  - destruct (rev xs) eqn:E; [ | discriminate ]. intros _.
    rewrite <- (rev_involutive xs), E. reflexivity.
  - intros ->. reflexivity.
Qed.

(** Runs a handler on a canvas given by its fields, by cases on the
    conditions it tests. *)
Ltac handler_cases :=
  repeat (cbn;
          match goal with
          | H : truthy ?s = _ |- context [truthy ?s] => rewrite H
          | H : isStroked ?l = _ |- context [isStroked ?l] => rewrite H
          | H : isFilled ?l = _ |- context [isFilled ?l] => rewrite H
          | |- context [truthy ?s] => is_var s; destruct (truthy s) eqn:?
          | |- context [isStroked ?l] =>
              is_var l; destruct (isStroked l) eqn:?
          | |- context [isFilled ?l] =>
              is_var l; destruct (isFilled l) eqn:?
          end);
  cbn.

(** What the mode-change handler leaves in the component and in the
    services. *)
Lemma onAppModeChange_state (c : Canvas) :
  let d := fst (onAppModeChange c) in
  pathSelector d
  = (if AppMode_eqb (appMode c) SelectPoints then Some newPathSelector
     else None)
  /\ segmentSplitter d
     = (if AppMode_eqb (appMode c) AddPoints
           || (AppMode_eqb (appMode c) SplitSubPaths && activeLayerStroked c)
        then
          Some (newSegmentSplitter
                  (hd_error
                     (fold_left (fun s sel => setAdd s (subIdx sel))
                        (getSelections c) [])))
        else None)
  /\ shapeSplitter d
     = (if AppMode_eqb (appMode c) SplitSubPaths && activeLayerFilled c
        then Some newShapeSplitter else None)
  /\ getHover d = None
  /\ getSelections d
     = (if AppMode_eqb (appMode c) AddPoints then getSelections c else [])
  /\ getAppMode d = getAppMode c.
Proof.
  destruct c as [ty init cw ch vls css attr prev ps ss sh dis cssz atsz cur dpr
                   off vl aid alayer morph mode sels hov lbl].
  unfold onAppModeChange, appMode, activeLayerStroked, activeLayerFilled,
    activePathLayer, activePathId.
  destruct mode, alayer as [layer |]; handler_cases; repeat split.
Qed.

Lemma setAppMode_subscribed (mode : AppMode) (c : Canvas) :
  canvasType c <> Preview ->
  appModeService_setAppMode mode c = onAppModeChange (set_getAppMode mode c).
Proof.
  intros H. unfold appModeService_setAppMode.
  change (canvasType (set_getAppMode mode c)) with (canvasType c).
  destruct (canvasType c); try reflexivity. congruence.
Qed.

(** C5.  For every double click on a canvas that processes mouse events
    in the mode [SelectPoints], whose hit test (with segments left out for
    a layer that is not stroked) reports [isHit] with at least one hit:
    the selection is set to the one subpath whose index is that of the
    last element of the segment hits followed by the shape hits followed
    by the end point hits, which is the last end point hit if there is
    one, else the last shape hit if there is one, else the last segment
    hit.  The handler then switches to [AddPoints], which keeps this
    selection and restricts the new segment splitter to the subpath. *)
Theorem onDoubleClick_selects_last (c : Canvas) (event : MouseEvent)
    (layer : PathProps) (r : HitResult) (hit : Hit) :
  shouldProcessMouseEvents c = true ->
  appMode c = SelectPoints ->
  activePathLayer c = Some layer ->
  performHitTest c (mouseEventToPoint c event)
    (mkHitTestOpts false (negb (isStroked layer)) false None) = Ok r ->
  isHit r = true ->
  last_ (segmentHits r ++ shapeHits r ++ endPointHits r) = Some hit ->
  let c' := fst (onDoubleClick event c) in
  getSelections c'
  = [mkSelection (hit_subIdx hit) None (canvasType c) SubPathSelection]
  /\ appMode c' = AddPoints
  /\ segmentSplitter c' = Some (newSegmentSplitter (Some (hit_subIdx hit)))
  /\ (endPointHits r <> [] -> last_ (endPointHits r) = Some hit)
  /\ (endPointHits r = [] -> shapeHits r <> [] ->
      last_ (shapeHits r) = Some hit)
  /\ (endPointHits r = [] -> shapeHits r = [] ->
      last_ (segmentHits r) = Some hit).
Proof.
  intros Hproc Hmode Hlayer Hhit HisHit Hlast. cbv zeta.
  assert (Htype : canvasType c <> Preview).
  { unfold shouldProcessMouseEvents in Hproc.
    apply andb_true_iff in Hproc as [Hproc _].
    intros E. rewrite E in Hproc. discriminate. }
  assert (Hrun :
    fst (onDoubleClick event c)
    = fst (onAppModeChange
             (set_getAppMode AddPoints
                (set_getSelections
                   [mkSelection (hit_subIdx hit) None (canvasType c)
                      SubPathSelection] c)))).
  { unfold onDoubleClick. rewrite Hproc, Hmode, Hlayer. cbn [negb AppMode_eqb].
    cbn [deref bindO]. rewrite Hhit. cbn [bindO]. rewrite HisHit.
    unfold concatenatedHits. rewrite Hlast. cbn [deref bindO].
    rewrite setAppMode_subscribed by exact Htype.
    destruct (onAppModeChange _). reflexivity. }
  rewrite Hrun.
  destruct (onAppModeChange_state
              (set_getAppMode AddPoints
                 (set_getSelections
                    [mkSelection (hit_subIdx hit) None (canvasType c)
                       SubPathSelection] c)))
    as (_ & Hss & _ & _ & Hs & Hm).
  split; [ rewrite Hs; reflexivity | ].
  split; [ unfold appMode; rewrite Hm; reflexivity | ].
  split; [ rewrite Hss; reflexivity | ].
  split; [ | split ].
  - intros Hne. rewrite !last_app in Hlast.
    destruct (last_ (endPointHits r)) as [h |] eqn:E; [ exact Hlast | ].
    apply last_nil_iff in E. contradiction.
  - intros He Hne. rewrite !last_app, He in Hlast. cbn in Hlast.
    destruct (last_ (shapeHits r)) as [h |] eqn:E; [ exact Hlast | ].
    apply last_nil_iff in E. contradiction.
  - intros He Hs'. rewrite !last_app, He, Hs' in Hlast. exact Hlast.
Qed.

(** ** Mode changes *)

(** C6, as the code has it.  For every change of the app mode on a canvas
    that is no preview, unless the new mode is [SplitSubPaths] with an
    active path layer that is both stroked and filled: after the handler
    at most one controller is instantiated; the point selector is
    instantiated exactly in [SelectPoints], the segment splitter exactly
    in [AddPoints] and in [SplitSubPaths] on a stroked layer, the shape
    splitter exactly in [SplitSubPaths] on a filled layer; the three
    controllers do not depend on the controllers held before, which are
    dropped; the hover is reset; and the selection is reset unless the new
    mode is [AddPoints], where it is kept. *)
Theorem appMode_change_controllers (mode : AppMode) (c : Canvas) :
  canvasType c <> Preview ->
  ~ (mode = SplitSubPaths
     /\ activeLayerStroked c = true /\ activeLayerFilled c = true) ->
  let c' := fst (appModeService_setAppMode mode c) in
  appMode c' = mode
  /\ (instantiatedControllers c' <= 1)%nat
  /\ (pathSelector c' <> None <-> mode = SelectPoints)
  /\ (segmentSplitter c' <> None
      <-> mode = AddPoints
          \/ (mode = SplitSubPaths /\ activeLayerStroked c = true))
  /\ (shapeSplitter c' <> None
      <-> mode = SplitSubPaths /\ activeLayerFilled c = true)
  /\ (forall ps ss sh,
        let d :=
          fst (appModeService_setAppMode mode
                 (set_pathSelector ps
                    (set_segmentSplitter ss (set_shapeSplitter sh c)))) in
        pathSelector d = pathSelector c'
        /\ segmentSplitter d = segmentSplitter c'
        /\ shapeSplitter d = shapeSplitter c')
  /\ getHover c' = None
  /\ (mode <> AddPoints -> getSelections c' = [])
  /\ (mode = AddPoints -> getSelections c' = getSelections c).
Proof.
  intros Htype Hboth. cbv zeta.
  assert (Hrun : forall ps ss sh,
    let c0 :=
      set_pathSelector ps (set_segmentSplitter ss (set_shapeSplitter sh c)) in
    let d := fst (appModeService_setAppMode mode c0) in
    pathSelector d
    = (if AppMode_eqb mode SelectPoints then Some newPathSelector else None)
    /\ segmentSplitter d
       = (if AppMode_eqb mode AddPoints
             || (AppMode_eqb mode SplitSubPaths && activeLayerStroked c)
          then
            Some (newSegmentSplitter
                    (hd_error
                       (fold_left (fun s sel => setAdd s (subIdx sel))
                          (getSelections c) [])))
          else None)
    /\ shapeSplitter d
       = (if AppMode_eqb mode SplitSubPaths && activeLayerFilled c
          then Some newShapeSplitter else None)
    /\ getHover d = None
    /\ getSelections d
       = (if AppMode_eqb mode AddPoints then getSelections c else [])
    /\ getAppMode d = mode).
  { intros ps ss sh c0 d. subst d.
    rewrite setAppMode_subscribed by exact Htype.
    exact (onAppModeChange_state (set_getAppMode mode c0)). }
  assert (Hself :
    set_pathSelector (pathSelector c)
      (set_segmentSplitter (segmentSplitter c)
         (set_shapeSplitter (shapeSplitter c) c)) = c)
    by (destruct c; reflexivity).
  pose proof (Hrun (pathSelector c) (segmentSplitter c) (shapeSplitter c))
    as Hc.
  cbv zeta in Hc. rewrite Hself in Hc.
  destruct Hc as (Hps & Hss & Hsh & Hhov & Hsel & Hmode).
  unfold instantiatedControllers, appMode.
  rewrite Hps, Hss, Hsh, Hhov, Hsel, Hmode.
  split; [ reflexivity | ].
  split.
  { destruct mode; cbn [AppMode_eqb orb andb]; try (cbn; lia).
    destruct (activeLayerStroked c), (activeLayerFilled c); cbn; try lia.
    exfalso. apply Hboth. auto. }
  split.
  { destruct mode; cbn; split; intros H; try congruence; discriminate. }
  split.
  { destruct mode; cbn [AppMode_eqb orb andb].
    - split; [ congruence | intros [H | [H _]]; discriminate ].
    - split; [ auto | intros _; discriminate ].
    - destruct (activeLayerStroked c).
      + split; [ auto | intros _; discriminate ].
      + split; [ congruence | intros [H | [_ H]]; discriminate ]. }
  split.
  { destruct mode; cbn [AppMode_eqb orb andb].
    - split; [ congruence | intros [H _]; discriminate ].
    - split; [ congruence | intros [H _]; discriminate ].
    - destruct (activeLayerFilled c).
      + split; [ auto | intros _; discriminate ].
      + split; [ congruence | intros [_ H]; discriminate ]. }
  split.
  { intros ps ss sh.
    destruct (Hrun ps ss sh) as (Hps' & Hss' & Hsh' & _).
    cbv zeta in *. rewrite Hps', Hss', Hsh'. auto. }
  split; [ reflexivity | ].
  split.
  - intros H. destruct mode; try reflexivity. congruence.
  - intros ->. reflexivity.
Qed.

End Properties.

(** * The properties on the sample data *)

Lemma getTransformsForLayer_found_witness :
  In "path"%string (layerIds (rootLayer (Sample.tree Sample.strokedPath)))
  /\ exists ancestors,
       ancestorsOf "path"%string (rootLayer (Sample.tree Sample.strokedPath))
         ancestors
       /\ getTransformsForLayer (scripts := Sample.scripts)
            (rootLayer (Sample.tree Sample.strokedPath)) "path"%string
          = Some (flat_map groupTransforms ancestors).
Proof.
  assert (H : In "path"%string
                (layerIds (rootLayer (Sample.tree Sample.strokedPath))))
    by (simpl; auto 10).
  split; [ exact H | ].
  destruct (@getTransformsForLayer_found Sample.scripts
              (rootLayer (Sample.tree Sample.strokedPath)) "path"%string H)
    as (anc & Hanc & Heq & _).
  exists anc. split; [ exact Hanc | exact Heq ].
Defined.

Example getTransformsForLayer_path :
  getTransformsForLayer (scripts := Sample.scripts)
    (rootLayer (Sample.tree Sample.strokedPath)) "path"%string
  = Some
      [ Sample.Translation 12 12; Sample.Translation 1 3;
        Sample.Rotation 90; Sample.Scaling 2 2;
        Sample.Translation (- (12)) (- (12));
        Sample.Translation 12 12; Sample.Translation 1 3;
        Sample.Rotation 90; Sample.Scaling 2 2;
        Sample.Translation (- (12)) (- (12)) ].
Proof. reflexivity. Qed.

Lemma getTransformsForLayer_not_found_witness :
  ~ In "missing"%string
      (layerIds (rootLayer (Sample.tree Sample.strokedPath)))
  /\ getTransformsForLayer (scripts := Sample.scripts)
       (rootLayer (Sample.tree Sample.strokedPath)) "missing"%string = None
  /\ performHitTest (scripts := Sample.scripts)
       (Sample.canvasOf "missing"%string SelectPoints Sample.strokedPath [] [])
       (mkPoint 5 5) (mkHitTestOpts false false false None)
     = Throw TypeError.
Proof.
  assert (H : ~ In "missing"%string
                  (layerIds (rootLayer (Sample.tree Sample.strokedPath))))
    by (simpl; intuition discriminate).
  split; [ exact H | ].
  destruct (@getTransformsForLayer_not_found Sample.scripts
              (Sample.tree Sample.strokedPath) "missing"%string H)
    as (Hnone & _ & Hcallers).
  split; [ exact Hnone | ].
  apply (Hcallers
           (Sample.canvasOf "missing"%string SelectPoints Sample.strokedPath [] [])
           (mkPoint 5 5) eq_refl (or_introl eq_refl)).
Defined.

(** On a layer that is not stroked and has the stroke width 2,
    [performHitTest] with no option set hands [Path.hitTest] a segment
    test that accepts the distance 1, and the sample hit test reports the
    segment hit. *)
Lemma performHitTest_segment_hit_unstroked :
  isStroked Sample.unstrokedPath = false
  /\ performHitTest (scripts := Sample.scripts)
       (Sample.canvas SelectPoints Sample.unstrokedPath [] [])
       (mkPoint 5 5) (mkHitTestOpts false false false None)
     = Ok (mkHitResult true [mkHit 0 (Some 0%nat)] [mkHit 2 (Some 1%nat)]
             [mkHit 1 None])
  /\ match
       isSegmentInRangeFn
         (pathHitTestOpts
            (Sample.canvas SelectPoints Sample.unstrokedPath [] [])
            Sample.unstrokedPath (mkHitTestOpts false false false None))
     with
     | Some inRange => inRange 1 Sample.anyCommand = true
     | None => False
     end.
Proof. repeat split. Qed.



Lemma onDoubleClick_selects_last_witness :
  shouldProcessMouseEvents
    (Sample.canvas SelectPoints Sample.paintedPath [] []) = true
  /\ performHitTest (scripts := Sample.scripts)
       (Sample.canvas SelectPoints Sample.paintedPath [] [])
       (mouseEventToPoint
          (Sample.canvas SelectPoints Sample.paintedPath [] []) Sample.click)
       (mkHitTestOpts false (negb (isStroked Sample.paintedPath)) false None)
     = Ok (mkHitResult true [mkHit 0 (Some 0%nat)] [mkHit 2 (Some 1%nat)]
             [mkHit 1 None])
  /\ getSelections
       (fst (onDoubleClick (scripts := Sample.scripts) Sample.click
               (Sample.canvas SelectPoints Sample.paintedPath [] [])))
     = [mkSelection 0 None Start SubPathSelection].
Proof.
  split; [ reflexivity | ]. split; [ reflexivity | ].
  apply (@onDoubleClick_selects_last Sample.scripts
           (Sample.canvas SelectPoints Sample.paintedPath [] [])
           Sample.click Sample.paintedPath
           (mkHitResult true [mkHit 0 (Some 0%nat)]
              [mkHit 2 (Some 1%nat)] [mkHit 1 None])
           (mkHit 0 (Some 0%nat)));
    reflexivity.
Defined.

(** A change to [AddPoints] keeps the selection. *)
Lemma appMode_change_keeps_selection :
  getSelections
    (fst (appModeService_setAppMode (scripts := Sample.scripts) AddPoints
            (Sample.canvas SelectPoints Sample.strokedPath
               [Sample.selection] [])))
  = [Sample.selection]
  /\ getSelections
       (fst (appModeService_setAppMode (scripts := Sample.scripts) AddPoints
               (Sample.canvas SelectPoints Sample.strokedPath
                  [Sample.selection] [])))
     <> [].
Proof. split; [ reflexivity | discriminate ]. Qed.

Lemma appMode_change_controllers_witness :
  canvasType (Sample.canvas SelectPoints Sample.strokedPath
                [Sample.selection] []) <> Preview
  /\ ~ (SplitSubPaths = SplitSubPaths
        /\ activeLayerStroked
             (Sample.canvas SelectPoints Sample.strokedPath
                [Sample.selection] []) = true
        /\ activeLayerFilled
             (Sample.canvas SelectPoints Sample.strokedPath
                [Sample.selection] []) = true)
  /\ (instantiatedControllers
        (fst (appModeService_setAppMode (scripts := Sample.scripts)
                SplitSubPaths
                (Sample.canvas SelectPoints Sample.strokedPath
                   [Sample.selection] []))) <= 1)%nat
  /\ getSelections
       (fst (appModeService_setAppMode (scripts := Sample.scripts)
               SplitSubPaths
               (Sample.canvas SelectPoints Sample.strokedPath
                  [Sample.selection] []))) = [].
Proof.
  assert (H1 : canvasType (Sample.canvas SelectPoints Sample.strokedPath
                             [Sample.selection] []) <> Preview)
    by discriminate.
  assert (H2 : ~ (SplitSubPaths = SplitSubPaths
                  /\ activeLayerStroked
                       (Sample.canvas SelectPoints Sample.strokedPath
                          [Sample.selection] []) = true
                  /\ activeLayerFilled
                       (Sample.canvas SelectPoints Sample.strokedPath
                          [Sample.selection] []) = true))
    by (intros (_ & _ & H); discriminate).
  split; [ exact H1 | ]. split; [ exact H2 | ].
  destruct (@appMode_change_controllers Sample.scripts SplitSubPaths
              (Sample.canvas SelectPoints Sample.strokedPath
                 [Sample.selection] []) H1 H2)
    as (_ & Hone & _ & _ & _ & _ & _ & Hreset & _).
  split; [ exact Hone | ]. apply Hreset. discriminate.
Defined.

Lemma draw_compositing_witness :
  isViewInit Sample.translucent = true
  /\ 1 * 0.5 < 1
  /\ draw (scripts := Sample.scripts) Sample.translucent
     = ([ Call RenderingCtx Save;
          Call RenderingCtx (Scale 4 4);
          Call RenderingCtx (ClearRect 0 0 24 24);
          Call OffscreenLayerCtx Save;
          Call OffscreenLayerCtx (Scale 4 4);
          Call OffscreenLayerCtx (ClearRect 0 0 24 24);
          Call OffscreenSubPathCtx Save;
          Call OffscreenSubPathCtx (Scale 4 4);
          Call OffscreenSubPathCtx (ClearRect 0 0 24 24);
          Call OffscreenSubPathCtx Save;
          Call OffscreenSubPathCtx Save;
          Call OffscreenSubPathCtx BeginPath;
          Call OffscreenSubPathCtx (MoveToCall 0 0);
          Call OffscreenSubPathCtx (LineToCall 10 0);
          Call OffscreenSubPathCtx Restore;
          Call OffscreenSubPathCtx (SetStrokeStyle "#000000");
          Call OffscreenSubPathCtx (SetLineWidth (2 * 1));
          Call OffscreenSubPathCtx (SetFillStyle "#ff0000");
          Call OffscreenSubPathCtx (SetLineCap "butt");
          Call OffscreenSubPathCtx (SetLineJoin "miter");
          Call OffscreenSubPathCtx (SetMiterLimit 4);
          Call OffscreenSubPathCtx (SetLineDash []);
          Call OffscreenSubPathCtx Stroke;
          Call OffscreenSubPathCtx Restore;
          Call OffscreenLayerCtx Save;
          Call OffscreenLayerCtx (SetGlobalAlpha 0.38);
          Call OffscreenLayerCtx (Scale (1 / 4) (1 / 4));
          Call OffscreenLayerCtx (DrawImage OffscreenSubPathCtx 0 0);
          Call OffscreenLayerCtx Restore;
          Call OffscreenSubPathCtx Restore;
          Call OffscreenLayerCtx Save;
          Call OffscreenLayerCtx Save;
          Call OffscreenLayerCtx BeginPath;
          Call OffscreenLayerCtx (MoveToCall 0 5);
          Call OffscreenLayerCtx (LineToCall 10 5);
          Call OffscreenLayerCtx Restore;
          Call OffscreenLayerCtx (SetStrokeStyle "#000000");
          Call OffscreenLayerCtx (SetLineWidth (2 * 1));
          Call OffscreenLayerCtx (SetFillStyle "#ff0000");
          Call OffscreenLayerCtx (SetLineCap "butt");
          Call OffscreenLayerCtx (SetLineJoin "miter");
          Call OffscreenLayerCtx (SetMiterLimit 4);
          Call OffscreenLayerCtx (SetLineDash []);
          Call OffscreenLayerCtx Stroke;
          Call OffscreenLayerCtx Restore;
          Call RenderingCtx Save;
          Call RenderingCtx (SetGlobalAlpha (1 * 0.5));
          Call RenderingCtx (Scale (1 / 4) (1 / 4));
          Call RenderingCtx (DrawImage OffscreenLayerCtx 0 0);
          Call RenderingCtx Restore;
          Call OffscreenLayerCtx Restore;
          Call RenderingCtx Restore ]
          ++ calls (drawOverlays (scripts := Sample.scripts)
                      Sample.translucent),
        outcome (drawOverlays (scripts := Sample.scripts)
                   Sample.translucent)).
Proof.
  assert (Halpha : 1 * 0.5 < 1) by reflexivity.
  split; [ reflexivity | ]. split; [ exact Halpha | ].
  destruct (@draw_compositing Sample.scripts Sample.translucent eq_refl)
    as (_ & Htranslucent & _).
  exact (Htranslucent Halpha).
Defined.

Lemma executeCommands_closePath_witness :
  segment Sample.closePath = ClosePath (mkPoint 0 10) (mkPoint 0 0)
  /\ executeCommands (scripts := Sample.scripts) RenderingCtx
       [Sample.closePath] (Some [])
     = (map (Call RenderingCtx)
          [ Save; BeginPath; MoveToCall 0 10; MoveToCall 0 10;
            LineToCall 0 0; Restore ],
        Ok tt).
Proof.
  split; [ reflexivity | ].
  destruct (@executeCommands_closePath Sample.scripts RenderingCtx [] []
              Sample.closePath (mkPoint 0 10) (mkPoint 0 0) [] eq_refl)
    as (closing & _ & _ & _ & Hsingle).
  exact (Hsingle eq_refl eq_refl).
Defined.

Lemma resizeAndDraw_cssScale_witness :
  isViewInit (Sample.sized 96 48 24 24) = true
  /\ 0 < width (vlSize (Sample.sized 96 48 24 24))
  /\ 0 < height (vlSize (Sample.sized 96 48 24 24))
  /\ 0 < cssContainerWidth (Sample.sized 96 48 24 24)
  /\ 0 < cssContainerHeight (Sample.sized 96 48 24 24)
  /\ roundDouble (24 / 24) <= roundDouble (96 / 48)
  /\ cssScale
       (fst (resizeAndDraw (scripts := Sample.scripts)
               (Sample.sized 96 48 24 24)))
     = 2.
Proof.
  assert (Hle : roundDouble (24 / 24) <= roundDouble (96 / 48))
    by (vm_compute; discriminate).
  repeat (split; [ reflexivity | ]).
  split; [ exact Hle | ].
  destruct (@resizeAndDraw_cssScale Sample.scripts
              (Sample.sized 96 48 24 24) eq_refl eq_refl eq_refl eq_refl
              eq_refl)
    as (_ & Hheight & _).
  rewrite (Hheight Hle). vm_compute. reflexivity.
Defined.

(** C10 on three canvases.  A viewport of 108 by 108 in a container of 440
    by 440: the viewport times [cssScale] is wider than the container,
    exactly and as the rounded size given to the canvases.  A viewport of
    1.1 by 1, as doubles, in a container of 110 by 100: [cssScale] is 100,
    the greater of the two quotients.  A viewport of negative width:
    [cssScale] is the greater quotient again. *)
Lemma resizeAndDraw_cssScale_rounding :
  (let c' := fst (resizeAndDraw (scripts := Sample.scripts)
                    (Sample.sized 440 440 108 108)) in
   cssContainerWidth c' < width (vlSize c') * cssScale c'
   /\ cssContainerWidth c' < width (canvasCssSize c'))
  /\ (let c' := fst (resizeAndDraw (scripts := Sample.scripts)
                       (Sample.sized 110 100 (roundDouble 1.1) 1)) in
      cssScale c' == 100
      /\ Qmin (110 / roundDouble 1.1) (100 / 1) < cssScale c'
      /\ roundDouble (Qmin (110 / roundDouble 1.1) (100 / 1)) < cssScale c')
  /\ (let c' := fst (resizeAndDraw (scripts := Sample.scripts)
                       (Sample.sized 96 96 (- (24)) 24)) in
      cssScale c' == 4 /\ Qmin (96 / - (24)) (96 / 24) == - (4)).
Proof.
  vm_compute. repeat split; reflexivity.
Defined.

(** * Further properties *)

Section FurtherProperties.
Context {scripts : Scripts}.

(** ** The transform resolver *)

Lemma ancestorsOf_prefix target l pre a post :
  ancestorsOf target l (pre ++ a :: post) -> ancestorsOf (layerId a) l pre.
Proof.
  revert l. induction pre as [| x pre IH]; intros l H.
  - inversion H; subst. constructor. reflexivity.
  - simpl in H. inversion H; subst.
    eapply ancestors_below; eauto.
Qed.

Lemma groupTransforms_length (l : Layer) :
  List.length (groupTransforms l) = if isGroupLayer l then 5%nat else 0%nat.
Proof. destruct l; reflexivity. Qed.

Lemma flat_map_groupTransforms_length (ls : list Layer) :
  List.length (flat_map groupTransforms ls)
  = (5 * List.length (filter isGroupLayer ls))%nat.
Proof.
  induction ls as [| l ls IH]; [ reflexivity | ].
  simpl flat_map. rewrite length_app, IH, groupTransforms_length.
  simpl filter. destruct (isGroupLayer l); simpl; lia.
Qed.

(** The transforms of a layer extend those of its ancestors: in a tree
    with distinct ids, for a layer reached through the ancestors
    [pre ++ a :: post], the lookup of the ancestor [a] gives the
    transforms of [pre], and the lookup of the layer gives these, followed
    by the transforms of [a], followed by those of [post]; both lists
    hold five matrices for each group among the ancestors. *)
Theorem getTransformsForLayer_extends (root : Layer) (target : string)
    (pre post : list Layer) (a : Layer) :
  NoDup (layerIds root) ->
  ancestorsOf target root (pre ++ a :: post) ->
  getTransformsForLayer root (layerId a)
  = Some (flat_map groupTransforms pre)
  /\ getTransformsForLayer root target
     = Some (flat_map groupTransforms pre
               ++ groupTransforms a ++ flat_map groupTransforms post)
  /\ forall ms,
       getTransformsForLayer root target = Some ms ->
       List.length ms
       = (5 * List.length (filter isGroupLayer (pre ++ a :: post)))%nat.
Proof.
  intros Hnd Hanc.
  assert (Hlookup : forall t anc,
    ancestorsOf t root anc ->
    getTransformsForLayer root t = Some (flat_map groupTransforms anc)).
  { intros t anc H.
    destruct (proj1 (getTransformsFn_resolves t root [])
                (ancestorsOf_In H)) as (anc' & Hanc' & Heq).
    rewrite (ancestorsOf_unique Hnd H Hanc'). exact Heq. }
  split; [ apply Hlookup; eapply ancestorsOf_prefix; exact Hanc | ].
  split.
  - rewrite (Hlookup _ _ Hanc), flat_map_app. reflexivity.
  - intros ms Hms. rewrite (Hlookup _ _ Hanc) in Hms.
    inversion Hms; subst. apply flat_map_groupTransforms_length.
Qed.

(** ** Saved states *)

Lemma nesting_app ctx d (t t' : Trace) :
  nesting ctx d (t ++ t')
  = match nesting ctx d t with
    | Some d' => nesting ctx d' t'
    | None => None
    end.
Proof.
  revert d. induction t as [| e t IH]; intros d; [ reflexivity | ].
  destruct e as [ctx' call].
  destruct call; simpl; try apply IH.
  destruct (CtxId_eqb ctx ctx'); [ | apply IH ].
  destruct d; [ reflexivity | apply IH ].
Qed.

(** Calls that neither save nor restore leave the depth alone. *)
Lemma nesting_neutral ctx ctx' d (cs : list CtxCall) :
  Forall (fun call => isSaveOrRestore call = false) cs ->
  nesting ctx d (map (Call ctx') cs) = Some d.
Proof.
  induction 1 as [| call cs Hcall _ IH]; [ reflexivity | ].
  destruct call; try discriminate; exact IH.
Qed.

(** Calls on another context leave the depth alone. *)
Lemma nesting_other ctx ctx' d (cs : list CtxCall) :
  CtxId_eqb ctx ctx' = false -> nesting ctx d (map (Call ctx') cs) = Some d.
Proof.
  intros H. induction cs as [| call cs IH]; [ reflexivity | ].
  destruct call; simpl; rewrite ?H; exact IH.
Qed.

(** A save, calls that keep the depth, and a restore keep the depth. *)
Lemma nesting_bracket ctx ctx' d (cs : list CtxCall) :
  (forall d', nesting ctx d' (map (Call ctx') cs) = Some d') ->
  nesting ctx d (map (Call ctx') (Save :: cs ++ [Restore])) = Some d.
Proof.
  intros H. rewrite map_cons, map_app. cbn [nesting].
  rewrite nesting_app, H. simpl.
  destruct (CtxId_eqb ctx ctx'); reflexivity.
Qed.

Lemma commandsCalls_no_save prev commands :
  Forall (fun call => isSaveOrRestore call = false)
    (commandsCalls prev commands).
Proof.
  revert prev. induction commands as [| cmd commands IH]; intros prev.
  - constructor.
  - simpl. apply Forall_app. split; [ | apply IH ].
    unfold commandCalls.
    destruct (segment cmd); try destruct (Point_equals _ _);
      repeat constructor.
Qed.

Lemma executeCalls_nesting ctx ctx' d commands ms :
  nesting ctx d (map (Call ctx') (executeCalls commands ms)) = Some d.
Proof.
  unfold executeCalls.
  replace (Save :: map Transform ms
             ++ BeginPath :: singleSegmentCalls commands
             ++ commandsCalls None commands ++ [Restore])
    with (Save :: (map Transform ms
                     ++ BeginPath :: singleSegmentCalls commands
                     ++ commandsCalls None commands) ++ [Restore])
    by (rewrite <- !app_assoc; simpl; rewrite <- !app_assoc; reflexivity).
  apply nesting_bracket. intros d'. apply nesting_neutral.
  apply Forall_app. split.
  - apply Forall_forall. intros call Hin.
    apply in_map_iff in Hin as (m & <- & _). reflexivity.
  - constructor; [ reflexivity | ]. apply Forall_app. split.
    + unfold singleSegmentCalls.
      destruct commands as [| cmd [| ? ?]]; try constructor.
      destruct (segment cmd); repeat constructor.
    + apply commandsCalls_no_save.
Qed.

Lemma pathLayerCalls_nesting ctx ctx' d commands p ms :
  nesting ctx d (map (Call ctx') (pathLayerCalls commands p ms)) = Some d.
Proof.
  unfold pathLayerCalls.
  replace (Save :: executeCalls commands ms
             ++ paintCalls p ms ++ trimCalls p ++ strokeCalls p
             ++ fillCalls p ++ [Restore])
    with (Save :: (executeCalls commands ms
                     ++ paintCalls p ms ++ trimCalls p ++ strokeCalls p
                     ++ fillCalls p) ++ [Restore])
    by (rewrite <- !app_assoc; reflexivity).
  apply nesting_bracket. intros d'.
  rewrite map_app, nesting_app, executeCalls_nesting.
  apply nesting_neutral.
  repeat (apply Forall_app; split).
  - repeat constructor.
  - unfold trimCalls. destruct (isTrimmed p); repeat constructor.
  - unfold strokeCalls. destruct (_ && _); repeat constructor.
  - unfold fillCalls.
    destruct (isFilled p); [ destruct (String.eqb _ _) | ];
      repeat constructor.
Qed.

(** The calls of [drawPaths] for one layer of the tree keep the depth of
    every context. *)
Lemma drawLayer_nesting ctx ctx' d extract (root x : Layer) :
  In x (layersOf root) ->
  nesting ctx d (calls (drawLayer ctx' extract root x)) = Some d.
Proof.
  intros Hx. apply layersOf_ids in Hx.
  destruct (proj1 (getTransformsFn_resolves (layerId x) root []) Hx)
    as (anc & _ & Hms).
  fold (getTransformsForLayer root (layerId x)) in Hms.
  destruct x as [j cs w h a | j cs g | j p | j c]; simpl layerId in Hms;
    try reflexivity.
  - destruct (extract j p) as [| c0 cmds] eqn:E.
    + unfold drawLayer. rewrite E. reflexivity.
    + rewrite (drawLayer_path ctx' extract root j p E Hms).
      cbn [calls fst]. apply pathLayerCalls_nesting.
  - unfold drawLayer. rewrite Hms, executeCommands_resolved.
    unfold bind, emit. cbn [calls fst].
    rewrite nesting_app, executeCalls_nesting. reflexivity.
Qed.

Lemma flat_map_nesting {A} ctx (f : A -> Trace) (xs : list A) :
  (forall x d, In x xs -> nesting ctx d (f x) = Some d) ->
  forall d, nesting ctx d (flat_map f xs) = Some d.
Proof.
  induction xs as [| x xs IH]; intros H d; [ reflexivity | ].
  simpl. rewrite nesting_app, H by (left; reflexivity).
  apply IH. intros y d' Hy. apply H. right. exact Hy.
Qed.

Lemma drawPaths_nesting ctx ctx' d extract (vl : option VectorLayerRoot) :
  nesting ctx d (calls (drawPaths ctx' extract vl)) = Some d.
Proof.
  destruct vl as [vl |]; [ | reflexivity ].
  rewrite drawPaths_returns. cbn [calls fst].
  apply flat_map_nesting. intros x d' Hx. apply drawLayer_nesting. exact Hx.
Qed.

(** [executeCommands] only builds a path.  On resolved transforms it
    returns, every call it makes is on its context and is one of [save],
    [restore], [transform], [beginPath] and the calls that add a segment,
    and the saved states of every context are as deep after it as before;
    on unresolved transforms it throws after its [save()], which then
    stays on the stack of its context. *)
Theorem executeCommands_builds_path ctx (commands : list Command) :
  (forall ms,
     outcome (executeCommands ctx commands (Some ms)) = Ok tt
     /\ Forall (fun e => exists call,
                  e = Call ctx call /\ isPathBuilding call = true)
          (calls (executeCommands ctx commands (Some ms)))
     /\ forall ctx' d,
          nesting ctx' d (calls (executeCommands ctx commands (Some ms)))
          = Some d)
  /\ outcome (executeCommands ctx commands None) = Throw TypeError
  /\ forall d,
       nesting ctx d (calls (executeCommands ctx commands None))
       = Some (S d).
Proof.
  split; [ intros ms | split; [ reflexivity | ] ].
  - rewrite executeCommands_resolved. cbn [calls outcome fst snd].
    split; [ reflexivity | ]. split; [ | intros; apply executeCalls_nesting ].
    apply Forall_forall. intros e He.
    apply in_map_iff in He as (call & <- & Hin). exists call.
    split; [ reflexivity | ].
    unfold executeCalls in Hin.
    destruct Hin as [<- | Hin]; [ reflexivity | ].
    apply in_app_or in Hin as [Hin | [<- | Hin]]; [ | reflexivity | ].
    + apply in_map_iff in Hin as (m & <- & _). reflexivity.
    + apply in_app_or in Hin as [Hin | Hin].
      * unfold singleSegmentCalls in Hin.
        destruct commands as [| cmd [| ? ?]]; try contradiction.
        destruct (segment cmd); simpl in Hin; try contradiction;
          (destruct Hin as [<- | Hin]; [ reflexivity | contradiction ]).
      * apply in_app_or in Hin as [Hin | [<- | []]]; [ | reflexivity ].
        clear - Hin. revert Hin. generalize (@None Point).
        induction commands as [| cmd commands IH]; intros prev Hin;
          [ contradiction | ].
        simpl in Hin. apply in_app_or in Hin as [Hin | Hin];
          [ | eapply IH; exact Hin ].
        unfold commandCalls in Hin.
        destruct (segment cmd); try destruct (Point_equals _ _);
          repeat (destruct Hin as [<- | Hin]; [ reflexivity | ]);
          contradiction.
  - intros d. rewrite executeCommands_unresolved. cbn [calls fst nesting].
    destruct ctx; reflexivity.
Qed.

(** [drawPaths] throws, before any call, when there is no vector layer;
    on a vector layer it returns, whatever the tree and the callback, and
    the saved states of every context are as deep after it as before. *)
Theorem drawPaths_returns_balanced ctx extract :
  drawPaths ctx extract None = ([], Throw TypeError)
  /\ forall vl : VectorLayerRoot,
       outcome (drawPaths ctx extract (Some vl)) = Ok tt
       /\ forall ctx' d,
            nesting ctx' d (calls (drawPaths ctx extract (Some vl)))
            = Some d.
Proof.
  split; [ reflexivity | ]. intros vl.
  split; [ apply drawPaths_outcome | ].
  intros ctx' d. apply drawPaths_nesting.
Qed.

(** ** The events of a draw pass *)

Lemma bind_events {A B} (t : list Event) (a : A) (k : A -> Draw B) :
  bind (t, Ok a) k = (t ++ calls (k a), outcome (k a)).
Proof. apply bind_Ok. Qed.

Lemma layerPass_returns (c : Canvas) (layerCtx : CtxId) :
  when (shouldDrawLayers c) (drawLayers c layerCtx)
  = (layerPassEvents c layerCtx, Ok tt).
Proof.
  unfold when, layerPassEvents.
  destruct (shouldDrawLayers c) eqn:Hs; [ | reflexivity ].
  destruct (shouldDrawLayers_vectorLayer c Hs) as (vl & Hvl).
  unfold drawLayers, when, setupCtxWithViewportCoords,
    drawTranslucentOffscreenCtx, emit, emitAll, ret.
  rewrite Hvl.
  destruct (disabledSubPathIndices c) as [| i rest];
    cbn [List.length Nat.eqb negb].
  - rewrite bind_events.
    rewrite (bind_returns _ _ (drawPaths_outcome _ _ vl)).
    rewrite bind_events.
    rewrite (Draw_eta (drawPaths layerCtx (enabledCommands c) (Some vl))).
    rewrite drawPaths_outcome. cbn [calls outcome fst snd app].
    reflexivity.
  - repeat rewrite bind_events. cbn [calls outcome fst snd].
    rewrite (bind_returns _ _ (drawPaths_outcome _ _ vl)).
    repeat rewrite bind_events.
    rewrite (Draw_eta (drawPaths layerCtx (enabledCommands c) (Some vl))).
    rewrite drawPaths_outcome. cbn [calls outcome fst snd app map].
    unfold setupEvents, compositeEvents.
    repeat (rewrite <- ?app_assoc; cbn [app]). reflexivity.
Qed.

(** The events of [draw] on an initialised view before it draws the
    overlay, for either answer of the test [currentAlpha < 1]. *)
Lemma draw_events (c : Canvas) :
  isViewInit c = true ->
  draw c
  = ((Call RenderingCtx Save
        :: setupEvents c RenderingCtx
        ++ (if Qlt_bool (currentAlpha c) 1 then
              Call OffscreenLayerCtx Save :: setupEvents c OffscreenLayerCtx
            else [])
        ++ layerPassEvents c
             (if Qlt_bool (currentAlpha c) 1 then OffscreenLayerCtx
              else RenderingCtx)
        ++ (if Qlt_bool (currentAlpha c) 1 then
              compositeEvents c RenderingCtx OffscreenLayerCtx
                (currentAlpha c)
              ++ [Call OffscreenLayerCtx Restore]
            else [])
        ++ [Call RenderingCtx Restore])
       ++ calls (drawOverlays c),
     outcome (drawOverlays c)).
Proof.
  intros Hinit. unfold draw. rewrite Hinit. cbn [negb].
  rewrite !layerPass_returns.
  rewrite (Draw_eta (drawOverlays c)) at 1.
  unfold when, setupCtxWithViewportCoords, drawTranslucentOffscreenCtx,
    emit, emitAll, ret, setupEvents, compositeEvents.
  destruct (Qlt_bool (currentAlpha c) 1);
    repeat rewrite bind_events; cbn [calls outcome fst snd map];
    repeat (rewrite <- ?app_assoc; cbn [app]); reflexivity.
Qed.

Lemma layerPassEvents_nesting (c : Canvas) ctx layerCtx d :
  nesting ctx d (layerPassEvents c layerCtx) = Some d.
Proof.
  unfold layerPassEvents, setupEvents, compositeEvents.
  destruct (shouldDrawLayers c); [ | reflexivity ].
  destruct (disabledSubPathIndices c) as [| i rest].
  - rewrite nesting_app, !drawPaths_nesting. reflexivity.
  - destruct ctx, layerCtx; cbn [nesting CtxId_eqb app];
      repeat (rewrite ?nesting_app, ?drawPaths_nesting;
              cbn [nesting CtxId_eqb app]);
      reflexivity.
Qed.

(** ** The saved states of the overlay *)

Lemma pops_ret ctx {A} (a : A) : pops ctx 0 (ret a).
Proof. intros d. exists d. repeat split; auto. Qed.

Lemma pops_liftO ctx {A} (o : Outcome A) : pops ctx 0 (liftO o).
Proof. intros d. exists d. repeat split; auto. Qed.

Lemma pops_bind ctx n {A B} (m : Draw A) (k : A -> Draw B) :
  pops ctx 0 m -> (forall a, pops ctx n (k a)) -> pops ctx n (bind m k).
Proof.
  intros Hm Hk d. destruct (Hm (n + d)%nat) as (d1 & H1 & Hle1 & Hret1).
  cbn [Nat.add] in H1.
  destruct m as [t [a | e]]; cbn [calls outcome fst snd bind] in *.
  - rewrite (Hret1 a eq_refl) in H1.
    destruct (Hk a d) as (d2 & H2 & Hle2 & Hret2).
    destruct (k a) as [t' r]. cbn [calls outcome fst snd] in *.
    exists d2. rewrite nesting_app, H1. auto.
  - exists d1. split; [ exact H1 | ]. split; [ lia | discriminate ].
Qed.

Lemma pops_save ctx n (k : unit -> Draw unit) :
  pops ctx (S n) (k tt) -> pops ctx n (bind (emit ctx Save) k).
Proof.
  intros Hk d. destruct (Hk d) as (d' & H & Hle & Hret).
  unfold emit. rewrite bind_events. cbn [calls outcome fst snd app nesting].
  assert (E : CtxId_eqb ctx ctx = true) by (destruct ctx; reflexivity).
  rewrite E. exists d'. auto.
Qed.

Lemma pops_restore ctx n (k : unit -> Draw unit) :
  pops ctx n (k tt) -> pops ctx (S n) (bind (emit ctx Restore) k).
Proof.
  intros Hk d. destruct (Hk d) as (d' & H & Hle & Hret).
  unfold emit. rewrite bind_events. cbn [calls outcome fst snd app nesting].
  assert (E : CtxId_eqb ctx ctx = true) by (destruct ctx; reflexivity).
  rewrite E. cbn [Nat.add]. exists d'. auto.
Qed.

Lemma pops_last_restore ctx : pops ctx 1 (emit ctx Restore).
Proof.
  intros d. exists d. cbn [emit calls outcome fst snd nesting Nat.add].
  assert (E : CtxId_eqb ctx ctx = true) by (destruct ctx; reflexivity).
  rewrite E. auto.
Qed.

Lemma pops_emitAll ctx (cs : list CtxCall) :
  Forall (fun call => isSaveOrRestore call = false) cs ->
  pops ctx 0 (emitAll ctx cs).
Proof.
  intros H d. exists d. unfold emitAll. cbn [calls outcome fst snd Nat.add].
  rewrite (nesting_neutral ctx ctx d H). auto.
Qed.

Lemma pops_emit ctx (call : CtxCall) :
  isSaveOrRestore call = false -> pops ctx 0 (emit ctx call).
Proof.
  intros H. apply (@pops_emitAll ctx [call]). repeat constructor. exact H.
Qed.

(** Calls that keep the depth, then the last [restore()]. *)
Lemma pops_emitAll_restore ctx (cs : list CtxCall) :
  Forall (fun call => isSaveOrRestore call = false) cs ->
  pops ctx 1 (emitAll ctx (cs ++ [Restore])).
Proof.
  intros H d. exists d. unfold emitAll.
  cbn [calls outcome fst snd Nat.add].
  rewrite map_app, nesting_app, (nesting_neutral ctx ctx (S d) H).
  cbn [map nesting].
  assert (E : CtxId_eqb ctx ctx = true) by (destruct ctx; reflexivity).
  rewrite E. auto.
Qed.

Lemma pops_forEach ctx {A} (f : A -> Draw unit) (xs : list A) :
  (forall x, pops ctx 0 (f x)) -> pops ctx 0 (forEach f xs).
Proof.
  intros Hf. induction xs as [| x xs IH]; [ apply pops_ret | ].
  cbn [forEach]. apply pops_bind; [ apply Hf | intros _; exact IH ].
Qed.

Lemma pops_when ctx (b : bool) (m : Draw unit) :
  pops ctx 0 m -> pops ctx 0 (when b m).
Proof. intros H. destruct b; [ exact H | apply pops_ret ]. Qed.

Lemma transforms_neutral (ms : list Matrix) :
  Forall (fun call => isSaveOrRestore call = false) (map Transform ms).
Proof.
  apply Forall_forall. intros c Hc. apply in_map_iff in Hc as (m & <- & _).
  reflexivity.
Qed.

Lemma pops_executeCommands ctx commands transforms :
  pops ctx 0 (executeCommands ctx commands transforms).
Proof.
  intros d. destruct transforms as [ms |].
  - rewrite executeCommands_resolved. cbn [calls outcome fst snd Nat.add].
    rewrite executeCalls_nesting. exists d. auto.
  - rewrite executeCommands_unresolved.
    cbn [calls outcome fst snd Nat.add nesting].
    assert (E : CtxId_eqb ctx ctx = true) by (destruct ctx; reflexivity).
    rewrite E. exists (S d). split; [ reflexivity | ].
    split; [ lia | discriminate ].
Qed.

Lemma pops_highlightStroke ctx color lineWidth dash :
  Forall (fun call => isSaveOrRestore call = false) dash ->
  pops ctx 0 (highlightStroke ctx color lineWidth dash).
Proof.
  intros H d. exists d. unfold highlightStroke, emitAll.
  cbn [calls outcome fst snd Nat.add app map nesting].
  assert (E : CtxId_eqb ctx ctx = true) by (destruct ctx; reflexivity).
  rewrite E, map_app, nesting_app, (nesting_neutral ctx ctx (S d) H).
  cbn [map nesting]. rewrite E. auto.
Qed.

(** Follows a drawing method through the methods it is made of, at the
    number of states it has saved. *)
Ltac pops_steps :=
  repeat first
    [ apply pops_ret
    | apply pops_liftO
    | apply pops_last_restore
    | apply pops_executeCommands
    | apply pops_highlightStroke; repeat constructor
    | apply pops_save
    | apply pops_restore
    | apply pops_emit; reflexivity
    | apply pops_emitAll;
        first [ apply transforms_neutral | repeat constructor ]
    | apply (@pops_emitAll_restore _ [_; _; _; _; _]); repeat constructor
    | apply pops_when
    | apply pops_forEach; intros ?
    | apply pops_bind; [ | intros ? ]
    | match goal with
      | |- pops _ _ (if ?b then _ else _) => destruct b
      | |- pops _ _ (match ?x with _ => _ end) => destruct x
      | |- pops _ _ (let (_, _) := ?x in _) => destruct x
      end ].

Lemma pops_executeCommand ctx cmd transforms :
  pops ctx 0 (executeCommand ctx cmd transforms).
Proof.
  destruct cmd as [cmd |]; [ apply pops_executeCommands | ].
  intros d. unfold executeCommand. destruct transforms as [ms |].
  - unfold emit, emitAll, liftO, deref. repeat rewrite bind_events.
    cbn [calls outcome fst snd Nat.add app nesting].
    assert (E : CtxId_eqb ctx ctx = true) by (destruct ctx; reflexivity).
    rewrite E, nesting_app, (nesting_neutral ctx ctx (S d)
                               (transforms_neutral ms)).
    cbn [nesting]. exists (S d). split; [ reflexivity | ].
    split; [ lia | discriminate ].
  - cbn [calls outcome fst snd Nat.add nesting emit liftO deref bind].
    assert (E : CtxId_eqb ctx ctx = true) by (destruct ctx; reflexivity).
    cbn [app nesting]. rewrite E. exists (S d). split; [ reflexivity | ].
    split; [ lia | discriminate ].
Qed.

Lemma pops_drawLabeledPoint ctx point radius color text :
  pops ctx 0 (drawLabeledPoint ctx point radius color text).
Proof. unfold drawLabeledPoint. pops_steps. Qed.

Lemma pops_drawSplitSubPathHighlights c ctx :
  pops ctx 0 (drawSplitSubPathHighlights c ctx).
Proof. unfold drawSplitSubPathHighlights. pops_steps. Qed.

Lemma pops_drawHighlights c ctx : pops ctx 0 (drawHighlights c ctx).
Proof. unfold drawHighlights. pops_steps. Qed.

Lemma pops_drawLabeledPoints c ctx : pops ctx 0 (drawLabeledPoints c ctx).
Proof.
  unfold drawLabeledPoints. pops_steps. all: apply pops_drawLabeledPoint.
Qed.

Lemma pops_drawDraggingPoints c ctx : pops ctx 0 (drawDraggingPoints c ctx).
Proof.
  unfold drawDraggingPoints. pops_steps. all: apply pops_drawLabeledPoint.
Qed.

Lemma pops_drawHighlightedAddPointSegment c ctx :
  pops ctx 0 (drawHighlightedAddPointSegment c ctx).
Proof.
  unfold drawHighlightedAddPointSegment. pops_steps.
  all: apply pops_executeCommand.
Qed.

Lemma pops_drawAddPointPreview c ctx :
  pops ctx 0 (drawAddPointPreview c ctx).
Proof.
  unfold drawAddPointPreview. pops_steps. all: apply pops_drawLabeledPoint.
Qed.

Lemma pops_drawHighlightedSplitShapeSegment c ctx :
  pops ctx 0 (drawHighlightedSplitShapeSegment c ctx).
Proof.
  unfold drawHighlightedSplitShapeSegment. pops_steps.
  all: apply pops_executeCommand.
Qed.

Lemma pops_drawSplitShapePreview c ctx :
  pops ctx 0 (drawSplitShapePreview c ctx).
Proof.
  unfold drawSplitShapePreview. pops_steps.
  all: apply pops_drawLabeledPoint.
Qed.

Lemma pops_drawPixelGrid c ctx : pops ctx 0 (drawPixelGrid c ctx).
Proof. unfold drawPixelGrid. pops_steps. Qed.

(** [drawOverlays] never restores a state of the overlay context it has
    not saved, and has restored what it has saved when it returns. *)
Lemma pops_drawOverlays (c : Canvas) : pops OverlayCtx 0 (drawOverlays c).
Proof.
  unfold drawOverlays, setupCtxWithViewportCoords.
  destruct (negb (isViewInit c)); [ apply pops_ret | ].
  apply pops_save.
  apply pops_bind; [ pops_steps | intros _ ].
  apply pops_bind; [ | intros _ ].
  - apply pops_when.
    repeat (apply pops_bind; [ | intros _ ]);
      auto using pops_drawSplitSubPathHighlights, pops_drawHighlights,
        pops_drawHighlightedAddPointSegment,
        pops_drawHighlightedSplitShapeSegment, pops_drawLabeledPoints,
        pops_drawDraggingPoints, pops_drawAddPointPreview,
        pops_drawSplitShapePreview.
  - apply pops_restore. apply pops_when, pops_drawPixelGrid.
Qed.

(** Calls on another context leave the depth alone. *)
Lemma nesting_onlyOn ctx ctx' d (t : Trace) :
  CtxId_eqb ctx ctx' = false ->
  Forall (drawsOnly ctx') t -> nesting ctx d t = Some d.
Proof.
  intros Hctx H. induction H as [| e t (call & -> & _) _ IH];
    [ reflexivity | ].
  destruct call; cbn [nesting]; rewrite ?Hctx; exact IH.
Qed.

(** A draw pass never restores a state it has not saved.  It leaves the
    saved states of the rendering context and of the two offscreen
    contexts as deep as it found them, whether it returns or throws, and
    those of the overlay context when it returns; when [drawOverlays]
    throws, states it has saved on the overlay context may be left. *)
Theorem draw_balanced (c : Canvas) (ctx : CtxId) (d : nat) :
  exists d',
    nesting ctx d (calls (draw c)) = Some d'
    /\ (d <= d')%nat
    /\ (ctx <> OverlayCtx \/ outcome (draw c) = Ok tt -> d' = d).
Proof.
  destruct (isViewInit c) eqn:Hinit.
  2: { exists d. unfold draw. rewrite Hinit. cbn. auto. }
  rewrite (draw_events c Hinit). cbn [calls outcome fst snd].
  rewrite nesting_app.
  assert (Hlayers :
    nesting ctx d
      (Call RenderingCtx Save
         :: setupEvents c RenderingCtx
         ++ (if Qlt_bool (currentAlpha c) 1 then
               Call OffscreenLayerCtx Save :: setupEvents c OffscreenLayerCtx
             else [])
         ++ layerPassEvents c
              (if Qlt_bool (currentAlpha c) 1 then OffscreenLayerCtx
               else RenderingCtx)
         ++ (if Qlt_bool (currentAlpha c) 1 then
               compositeEvents c RenderingCtx OffscreenLayerCtx
                 (currentAlpha c)
               ++ [Call OffscreenLayerCtx Restore]
             else [])
         ++ [Call RenderingCtx Restore])
    = Some d).
  { unfold setupEvents, compositeEvents.
    destruct (Qlt_bool (currentAlpha c) 1), ctx;
      cbn [nesting CtxId_eqb app];
      repeat (rewrite ?nesting_app, ?layerPassEvents_nesting;
              cbn [nesting CtxId_eqb app]);
      reflexivity. }
  rewrite Hlayers.
  destruct (CtxId_eqb ctx OverlayCtx) eqn:Hctx.
  - assert (ctx = OverlayCtx) as -> by (destruct ctx; discriminate || auto).
    destruct (pops_drawOverlays c d) as (d' & H & Hle & Hret).
    cbn [Nat.add] in H. exists d'. split; [ exact H | ].
    split; [ exact Hle | ].
    intros [Hne | Hok]; [ congruence | ]. apply (Hret tt Hok).
  - exists d. rewrite (@nesting_onlyOn ctx OverlayCtx d _ Hctx (drawOverlays_onlyOn c)).
    auto.
Qed.

(** ** The paint of a path layer *)

Lemma executeCalls_no_fill commands ms :
  filter (fun call => isStroke call || isFill call)
    (executeCalls commands ms) = [].
Proof.
  apply filter_none. apply Forall_forall. intros call Hin.
  pose proof (executeCommands_resolved RenderingCtx commands ms) as Hrun.
  assert (Hbuild : isPathBuilding call = true).
  { unfold executeCalls in Hin.
    destruct Hin as [<- | Hin]; [ reflexivity | ].
    apply in_app_or in Hin as [Hin | [<- | Hin]]; [ | reflexivity | ].
    - apply in_map_iff in Hin as (m & <- & _). reflexivity.
    - apply in_app_or in Hin as [Hin | Hin].
      + unfold singleSegmentCalls in Hin.
        destruct commands as [| cmd [| ? ?]]; try contradiction.
        destruct (segment cmd); simpl in Hin; try contradiction;
          (destruct Hin as [<- | Hin]; [ reflexivity | contradiction ]).
      + apply in_app_or in Hin as [Hin | [<- | []]]; [ | reflexivity ].
        clear - Hin. revert Hin. generalize (@None Point).
        induction commands as [| cmd commands IH]; intros prev Hin;
          [ contradiction | ].
        simpl in Hin. apply in_app_or in Hin as [Hin | Hin];
          [ | eapply IH; exact Hin ].
        unfold commandCalls in Hin.
        destruct (segment cmd); try destruct (Point_equals _ _);
          repeat (destruct Hin as [<- | Hin]; [ reflexivity | ]);
          contradiction. }
  destruct call; try discriminate; reflexivity.
Qed.

(** The strokes and fills among the calls for a path layer that is drawn:
    those of [strokeCalls], then those of [fillCalls]. *)
Lemma pathLayerCalls_paint commands p ms :
  filter (fun call => isStroke call || isFill call)
    (pathLayerCalls commands p ms)
  = strokeCalls p ++ fillCalls p.
Proof.
  unfold pathLayerCalls. cbn [filter isStroke isFill orb].
  rewrite !filter_app, executeCalls_no_fill.
  assert (Ht : filter (fun call => isStroke call || isFill call)
                 (trimCalls p) = []).
  { unfold trimCalls. destruct (isTrimmed p); reflexivity. }
  assert (Hs : filter (fun call => isStroke call || isFill call)
                 (strokeCalls p) = strokeCalls p).
  { unfold strokeCalls. destruct (_ && _); reflexivity. }
  assert (Hf : filter (fun call => isStroke call || isFill call)
                 (fillCalls p) = fillCalls p).
  { unfold fillCalls.
    destruct (isFilled p); [ destruct (String.eqb _ _) | ]; reflexivity. }
  rewrite Ht, Hs, Hf. simpl. rewrite app_nil_r. reflexivity.
Qed.

(** What [drawPaths] draws for a path layer, by cases on what the
    callback extracts and on the lookup of the transforms. *)
Lemma drawLayer_cases ctx extract root i p :
  (extract i p = []
   /\ drawLayer ctx extract root (PathLayer i p) = ([], Ok tt))
  \/ (extract i p <> [] /\ getTransformsForLayer root i = None
      /\ drawLayer ctx extract root (PathLayer i p)
         = ([Call ctx Save; Call ctx Save], Throw TypeError))
  \/ (exists ms,
        extract i p <> [] /\ getTransformsForLayer root i = Some ms
        /\ drawLayer ctx extract root (PathLayer i p)
           = (map (Call ctx) (pathLayerCalls (extract i p) p ms), Ok tt)).
Proof.
  destruct (extract i p) as [| c0 cmds] eqn:E.
  - left. unfold drawLayer. rewrite E. auto.
  - right. destruct (getTransformsForLayer root i) as [ms |] eqn:Hms.
    + right. exists ms. repeat split; try discriminate.
      exact (drawLayer_path ctx extract root i p E Hms).
    + left. repeat split; try discriminate.
      unfold drawLayer. rewrite E, Hms. reflexivity.
Qed.

(** [fill] is among the calls made for a path layer exactly when the
    layer has commands to draw, its transforms are resolved and the layer
    is filled; the fill rule is ['evenodd'] exactly for the fill type
    ['evenOdd'], and the default rule of the context otherwise. *)
Theorem drawLayer_fill ctx extract (root : Layer) i p (rule : option string) :
  In (Call ctx (Fill rule))
     (calls (drawLayer ctx extract root (PathLayer i p)))
  <-> extract i p <> []
      /\ getTransformsForLayer root i <> None
      /\ isFilled p = true
      /\ rule = (if String.eqb (fillType p) "evenOdd"
                 then Some "evenodd"%string else None).
Proof.
  assert (Hfill :
    In (Fill rule) (fillCalls p)
    <-> isFilled p = true
        /\ rule = (if String.eqb (fillType p) "evenOdd"
                   then Some "evenodd"%string else None)).
  { unfold fillCalls.
    destruct (isFilled p); [ destruct (String.eqb _ _) | ]; simpl;
      split; try tauto; try (intros [H _]; discriminate).
    - intros [H | []]. inversion H. auto.
    - intros [_ ->]. auto.
    - intros [H | []]. inversion H. auto.
    - intros [_ ->]. auto. }
  destruct (drawLayer_cases ctx extract root i p)
    as [(E & ->) | [(E & Hms & ->) | (ms & E & Hms & ->)]];
    cbn [calls fst].
  - split; [ intros [] | intros (H & _); contradiction ].
  - split.
    + intros [H | [H | []]]; discriminate.
    + intros (_ & H & _). contradiction.
  - assert (Hin :
      In (Call ctx (Fill rule))
         (map (Call ctx) (pathLayerCalls (extract i p) p ms))
      <-> In (Fill rule) (fillCalls p)).
    { rewrite <- (selectCalls_In (fun call => isStroke call || isFill call)
                    ctx (Fill rule) _ eq_refl).
      rewrite selectCalls_map, pathLayerCalls_paint, in_map_iff. split.
      - intros (x & Hx & Hin). inversion Hx; subst.
        apply in_app_or in Hin as [Hin | Hin]; [ | exact Hin ].
        unfold strokeCalls in Hin.
        destruct (_ && _); [ destruct Hin as [H | []]; discriminate
                           | destruct Hin ].
      - intros Hin. exists (Fill rule). split; [ reflexivity | ].
        apply in_or_app. right. exact Hin. }
    rewrite Hin, Hfill, Hms. split.
    + intros H. repeat split; try tauto; discriminate.
    + tauto.
Qed.

(** A path layer that is drawn both stroked and filled is stroked first
    and filled next: the fill is painted over the inner half of the
    stroke. *)
Theorem drawLayer_stroke_then_fill ctx extract (root : Layer) i p ms :
  extract i p <> [] ->
  getTransformsForLayer root i = Some ms ->
  isStroked p = true -> ~ strokeWidth p == 0 ->
  ~ trimPathStart p == trimPathEnd p ->
  isFilled p = true ->
  exists before rule,
    calls (drawLayer ctx extract root (PathLayer i p))
    = before ++ [Call ctx Stroke; Call ctx (Fill rule); Call ctx Restore]
    /\ selectCalls (fun call => isStroke call || isFill call) before = [].
Proof.
  intros E Hms Hs Hw Ht Hf.
  destruct (drawLayer_cases ctx extract root i p)
    as [(E' & _) | [(_ & Hms' & _) | (ms' & _ & Hms' & ->)]];
    [ contradiction | congruence | ].
  cbn [calls fst]. unfold pathLayerCalls.
  assert (Hstroke : strokeCalls p = [Stroke]).
  { unfold strokeCalls.
    rewrite Hs, (proj2 (Qneq_bool_iff _ _) Hw),
      (proj2 (Qneq_bool_iff _ _) Ht). reflexivity. }
  assert (Hfill : exists rule, fillCalls p = [Fill rule]).
  { unfold fillCalls. rewrite Hf. destruct (String.eqb _ _); eauto. }
  destruct Hfill as (rule & Hfill). rewrite Hstroke, Hfill.
  exists (map (Call ctx)
            (Save :: executeCalls (extract i p) ms'
               ++ paintCalls p ms' ++ trimCalls p)), rule.
  split.
  - change [Call ctx Stroke; Call ctx (Fill rule); Call ctx Restore]
      with (map (Call ctx) [Stroke; Fill rule; Restore]).
    rewrite <- map_app. f_equal. simpl. rewrite <- !app_assoc. reflexivity.
  - rewrite selectCalls_map. cbn [filter isStroke isFill orb].
    rewrite !filter_app, executeCalls_no_fill.
    unfold trimCalls. destruct (isTrimmed p); reflexivity.
Qed.

(** A path layer that is drawn with the trim [(0, 1, 0)] is drawn with
    the dash cleared: the one dash setting made for it is
    [setLineDash([])], and the dash offset is not set. *)
Theorem drawLayer_untrimmed ctx extract (root : Layer) i p ms :
  extract i p <> [] ->
  getTransformsForLayer root i = Some ms ->
  trimPathStart p == 0 -> trimPathEnd p == 1 -> trimPathOffset p == 0 ->
  selectCalls isDash (calls (drawLayer ctx extract root (PathLayer i p)))
  = [Call ctx (SetLineDash [])].
Proof.
  intros E Hms H0 H1 H2.
  destruct (drawLayer_cases ctx extract root i p)
    as [(E' & _) | [(_ & Hms' & _) | (ms' & _ & Hms' & ->)]];
    [ contradiction | congruence | ].
  cbn [calls fst]. rewrite selectCalls_map, pathLayerCalls_dash.
  unfold trimCalls.
  destruct (isTrimmed p) eqn:Htrim; [ | reflexivity ].
  apply isTrimmed_iff in Htrim. exfalso. apply Htrim. auto.
Qed.

(** ** The commands of the two passes *)

Lemma flatMapIndexed_partition {A B} (P : nat -> bool) (f : A -> list B)
    (xs : list A) :
  Permutation
    (flatMapIndexed (fun x k => if P k then f x else []) xs
       ++ flatMapIndexed (fun x k => if P k then [] else f x) xs)
    (flat_map f xs).
Proof.
  unfold flatMapIndexed. generalize 0%nat.
  induction xs as [| x xs IH]; intros k; [ constructor | ].
  cbn [List.length seq combine flat_map fst snd].
  destruct (P k); cbn [app].
  - rewrite <- app_assoc. apply Permutation_app_head. apply IH.
  - rewrite Permutation_app_swap_app. apply Permutation_app_head. apply IH.
Qed.

Lemma flatMapIndexed_const {A B} (f : A -> list B) (xs : list A) :
  flatMapIndexed (fun x _ => f x) xs = flat_map f xs.
Proof.
  unfold flatMapIndexed. generalize 0%nat.
  induction xs as [| x xs IH]; intros k; [ reflexivity | ].
  cbn [List.length seq combine flat_map fst snd]. rewrite IH. reflexivity.
Qed.

Lemma flatMapIndexed_nil {A B} (xs : list A) :
  flatMapIndexed (fun (_ : A) (_ : nat) => @nil B) xs = [].
Proof.
  unfold flatMapIndexed. generalize 0%nat.
  induction xs as [| x xs IH]; intros k; [ reflexivity | ].
  cbn [List.length seq combine flat_map fst snd app]. apply IH.
Qed.

(** The two passes of [draw] draw the active path layer only, and each of
    its commands once: for a layer with another id both callbacks extract
    nothing, and the layer gets no call; for the active id the commands
    of the disabled pass and of the enabled pass are together those of
    the path, and with no disabled index the enabled pass draws all of
    them in order. *)
Theorem draw_commands_partition (c : Canvas) (i : string) (p : PathProps) :
  (idEquals i (activePathId c) = false ->
   disabledCommands c i p = [] /\ enabledCommands c i p = []
   /\ forall ctx root,
        drawLayer ctx (disabledCommands c) root (PathLayer i p)
        = ([], Ok tt)
        /\ drawLayer ctx (enabledCommands c) root (PathLayer i p)
           = ([], Ok tt))
  /\ (idEquals i (activePathId c) = true ->
      Permutation (disabledCommands c i p ++ enabledCommands c i p)
        (getCommands (pathData p))
      /\ (disabledSubPathIndices c = [] ->
          disabledCommands c i p = []
          /\ enabledCommands c i p = getCommands (pathData p))).
Proof.
  unfold disabledCommands, enabledCommands. split; intros H; rewrite H.
  - cbn [negb]. repeat split; unfold drawLayer, disabledCommands,
      enabledCommands; rewrite H; reflexivity.
  - cbn [negb]. split.
    + apply (flatMapIndexed_partition (isDisabledSubPath c)
               subPathCommands).
    + intros Hnone. unfold isDisabledSubPath. rewrite Hnone. cbn [existsb].
      split; [ apply flatMapIndexed_nil | apply flatMapIndexed_const ].
Qed.

(** ** The sizes kept by the resize handlers *)

Lemma max1_le (x : Q) : 1 <= max1 x.
Proof.
  unfold max1. destruct (Qle_bool x 1) eqn:E; [ apply Qle_refl | ].
  apply Qlt_le_weak, Qnot_le_lt. intros H.
  apply Qle_bool_iff in H. congruence.
Qed.

Lemma jsDiv_comp (a a' b b' : Q) :
  a == a' -> b == b' -> jsDiv a b == jsDiv a' b'.
Proof.
  intros Ha Hb. unfold jsDiv. apply roundDouble_comp.
  rewrite Ha, Hb. reflexivity.
Qed.

(** The scale [resizeAndDraw] chooses depends on the sizes as numbers. *)
Lemma chosenScale_comp (w w' h h' cw cw' ch ch' : Q) :
  w == w' -> h == h' -> cw == cw' -> ch == ch' ->
  (if Qgt_bool (jsDiv w h) (jsDiv cw ch) then jsDiv cw w else jsDiv ch h)
  == (if Qgt_bool (jsDiv w' h') (jsDiv cw' ch') then jsDiv cw' w'
      else jsDiv ch' h').
Proof.
  intros Hw Hh Hcw Hch.
  assert (Hcond : Qgt_bool (jsDiv w h) (jsDiv cw ch)
                  = Qgt_bool (jsDiv w' h') (jsDiv cw' ch')).
  { unfold Qgt_bool. f_equal.
    rewrite (jsDiv_comp Hw Hh), (jsDiv_comp Hcw Hch). reflexivity. }
  rewrite Hcond.
  destruct (Qgt_bool (jsDiv w' h') (jsDiv cw' ch'));
    apply jsDiv_comp; assumption.
Qed.

Lemma resizeAndDraw_fitted (c : Canvas) :
  isViewInit c = true ->
  1 <= cssContainerWidth c -> 1 <= cssContainerHeight c ->
  fitted (fst (resizeAndDraw c)).
Proof.
  intros Hinit Hcw Hch.
  unfold resizeAndDraw. rewrite Hinit. cbn [negb fst].
  unfold fitted.
  destruct (Qgt_bool (jsDiv (width (vlSize c)) (height (vlSize c)))
              (jsDiv (cssContainerWidth c) (cssContainerHeight c))) eqn:E;
    cbn; rewrite E; repeat split; try assumption; reflexivity.
Qed.

(** The resize of the container keeps the canvas fitted: whatever size
    the resize service reports, zero and negative sizes included, an
    initialised and fitted canvas with a viewport of positive size has
    afterwards a container of at least
    one css pixel each way ([size - 2 * CANVAS_MARGIN], or 1 if that is
    less), the viewport it had, and the scale [resizeAndDraw] chooses
    for the two, whether the handler has resized the canvas or found the
    container unchanged. *)
Theorem onCanvasResize_fitted (size : Size) (c : Canvas) :
  isViewInit c = true ->
  0 < width (vlSize c) -> 0 < height (vlSize c) ->
  fitted c ->
  let c' := fst (onCanvasResize size c) in
  fitted c'
  /\ cssContainerWidth c' = max1 (jsSub (width size) 72)
  /\ cssContainerHeight c' = max1 (jsSub (height size) 72)
  /\ vlSize c' = vlSize c.
Proof.
  intros Hinit _ _ (Hcw & Hch & Hs & Hattr). cbv zeta.
  assert (H72 : jsMul CANVAS_MARGIN 2 = 72) by (vm_compute; reflexivity).
  unfold onCanvasResize. rewrite H72.
  set (c1 := set_cssContainerHeight _ (set_cssContainerWidth _ c)).
  assert (Hw1 : cssContainerWidth c1 = max1 (jsSub (width size) 72))
    by reflexivity.
  assert (Hh1 : cssContainerHeight c1 = max1 (jsSub (height size) 72))
    by reflexivity.
  destruct (Qneq_bool (cssContainerWidth c1) (cssContainerWidth c)
            || Qneq_bool (cssContainerHeight c1) (cssContainerHeight c))
    eqn:Hchanged.
  - split.
    + apply resizeAndDraw_fitted; try assumption.
      * rewrite Hw1. apply max1_le.
      * rewrite Hh1. apply max1_le.
    + unfold resizeAndDraw.
      change (isViewInit c1) with (isViewInit c). rewrite Hinit.
      cbn [negb fst].
      match goal with
      | |- context [if ?b then set_cssScale _ _ else _] => destruct b
      end; repeat split; reflexivity.
  - apply orb_false_iff in Hchanged as [Ew Eh].
    unfold Qneq_bool in Ew, Eh. apply negb_false_iff in Ew, Eh.
    apply Qeq_bool_iff in Ew, Eh. cbn [fst].
    split; [ | repeat split; reflexivity ].
    unfold fitted.
    change (vlSize c1) with (vlSize c).
    change (cssScale c1) with (cssScale c).
    change (attrScale c1) with (attrScale c).
    change (devicePixelRatio c1) with (devicePixelRatio c).
    split; [ rewrite Ew; exact Hcw | ].
    split; [ rewrite Eh; exact Hch | ].
    split; [ | exact Hattr ].
    rewrite Hs. apply chosenScale_comp; try reflexivity; symmetry;
      assumption.
Qed.

(** A change of the vector layer keeps the canvas fitted: the viewport of
    an initialised and fitted canvas becomes the size of the new vector
    layer, which is positive, or 24 by 24 without one, the container
    stays, and the scale is
    the one [resizeAndDraw] chooses for the two, whether the handler has
    resized the canvas or found the size of the viewport unchanged. *)
Theorem onVectorLayerChange_fitted (vl : option VectorLayerRoot) (c : Canvas) :
  isViewInit c = true ->
  match vl with
  | Some v => 0 < vlWidth v /\ 0 < vlHeight v
  | None => True
  end ->
  fitted c ->
  let c' := fst (onVectorLayerChange vl c) in
  fitted c'
  /\ vlSize c'
     = match vl with
       | Some v => mkSize (vlWidth v) (vlHeight v)
       | None => mkSize 24 24
       end
  /\ cssContainerWidth c' = cssContainerWidth c
  /\ cssContainerHeight c' = cssContainerHeight c.
Proof.
  intros Hinit _ (Hcw & Hch & Hs & Hattr). cbv zeta.
  unfold onVectorLayerChange.
  set (newWidth := match vl with
                   | Some v => vlWidth v
                   | None => DEFAULT_VIEWPORT_SIZE
                   end).
  set (newHeight := match vl with
                    | Some v => vlHeight v
                    | None => DEFAULT_VIEWPORT_SIZE
                    end).
  assert (Hsize : mkSize newWidth newHeight
                  = match vl with
                    | Some v => mkSize (vlWidth v) (vlHeight v)
                    | None => mkSize 24 24
                    end)
    by (subst newWidth newHeight; destruct vl; reflexivity).
  set (c1 := set_vlSize (mkSize newWidth newHeight) c).
  destruct (Qneq_bool (width (vlSize c)) newWidth
            || Qneq_bool (height (vlSize c)) newHeight) eqn:Hchanged.
  - split.
    + apply resizeAndDraw_fitted; assumption.
    + unfold resizeAndDraw.
      change (isViewInit c1) with (isViewInit c). rewrite Hinit.
      cbn [negb fst].
      match goal with
      | |- context [if ?b then set_cssScale _ _ else _] => destruct b
      end; repeat split; try reflexivity; exact Hsize.
  - apply orb_false_iff in Hchanged as [Ew Eh].
    unfold Qneq_bool in Ew, Eh. apply negb_false_iff in Ew, Eh.
    apply Qeq_bool_iff in Ew, Eh. cbn [fst].
    split; [ | repeat split; try reflexivity; exact Hsize ].
    unfold fitted.
    change (vlSize c1) with (mkSize newWidth newHeight).
    change (cssScale c1) with (cssScale c).
    change (attrScale c1) with (attrScale c).
    change (devicePixelRatio c1) with (devicePixelRatio c).
    change (cssContainerWidth c1) with (cssContainerWidth c).
    change (cssContainerHeight c1) with (cssContainerHeight c).
    cbn [width height].
    split; [ exact Hcw | ]. split; [ exact Hch | ].
    split; [ | exact Hattr ].
    rewrite Hs. apply chosenScale_comp; try reflexivity; assumption.
Qed.

(** ** The controllers and the mouse *)

Ltac by_handler_cases :=
  repeat (cbn;
          match goal with
          | H : truthy ?s = _ |- context [truthy ?s] => rewrite H
          | H : isStroked ?l = _ |- context [isStroked ?l] => rewrite H
          | H : isFilled ?l = _ |- context [isFilled ?l] => rewrite H
          | |- context [truthy ?s] => is_var s; destruct (truthy s) eqn:?
          | |- context [isStroked ?l] =>
              is_var l; destruct (isStroked l) eqn:?
          | |- context [isFilled ?l] =>
              is_var l; destruct (isFilled l) eqn:?
          end);
  cbn.

(** What the mode-change handler does not touch. *)
Lemma onAppModeChange_frame (c : Canvas) :
  let d := fst (onAppModeChange c) in
  canvasType d = canvasType c
  /\ cssScale d = cssScale c
  /\ canvasOffset d = canvasOffset c
  /\ getVectorLayer d = getVectorLayer c
  /\ getActivePathId d = getActivePathId c
  /\ getActivePathLayer d = getActivePathLayer c.
Proof.
  destruct c as [ty init cw ch vls css attr prev ps ss sh dis cssz atsz cur dpr
                   off vl aid alayer morph mode sels hov lbl].
  unfold onAppModeChange, appMode, activeLayerStroked, activeLayerFilled,
    activePathLayer, activePathId.
  destruct mode, alayer as [layer |]; by_handler_cases; repeat split.
Qed.

Lemma subIdxs_head (sels : list Selection) (acc : list nat) :
  hd_error (fold_left (fun s sel => setAdd s (subIdx sel)) sels acc)
  = match acc with
    | [] => option_map subIdx (hd_error sels)
    | first :: _ => Some first
    end.
Proof.
  revert acc. induction sels as [| sel sels IH]; intros acc.
  - destruct acc; reflexivity.
  - simpl fold_left. rewrite IH. unfold setAdd.
    destruct acc as [| first acc]; [ reflexivity | ].
    destruct (existsb _ _); reflexivity.
Qed.

(** The segment splitter a mode change instantiates is restricted to the
    subpath of the first selection, and unrestricted when nothing is
    selected; in the mode [SplitSubPaths] the selection it was read from
    is reset by the same handler. *)
Theorem appMode_change_restricts (mode : AppMode) (c : Canvas) :
  canvasType c <> Preview ->
  mode = AddPoints
  \/ (mode = SplitSubPaths /\ activeLayerStroked c = true) ->
  let c' := fst (appModeService_setAppMode mode c) in
  segmentSplitter c'
  = Some (newSegmentSplitter (option_map subIdx (hd_error (getSelections c))))
  /\ (mode = SplitSubPaths -> getSelections c' = []).
Proof.
  intros Htype Hmode. cbv zeta.
  rewrite setAppMode_subscribed by exact Htype.
  destruct (onAppModeChange_state (set_getAppMode mode c))
    as (_ & Hss & _ & _ & Hsel & _).
  rewrite Hss, Hsel.
  change (appMode (set_getAppMode mode c)) with mode.
  change (activeLayerStroked (set_getAppMode mode c))
    with (activeLayerStroked c).
  change (getSelections (set_getAppMode mode c)) with (getSelections c).
  rewrite subIdxs_head. split.
  - destruct Hmode as [-> | [-> ->]]; reflexivity.
  - intros ->. reflexivity.
Qed.

(** After a change of the mode, the four mouse handlers hand an event to
    a controller the handler has instantiated, with the point converted
    to viewport coordinates: the point selector in [SelectPoints], the
    segment splitter in [AddPoints] and, on a stroked layer, in
    [SplitSubPaths], the shape splitter in [SplitSubPaths] on a layer
    that is filled and not stroked.  In [SplitSubPaths] on a layer that
    is neither stroked nor filled no splitter is instantiated and the
    handlers throw a [TypeError]. *)
Theorem mouse_after_mode_change (mode : AppMode) (c : Canvas)
    (event : MouseEvent) (layer : PathProps) :
  shouldProcessMouseEvents c = true ->
  getActivePathLayer c = Some layer ->
  let c' := fst (appModeService_setAppMode mode c) in
  let controller :=
    match mode with
    | SelectPoints => ThePathSelector
    | AddPoints => TheSegmentSplitter
    | SplitSubPaths =>
        if isStroked layer then TheSegmentSplitter else TheShapeSplitter
    end in
  let handed (call : MouseMethod) (r : Outcome (option ControllerCall)) :=
    if AppMode_eqb mode SplitSubPaths
       && negb (isStroked layer) && negb (isFilled layer)
    then r = Throw TypeError
    else exists extra,
           r = Ok (Some (mkControllerCall controller call
                           (mouseEventToPoint c event) extra)) in
  handed OnMouseDown (onMouseDown event c')
  /\ handed OnMouseMove (onMouseMove event c')
  /\ handed OnMouseUp (onMouseUp event c')
  /\ handed OnMouseLeave (onMouseLeave event c').
Proof.
  intros Hproc Hlayer. cbv zeta.
  assert (Htype : canvasType c <> Preview).
  { unfold shouldProcessMouseEvents in Hproc.
    apply andb_true_iff in Hproc as [Hproc _].
    intros E. rewrite E in Hproc. discriminate. }
  assert (Htruthy : truthy (activePathId c) = true).
  { unfold shouldProcessMouseEvents in Hproc.
    apply andb_true_iff in Hproc as [_ Hproc]. exact Hproc. }
  rewrite setAppMode_subscribed by exact Htype.
  set (c0 := set_getAppMode mode c).
  destruct (onAppModeChange_state c0)
    as (Hps & Hss & Hsh & _ & _ & Hmode).
  destruct (onAppModeChange_frame c0)
    as (Hty & Hscale & Hoff & _ & Hid & Hal).
  cbv zeta in *.
  change (appMode c0) with mode in *.
  change (getAppMode c0) with mode in *.
  assert (Hstroked : activeLayerStroked c0 = isStroked layer).
  { unfold activeLayerStroked, activePathLayer.
    change (activePathId c0) with (activePathId c).
    change (getActivePathLayer c0) with (getActivePathLayer c).
    rewrite Htruthy, Hlayer. reflexivity. }
  assert (Hfilled : activeLayerFilled c0 = isFilled layer).
  { unfold activeLayerFilled, activePathLayer.
    change (activePathId c0) with (activePathId c).
    change (getActivePathLayer c0) with (getActivePathLayer c).
    rewrite Htruthy, Hlayer. reflexivity. }
  rewrite Hstroked in Hss. rewrite Hfilled in Hsh.
  assert (Hall : forall call extra,
    handMouseEvent call extra event (fst (onAppModeChange c0))
    = if AppMode_eqb mode SplitSubPaths
         && negb (isStroked layer) && negb (isFilled layer)
      then Throw TypeError
      else Ok (Some
                 (mkControllerCall
                    match mode with
                    | SelectPoints => ThePathSelector
                    | AddPoints => TheSegmentSplitter
                    | SplitSubPaths =>
                        if isStroked layer then TheSegmentSplitter
                        else TheShapeSplitter
                    end call (mouseEventToPoint c event)
                    match mode with
                    | SelectPoints => extra
                    | _ => None
                    end))).
  { intros call extra. unfold handMouseEvent.
    unfold shouldProcessMouseEvents, activePathLayer, activePathId, appMode,
      mouseEventToPoint.
    rewrite Hty, Hid, Hal, Hmode, Hps, Hss, Hsh, Hscale, Hoff.
    change (canvasType c0) with (canvasType c).
    change (getActivePathId c0) with (getActivePathId c).
    change (getActivePathLayer c0) with (getActivePathLayer c).
    change (cssScale c0) with (cssScale c).
    change (canvasOffset c0) with (canvasOffset c).
    unfold shouldProcessMouseEvents, activePathId in Hproc.
    unfold activePathId in Htruthy.
    rewrite Hproc, Htruthy, Hlayer. cbn [negb].
    destruct mode; cbn [AppMode_eqb orb andb deref bindO];
      try reflexivity.
    destruct (isStroked layer), (isFilled layer); reflexivity. }
  unfold onMouseDown, onMouseMove, onMouseUp, onMouseLeave.
  rewrite !Hall.
  destruct (AppMode_eqb mode SplitSubPaths
            && negb (isStroked layer) && negb (isFilled layer));
    repeat split; eauto.
Qed.

(** A double click changes nothing and draws nothing unless its hit test
    reports a hit: on a canvas that does not process mouse events, in
    another mode than [SelectPoints], when a lookup of the hit test
    throws, and when the hit test reports no hit, the component and the
    services are left as they were and no call is made. *)
Theorem onDoubleClick_unless_hit (event : MouseEvent) (c : Canvas) :
  (fst (onDoubleClick event c) = c
   /\ calls (snd (onDoubleClick event c)) = [])
  \/ (shouldProcessMouseEvents c = true
      /\ appMode c = SelectPoints
      /\ exists layer r,
           activePathLayer c = Some layer
           /\ performHitTest c (mouseEventToPoint c event)
                (mkHitTestOpts false (negb (isStroked layer)) false None)
              = Ok r
           /\ isHit r = true
           /\ concatenatedHits r <> []).
Proof.
  unfold onDoubleClick.
  destruct (shouldProcessMouseEvents c); cbn [negb]; [ | left; split; reflexivity ].
  destruct (appMode c); cbn [AppMode_eqb]; try (left; split; reflexivity).
  destruct (activePathLayer c) as [layer |]; cbn [deref bindO];
    [ | left; split; reflexivity ].
  destruct (performHitTest c (mouseEventToPoint c event)
              (mkHitTestOpts false (negb (isStroked layer)) false None))
    as [r | e] eqn:Hhit; cbn [bindO]; [ | left; split; reflexivity ].
  destruct (isHit r) eqn:HisHit; [ | left; split; reflexivity ].
  destruct (last_ (concatenatedHits r)) as [hit |] eqn:Hlast;
    cbn [deref bindO]; [ | left; split; reflexivity ].
  right. repeat split. exists layer, r. repeat split; auto.
  intros E. rewrite E in Hlast. discriminate.
Qed.

(** ** Hit testing and projection *)

Lemma truthy_iff (s : option string) :
  truthy s = true <-> exists i, s = Some i /\ i <> EmptyString.
Proof.
  unfold truthy. destruct s as [i |].
  - destruct (String.eqb_spec i EmptyString) as [E | NE]; simpl; split.
    + discriminate.
    + intros (j & Hj & Hne). inversion Hj; subst. contradiction.
    + intros _. eauto.
    + reflexivity.
  - split; [ discriminate | intros (i & E & _); discriminate ].
Qed.

Lemma transformsForActiveLayer_resolved (c : Canvas) :
  (exists ms, transformsForActiveLayer c = Ok (Some ms))
  <-> exists vl i,
        vectorLayer c = Some vl /\ activePathId c = Some i
        /\ In i (layerIds (rootLayer vl)).
Proof.
  unfold transformsForActiveLayer.
  destruct (vectorLayer c) as [vl |]; cbn [deref bindO].
  - destruct (activePathId c) as [i |].
    + destruct (in_dec string_dec i (layerIds (rootLayer vl))) as [Hin | Hn].
      * destruct (proj1 (getTransformsFn_resolves i (rootLayer vl) []) Hin)
          as (anc & _ & Heq).
        unfold getTransformsForLayer. rewrite Heq. split; eauto.
      * rewrite (getTransformsForLayer_absent _ _ Hn). split.
        -- intros (ms & H). discriminate.
        -- intros (vl' & i' & Hv & Hi & Hin).
           inversion Hv; inversion Hi; subst. contradiction.
    + split.
      * intros (ms & H). discriminate.
      * intros (vl' & i' & _ & Hi & _). discriminate.
  - split.
    + intros (ms & H). discriminate.
    + intros (vl' & i' & Hv & _). discriminate.
Qed.

(** [performHitTest] and [calculateProjectionOntoPath] return exactly
    when there is a vector layer, the active path id is a non-empty id of
    a layer of its tree, and the state service has an active path layer;
    otherwise they throw a [TypeError]. *)
Theorem hit_test_returns (c : Canvas) (point : Point) :
  let resolved :=
    exists vl i layer,
      vectorLayer c = Some vl
      /\ activePathId c = Some i /\ i <> EmptyString
      /\ In i (layerIds (rootLayer vl))
      /\ getActivePathLayer c = Some layer in
  (forall opts,
     (exists r, performHitTest c point opts = Ok r) <-> resolved)
  /\ (forall opts,
        ~ resolved -> performHitTest c point opts = Throw TypeError)
  /\ (forall restrictTo,
        (exists r, calculateProjectionOntoPath c point restrictTo = Ok r)
        <-> resolved)
  /\ (forall restrictTo,
        ~ resolved ->
        calculateProjectionOntoPath c point restrictTo = Throw TypeError).
Proof.
  cbv zeta.
  assert (Hlayer :
    (exists layer, activePathLayer c = Some layer)
    <-> exists i layer,
          activePathId c = Some i /\ i <> EmptyString
          /\ getActivePathLayer c = Some layer).
  { unfold activePathLayer.
    destruct (truthy (activePathId c)) eqn:Ht.
    - apply truthy_iff in Ht as (i & Hi & Hne). split.
      + intros (layer & H). eauto 6.
      + intros (i' & layer & _ & _ & H). eauto.
    - split; [ intros (layer & H); discriminate | ].
      intros (i & layer & Hi & Hne & _).
      assert (truthy (activePathId c) = true)
        by (apply truthy_iff; eauto).
      congruence. }
  assert (Hboth :
    (exists vl i layer,
       vectorLayer c = Some vl
       /\ activePathId c = Some i /\ i <> EmptyString
       /\ In i (layerIds (rootLayer vl))
       /\ getActivePathLayer c = Some layer)
    <-> (exists ms, transformsForActiveLayer c = Ok (Some ms))
        /\ exists layer, activePathLayer c = Some layer).
  { rewrite transformsForActiveLayer_resolved, Hlayer. split.
    - intros (vl & i & layer & Hv & Hi & Hne & Hin & Hl). split; eauto 6.
    - intros [(vl & i & Hv & Hi & Hin) (i' & layer & Hi' & Hne & Hl)].
      rewrite Hi in Hi'. inversion Hi'; subst. eauto 10. }
  assert (Hhit : forall opts,
    (exists r, performHitTest c point opts = Ok r)
    <-> (exists ms, transformsForActiveLayer c = Ok (Some ms))
        /\ exists layer, activePathLayer c = Some layer).
  { intros opts. unfold performHitTest, activePath.
    destruct (transformsForActiveLayer c) as [[ms |] | e];
      cbn [deref bindO].
    - unfold activePathLayer.
      destruct (truthy (activePathId c));
        [ destruct (getActivePathLayer c) as [layer |] | ];
        cbn [deref bindO]; split; eauto;
        try (intros (r & H); discriminate);
        intros [_ (layer & H)]; discriminate.
    - split; [ intros (r & H); discriminate | ].
      intros [(ms & H) _]. discriminate.
    - split; [ intros (r & H); discriminate | ].
      intros [(ms & H) _]. discriminate. }
  assert (Hproj : forall restrictTo,
    (exists r, calculateProjectionOntoPath c point restrictTo = Ok r)
    <-> (exists ms, transformsForActiveLayer c = Ok (Some ms))
        /\ exists layer, activePathLayer c = Some layer).
  { intros restrictTo. unfold calculateProjectionOntoPath.
    destruct (transformsForActiveLayer c) as [[ms |] | e];
      cbn [deref bindO].
    - destruct (activePathLayer c) as [layer |]; cbn [deref bindO].
      + destruct (Path_project _ _ _); split; eauto.
      + split; [ intros (r & H); discriminate | ].
        intros [_ (layer & H)]. discriminate.
    - split; [ intros (r & H); discriminate | ].
      intros [(ms & H) _]. discriminate.
    - split; [ intros (r & H); discriminate | ].
      intros [(ms & H) _]. discriminate. }
  split; [ intros opts; rewrite Hhit, Hboth; reflexivity | ].
  split.
  { intros opts Hn.
    destruct (performHitTest c point opts) as [r | []] eqn:E;
      [ | reflexivity ].
    exfalso. apply Hn, Hboth, (Hhit opts). eauto. }
  split; [ intros restrictTo; rewrite Hproj, Hboth; reflexivity | ].
  intros restrictTo Hn.
  destruct (calculateProjectionOntoPath c point restrictTo) as [r | []] eqn:E;
    [ | reflexivity ].
  exfalso. apply Hn, Hboth, (Hproj restrictTo). eauto.
Qed.

(** [pathPointToDrawingCoords] and the hit test are inverse to each
    other on a point that the flattened transforms of the active layer
    and their inverse take back to itself: the hit test of the drawing
    coordinates of such a point of the path tests the path at that point.
    Both go through the same flattened list of transforms, reversed. *)
Theorem drawing_coords_hit_test (c : Canvas) (point drawn : Point)
    (layer : PathProps) (opts : HitTestOpts) (ms : list Matrix) :
  transformsForActiveLayer c = Ok (Some ms) ->
  MathUtil_transformPoint
    (MathUtil_transformPoint point [Matrix_flatten (rev ms)])
    [Matrix_invert (Matrix_flatten (rev ms))]
  = point ->
  pathPointToDrawingCoords c point = Ok drawn ->
  activePathLayer c = Some layer ->
  drawn = MathUtil_transformPoint point [Matrix_flatten (rev ms)]
  /\ performHitTest c drawn opts
     = Ok (Path_hitTest (pathData layer) point
             (pathHitTestOpts c layer opts)).
Proof.
  intros Hms Hinverse Hdrawn Hlayer.
  unfold pathPointToDrawingCoords in Hdrawn.
  unfold performHitTest, activePath.
  rewrite Hms in *. cbn [deref bindO] in *.
  inversion Hdrawn; subst. split; [ reflexivity | ].
  rewrite Hinverse, Hlayer. cbn [deref bindO].
  unfold activePathLayer in Hlayer.
  destruct (truthy (activePathId c)); [ | discriminate ].
  rewrite Hlayer. reflexivity.
Qed.

Lemma Qdiv_pos (a b : Q) : 0 < a -> 0 < b -> 0 < a / b.
Proof.
  intros Ha Hb. apply Qlt_shift_div_l; [ exact Hb | ].
  rewrite Qmult_0_l. exact Ha.
Qed.

(** The range of the point test: on a canvas with a positive scale, a
    distance accepted for a command is accepted for every smaller
    distance; a distance accepted for a split point is accepted for a
    point that is not split; and the medium point radius itself is
    accepted for a point that is not split and refused for a split one. *)
Theorem point_range_split_smaller (c : Canvas) (layer : PathProps)
    (opts : HitTestOpts) (split plain : Command) :
  0 < cssScale c ->
  noPoints opts = false ->
  isSplit split = true -> isSplit plain = false ->
  exists inRange,
    isPointInRangeFn (pathHitTestOpts c layer opts) = Some inRange
    /\ (forall d d' cmd,
          d' <= d -> inRange d cmd = true -> inRange d' cmd = true)
    /\ (forall d, inRange d split = true -> inRange d plain = true)
    /\ inRange (mediumPointRadius c) plain = true
    /\ inRange (mediumPointRadius c) split = false.
Proof.
  intros Hscale Hopts Hsplit Hplain.
  assert (Hr : 0 < mediumPointRadius c)
    by (apply Qdiv_pos; [ reflexivity | exact Hscale ]).
  unfold pathHitTestOpts. cbn [isPointInRangeFn]. rewrite Hopts.
  cbn [negb]. eexists. split; [ reflexivity | ]. cbv beta.
  unfold SPLIT_POINT_RADIUS_FACTOR. repeat split.
  - intros d d' cmd Hle H. apply Qle_bool_iff in H. apply Qle_bool_iff.
    eapply Qle_trans; eassumption.
  - intros d H. rewrite Hsplit in H. rewrite Hplain.
    apply Qle_bool_iff in H. apply Qle_bool_iff.
    eapply Qle_trans; [ exact H | ].
    setoid_replace (mediumPointRadius c * 1) with (mediumPointRadius c)
      by ring.
    assert (mediumPointRadius c * 0.8 == 0.8 * mediumPointRadius c)
      as -> by ring.
    lra.
  - rewrite Hplain. apply Qle_bool_iff.
    setoid_replace (mediumPointRadius c * 1) with (mediumPointRadius c)
      by ring.
    apply Qle_refl.
  - rewrite Hsplit.
    destruct (Qle_bool (mediumPointRadius c) (mediumPointRadius c * 0.8))
      eqn:E; [ | reflexivity ].
    apply Qle_bool_iff in E. exfalso.
    assert (mediumPointRadius c * 0.8 == 0.8 * mediumPointRadius c)
      as Hcomm by ring.
    rewrite Hcomm in E. lra.
Qed.

(** The point of a mouse event keeps the order of the page coordinates:
    on a canvas with a positive scale, an event that is not further left
    in the page gives a point that is not further left, and likewise
    down the page; rounding does not change this.  An event at the corner
    of the container gives the origin. *)
Theorem mouseEventToPoint_monotone (c : Canvas) (event event' : MouseEvent) :
  0 < cssScale c ->
  (pageX event <= pageX event' ->
   px (mouseEventToPoint c event) <= px (mouseEventToPoint c event'))
  /\ (pageY event <= pageY event' ->
      py (mouseEventToPoint c event) <= py (mouseEventToPoint c event'))
  /\ (pageX event == left (canvasOffset c) ->
      px (mouseEventToPoint c event) = 0)
  /\ (pageY event == top (canvasOffset c) ->
      py (mouseEventToPoint c event) = 0).
Proof.
  intros Hscale.
  assert (Hdiv : forall a b,
    a <= b -> jsDiv a (cssScale c) <= jsDiv b (cssScale c)).
  { intros a b Hab. unfold jsDiv. apply roundDouble_le.
    unfold Qdiv. apply Qmult_le_compat_r; [ exact Hab | ].
    apply Qlt_le_weak, Qinv_lt_0_compat. exact Hscale. }
  assert (Hsub : forall a b o, a <= b -> jsSub a o <= jsSub b o).
  { intros a b o Hab. unfold jsSub. apply roundDouble_le. lra. }
  assert (Hzero : forall a o, a == o -> jsDiv (jsSub a o) (cssScale c) = 0).
  { intros a o Hao. unfold jsDiv, jsSub.
    rewrite (roundDouble_zero (a - o)) by lra.
    apply roundDouble_zero. unfold Qdiv. apply Qmult_0_l. }
  unfold mouseEventToPoint. cbn [px py].
  repeat split; intros H; auto.
Qed.

(** Reporting the same size twice resizes once: after the handler has
    run for a size, running it again for this size leaves the canvas as it
    is and draws nothing. *)
Theorem onCanvasResize_again (size : Size) (c : Canvas) :
  onCanvasResize size (fst (onCanvasResize size c))
  = (fst (onCanvasResize size c), ([], Ok tt)).
Proof.
  assert (Hsame : forall c1 : Canvas,
    cssContainerWidth c1
    = max1 (jsSub (width size) (jsMul CANVAS_MARGIN 2)) ->
    cssContainerHeight c1
    = max1 (jsSub (height size) (jsMul CANVAS_MARGIN 2)) ->
    onCanvasResize size c1 = (c1, ([], Ok tt))).
  { intros c1 Hw Hh. unfold onCanvasResize.
    set (c2 := set_cssContainerHeight _ (set_cssContainerWidth _ c1)).
    assert (E : c2 = c1).
    { subst c2. rewrite <- Hw, <- Hh. destruct c1; reflexivity. }
    rewrite E. unfold Qneq_bool.
    rewrite !(proj2 (Qeq_bool_iff _ _) (Qeq_refl _)). reflexivity. }
  apply Hsame; unfold onCanvasResize;
    match goal with
    | |- context [if ?b then _ else _] => destruct b
    end; try reflexivity;
    unfold resizeAndDraw;
    match goal with
    | |- context [if negb ?b then _ else _] => destruct b
    end; cbn [negb fst]; try reflexivity;
    match goal with
    | |- context [if ?b then _ else _] => destruct b
    end; reflexivity.
Qed.

End FurtherProperties.

(** ** The hover preview *)

Lemma CanvasType_eqb_eq (a b : CanvasType) :
  CanvasType_eqb a b = true <-> a = b.
Proof. destruct a, b; simpl; split; congruence. Qed.

(** A hover gives a preview path only when it comes from this canvas, is
    no hover of a point, and the layers are drawn; the preview is then
    the edit of the active path that the type of the hover names.  A
    hover of another canvas, a hover of a point and no hover give none. *)
Theorem onHover_preview
    (splitCommandInHalf unsplitCommand : Path -> nat -> option nat -> Path)
    (reverseSubPath shiftSubPathForward shiftSubPathBack
       : Path -> nat -> Path)
    (c : Canvas) (hover : option Hover) (preview : Path) :
  onHover splitCommandInHalf unsplitCommand reverseSubPath
    shiftSubPathForward shiftSubPathBack c hover = Ok (Some preview) ->
  exists h path,
    hover = Some h
    /\ hoverSource h = canvasType c
    /\ hoverType h <> HoverPoint
    /\ shouldDrawLayers c = true
    /\ activePath c = Ok (Some path)
    /\ preview
       = match hoverType h with
         | HoverSplit =>
             splitCommandInHalf path (hoverSubIdx h) (hoverCmdIdx h)
         | HoverUnsplit => unsplitCommand path (hoverSubIdx h) (hoverCmdIdx h)
         | HoverReverse => reverseSubPath path (hoverSubIdx h)
         | HoverShiftForward => shiftSubPathForward path (hoverSubIdx h)
         | HoverShiftBack => shiftSubPathBack path (hoverSubIdx h)
         | HoverPoint => path
         end.
Proof.
  unfold onHover, updateCurrentHoverFn.
  destruct hover as [h |]; [ | discriminate ].
  destruct (CanvasType_eqb (hoverSource h) (canvasType c)) eqn:Esrc;
    cbn [negb andb].
  - apply CanvasType_eqb_eq in Esrc.
    destruct (shouldDrawLayers c); [ | discriminate ].
    destruct (activePath c) as [[path |] | e]; cbn [deref bindO];
      try discriminate.
    intros H. exists h, path.
    destruct (hoverType h); inversion H; subst;
      repeat split; auto; discriminate.
  - destruct (HoverType_eqb (hoverType h) HoverPoint) eqn:Ety;
      cbn [negb]; [ | discriminate ].
    destruct (shouldDrawLayers c); [ | discriminate ].
    destruct (activePath c) as [[path |] | e]; cbn [deref bindO];
      try discriminate.
    destruct (hoverType h); try discriminate.
Qed.

(** * The further properties on the sample data *)

Lemma getTransformsForLayer_extends_witness :
  NoDup (layerIds (rootLayer (Sample.tree Sample.strokedPath)))
  /\ ancestorsOf "path"
       (rootLayer (Sample.tree Sample.strokedPath))
       ([rootLayer (Sample.tree Sample.strokedPath)]
          ++ SampleMore.outer Sample.strokedPath
          :: [SampleMore.inner Sample.strokedPath])
  /\ getTransformsForLayer (scripts := Sample.scripts)
       (rootLayer (Sample.tree Sample.strokedPath)) "outer"
     = Some []
  /\ getTransformsForLayer (scripts := Sample.scripts)
       (rootLayer (Sample.tree Sample.strokedPath)) "path"
     = Some (SampleMore.groupMatrices ++ SampleMore.groupMatrices).
Proof.
  assert (H1 : NoDup (layerIds (rootLayer (Sample.tree Sample.strokedPath)))).
  { simpl. repeat constructor; simpl; intuition discriminate. }
  assert (H2 : ancestorsOf "path"
                 (rootLayer (Sample.tree Sample.strokedPath))
                 ([rootLayer (Sample.tree Sample.strokedPath)]
                    ++ SampleMore.outer Sample.strokedPath
                    :: [SampleMore.inner Sample.strokedPath])).
  { simpl.
    eapply ancestors_below; [ reflexivity | left; reflexivity | ].
    eapply ancestors_below;
      [ reflexivity | right; left; reflexivity | ].
    eapply ancestors_below; [ reflexivity | left; reflexivity | ].
    apply ancestors_here. reflexivity. }
  split; [ exact H1 | ]. split; [ exact H2 | ].
  destruct (@getTransformsForLayer_extends Sample.scripts
              (rootLayer (Sample.tree Sample.strokedPath)) "path"
              [rootLayer (Sample.tree Sample.strokedPath)]
              [SampleMore.inner Sample.strokedPath]
              (SampleMore.outer Sample.strokedPath) H1 H2)
    as (Houter & Hpath & _).
  split; [ exact Houter | exact Hpath ].
Defined.

Lemma drawLayer_stroke_then_fill_witness :
  Sample.allCommands "path" Sample.paintedPath <> []
  /\ getTransformsForLayer (scripts := Sample.scripts)
       (rootLayer (Sample.tree Sample.paintedPath)) "path"
     = Some (SampleMore.groupMatrices ++ SampleMore.groupMatrices)
  /\ isStroked Sample.paintedPath = true
  /\ ~ strokeWidth Sample.paintedPath == 0
  /\ ~ trimPathStart Sample.paintedPath == trimPathEnd Sample.paintedPath
  /\ isFilled Sample.paintedPath = true
  /\ exists before rule,
       calls (drawLayer (scripts := Sample.scripts) RenderingCtx
                Sample.allCommands
                (rootLayer (Sample.tree Sample.paintedPath))
                (PathLayer "path" Sample.paintedPath))
       = before
           ++ [ Call RenderingCtx Stroke; Call RenderingCtx (Fill rule);
                Call RenderingCtx Restore ]
       /\ selectCalls (fun call => isStroke call || isFill call) before = [].
Proof.
  assert (H1 : Sample.allCommands "path" Sample.paintedPath <> [])
    by discriminate.
  assert (H4 : ~ strokeWidth Sample.paintedPath == 0)
    by (intros H; discriminate).
  assert (H5 : ~ trimPathStart Sample.paintedPath
                 == trimPathEnd Sample.paintedPath)
    by (intros H; discriminate).
  split; [ exact H1 | ]. split; [ reflexivity | ].
  split; [ reflexivity | ]. split; [ exact H4 | ].
  split; [ exact H5 | ]. split; [ reflexivity | ].
  exact (@drawLayer_stroke_then_fill Sample.scripts RenderingCtx
           Sample.allCommands (rootLayer (Sample.tree Sample.paintedPath))
           "path" Sample.paintedPath
           (SampleMore.groupMatrices ++ SampleMore.groupMatrices)
           H1 eq_refl eq_refl H4 H5 eq_refl).
Defined.

Lemma drawLayer_untrimmed_witness :
  Sample.allCommands "path" Sample.strokedPath <> []
  /\ trimPathStart Sample.strokedPath == 0
  /\ trimPathEnd Sample.strokedPath == 1
  /\ trimPathOffset Sample.strokedPath == 0
  /\ selectCalls isDash
       (calls (drawLayer (scripts := Sample.scripts) RenderingCtx
                 Sample.allCommands
                 (rootLayer (Sample.tree Sample.strokedPath))
                 (PathLayer "path" Sample.strokedPath)))
     = [Call RenderingCtx (SetLineDash [])].
Proof.
  assert (H1 : Sample.allCommands "path" Sample.strokedPath <> [])
    by discriminate.
  split; [ exact H1 | ]. repeat (split; [ reflexivity | ]).
  exact (@drawLayer_untrimmed Sample.scripts RenderingCtx
           Sample.allCommands (rootLayer (Sample.tree Sample.strokedPath))
           "path" Sample.strokedPath
           (SampleMore.groupMatrices ++ SampleMore.groupMatrices)
           H1 eq_refl (Qeq_refl 0) (Qeq_refl 1) (Qeq_refl 0)).
Defined.

Lemma sample_canvas_fitted (layer : PathProps) :
  fitted (SampleMore.selecting layer).
Proof.
  unfold fitted.
  split; [ vm_compute; discriminate | ].
  split; [ vm_compute; discriminate | ].
  split; vm_compute; reflexivity.
Defined.

Lemma onCanvasResize_fitted_witness :
  isViewInit (SampleMore.selecting Sample.strokedPath) = true
  /\ 0 < width (vlSize (SampleMore.selecting Sample.strokedPath))
  /\ 0 < height (vlSize (SampleMore.selecting Sample.strokedPath))
  /\ fitted (SampleMore.selecting Sample.strokedPath)
  /\ fitted (fst (onCanvasResize (scripts := Sample.scripts) (mkSize 500 20)
                    (SampleMore.selecting Sample.strokedPath)))
  /\ cssContainerWidth
       (fst (onCanvasResize (scripts := Sample.scripts) (mkSize 500 20)
               (SampleMore.selecting Sample.strokedPath)))
     = 428
  /\ cssContainerHeight
       (fst (onCanvasResize (scripts := Sample.scripts) (mkSize 500 20)
               (SampleMore.selecting Sample.strokedPath)))
     = 1
  /\ cssScale
       (fst (onCanvasResize (scripts := Sample.scripts) (mkSize 500 20)
               (SampleMore.selecting Sample.strokedPath)))
     = roundDouble (1 / 24).
Proof.
  split; [ reflexivity | ].
  split; [ reflexivity | ].
  split; [ reflexivity | ].
  split; [ apply sample_canvas_fitted | ].
  destruct (@onCanvasResize_fitted Sample.scripts (mkSize 500 20)
              (SampleMore.selecting Sample.strokedPath) eq_refl
              eq_refl eq_refl
              (sample_canvas_fitted Sample.strokedPath))
    as (Hfit & Hwidth & Hheight & _).
  split; [ exact Hfit | ].
  split; [ exact Hwidth | ].
  split; [ exact Hheight | ].
  vm_compute. reflexivity.
Defined.

Lemma onVectorLayerChange_fitted_witness :
  isViewInit (SampleMore.selecting Sample.strokedPath) = true
  /\ fitted (SampleMore.selecting Sample.strokedPath)
  /\ fitted (fst (onVectorLayerChange (scripts := Sample.scripts) None
                    (SampleMore.selecting Sample.strokedPath)))
  /\ (0 < 48 /\ 0 < 12)
  /\ fitted (fst (onVectorLayerChange (scripts := Sample.scripts)
                    (Some (mkVectorLayerRoot "wide" [] 48 12 1))
                    (SampleMore.selecting Sample.strokedPath)))
  /\ vlSize (fst (onVectorLayerChange (scripts := Sample.scripts)
                    (Some (mkVectorLayerRoot "wide" [] 48 12 1))
                    (SampleMore.selecting Sample.strokedPath)))
     = mkSize 48 12
  /\ cssScale (fst (onVectorLayerChange (scripts := Sample.scripts)
                      (Some (mkVectorLayerRoot "wide" [] 48 12 1))
                      (SampleMore.selecting Sample.strokedPath)))
     = 2.
Proof.
  split; [ reflexivity | ].
  split; [ apply sample_canvas_fitted | ].
  split.
  - apply (@onVectorLayerChange_fitted Sample.scripts None
             (SampleMore.selecting Sample.strokedPath) eq_refl I
             (sample_canvas_fitted Sample.strokedPath)).
  - split; [ split; reflexivity | ].
    destruct (@onVectorLayerChange_fitted Sample.scripts
                (Some (mkVectorLayerRoot "wide" [] 48 12 1))
                (SampleMore.selecting Sample.strokedPath) eq_refl
                (conj eq_refl eq_refl)
                (sample_canvas_fitted Sample.strokedPath))
      as (Hfit & Hsize & _).
    split; [ exact Hfit | ].
    split; [ exact Hsize | ].
    vm_compute. reflexivity.
Defined.

Lemma appMode_change_restricts_witness :
  canvasType (SampleMore.selecting Sample.strokedPath) <> Preview
  /\ segmentSplitter
       (fst (appModeService_setAppMode (scripts := Sample.scripts) AddPoints
               (SampleMore.selecting Sample.strokedPath)))
     = Some (newSegmentSplitter (Some 3%nat)).
Proof.
  assert (H : canvasType (SampleMore.selecting Sample.strokedPath)
              <> Preview) by discriminate.
  split; [ exact H | ].
  apply (@appMode_change_restricts Sample.scripts AddPoints
           (SampleMore.selecting Sample.strokedPath) H
           (or_introl eq_refl)).
Defined.

Lemma mouse_after_mode_change_witness :
  shouldProcessMouseEvents (SampleMore.selecting Sample.unstrokedPath) = true
  /\ getActivePathLayer (SampleMore.selecting Sample.unstrokedPath)
     = Some Sample.unstrokedPath
  /\ exists extra,
       onMouseDown Sample.click
         (fst (appModeService_setAppMode (scripts := Sample.scripts)
                 SplitSubPaths
                 (SampleMore.selecting Sample.unstrokedPath)))
       = Ok (Some (mkControllerCall TheShapeSplitter OnMouseDown
                     (mkPoint (25 # 2) (25 # 2)) extra)).
Proof.
  split; [ reflexivity | ]. split; [ reflexivity | ].
  apply (@mouse_after_mode_change Sample.scripts SplitSubPaths
           (SampleMore.selecting Sample.unstrokedPath) Sample.click
           Sample.unstrokedPath eq_refl eq_refl).
Defined.

Lemma drawing_coords_hit_test_witness :
  (exists ms,
     transformsForActiveLayer (scripts := SampleMore.affine)
       (SampleMore.selecting Sample.strokedPath)
     = Ok (Some ms)
     /\ MathUtil_transformPoint (Scripts := SampleMore.affine)
          (MathUtil_transformPoint (Scripts := SampleMore.affine)
             (mkPoint 5 5) [SampleMore.flatten (rev ms)])
          [SampleMore.invert (SampleMore.flatten (rev ms))]
        = mkPoint 5 5)
  /\ pathPointToDrawingCoords (scripts := SampleMore.affine)
       (SampleMore.selecting Sample.strokedPath) (mkPoint 5 5)
     = Ok (mkPoint 35 45)
  /\ performHitTest (scripts := SampleMore.affine)
       (SampleMore.selecting Sample.strokedPath) (mkPoint 35 45)
       (mkHitTestOpts false false false None)
     = Ok (Path_hitTest (Scripts := SampleMore.affine)
             (pathData Sample.strokedPath) (mkPoint 5 5)
             (pathHitTestOpts (SampleMore.selecting Sample.strokedPath)
                Sample.strokedPath (mkHitTestOpts false false false None))).
Proof.
  split; [ eexists; split; [ reflexivity | vm_compute; reflexivity ] | ].
  split; [ vm_compute; reflexivity | ].
  eapply (@drawing_coords_hit_test SampleMore.affine
            (SampleMore.selecting Sample.strokedPath) (mkPoint 5 5)
            (mkPoint 35 45) Sample.strokedPath
            (mkHitTestOpts false false false None));
    [ reflexivity | vm_compute; reflexivity | vm_compute; reflexivity
    | reflexivity ].
Defined.

Lemma point_range_split_smaller_witness :
  0 < cssScale (SampleMore.selecting Sample.strokedPath)
  /\ isSplit SampleMore.splitCommand = true
  /\ isSplit Sample.anyCommand = false
  /\ exists inRange,
       isPointInRangeFn
         (pathHitTestOpts (SampleMore.selecting Sample.strokedPath)
            Sample.strokedPath (mkHitTestOpts false false false None))
       = Some inRange
       /\ inRange 2 Sample.anyCommand = true
       /\ inRange 2 SampleMore.splitCommand = false.
Proof.
  split; [ reflexivity | ]. split; [ reflexivity | ].
  split; [ reflexivity | ].
  destruct (@point_range_split_smaller
              (SampleMore.selecting Sample.strokedPath) Sample.strokedPath
              (mkHitTestOpts false false false None)
              SampleMore.splitCommand Sample.anyCommand
              eq_refl eq_refl eq_refl eq_refl)
    as (inRange & Heq & _ & _ & Hplain & Hsplit).
  exists inRange. split; [ exact Heq | ].
  inversion Heq; subst. split; reflexivity.
Defined.

Lemma mouseEventToPoint_monotone_witness :
  0 < cssScale (SampleMore.selecting Sample.strokedPath)
  /\ pageX (mkMouseEvent 7 9 false false) <= pageX Sample.click
  /\ px (mouseEventToPoint (SampleMore.selecting Sample.strokedPath)
           (mkMouseEvent 7 9 false false))
     <= px (mouseEventToPoint (SampleMore.selecting Sample.strokedPath)
              Sample.click).
Proof.
  assert (Hscale : 0 < cssScale (SampleMore.selecting Sample.strokedPath))
    by reflexivity.
  assert (Hle : pageX (mkMouseEvent 7 9 false false) <= pageX Sample.click)
    by (vm_compute; discriminate).
  split; [ exact Hscale | ]. split; [ exact Hle | ].
  apply (@mouseEventToPoint_monotone
           (SampleMore.selecting Sample.strokedPath)
           (mkMouseEvent 7 9 false false) Sample.click Hscale).
  exact Hle.
Defined.

Lemma onHover_preview_witness :
  onHover SampleMore.noEdit SampleMore.noEdit SampleMore.noSubPathEdit
    SampleMore.noSubPathEdit SampleMore.noSubPathEdit
    (SampleMore.selecting Sample.strokedPath)
    (Some SampleMore.reverseHover)
  = Ok (Some Sample.square)
  /\ exists h,
       Some SampleMore.reverseHover = Some h
       /\ hoverSource h
          = canvasType (SampleMore.selecting Sample.strokedPath)
       /\ hoverType h <> HoverPoint.
Proof.
  split; [ reflexivity | ].
  destruct (@onHover_preview SampleMore.noEdit SampleMore.noEdit
              SampleMore.noSubPathEdit SampleMore.noSubPathEdit
              SampleMore.noSubPathEdit
              (SampleMore.selecting Sample.strokedPath)
              (Some SampleMore.reverseHover) Sample.square eq_refl)
    as (h & path & Hh & Hsrc & Hty & _).
  exists h. auto.
Defined.
